(** * Auracoil: region parser, bundle builder and secret scanner

    A shallow embedding of the TypeScript sources
    [regions/region-parser.ts], [analyzer/context-builder.ts] and
    [security/secret-scanner.ts], and the properties of the specification
    that concern them.

    JavaScript strings are sequences of UTF-16 code units; they are modelled
    as lists of code units ([N]).  Indices and lengths that the source
    compares with [-1] are integers ([Z]).  The ceilings of a configuration
    are JavaScript numbers: rationals, [NaN] and the two infinities. *)

From Stdlib Require Import Strings.String Strings.Ascii.
From Stdlib Require Import List ZArith NArith QArith Lia Bool Arith.
From Stdlib Require Import Sorting.Permutation Sorting.Sorted.
Import ListNotations.
Close Scope Q_scope.

(** ** JavaScript strings *)

Module Js.

Definition char := N.
Definition jsstring := list char.

(** A string literal of the source, as the code units of its characters
    (all literals of the modelled sources are ASCII). *)
Definition lit (s : string) : jsstring :=
  List.map N_of_ascii (list_ascii_of_string s).

Definition nl : jsstring := [10%N].

Definition eqb (a b : jsstring) : bool :=
  if list_eq_dec N.eq_dec a b then true else false.

(** [s.startsWith(m)] *)
Fixpoint startsWith (s m : jsstring) {struct m} : bool :=
  match m, s with
  | [], _ => true
  | a :: m', b :: s' => N.eqb a b && startsWith s' m'
  | _ :: _, [] => false
  end.

(** [s.endsWith(m)] *)
Definition endsWith (s m : jsstring) : bool :=
  startsWith (rev s) (rev m).

(** Position of the first occurrence of [m] in [s], scanning from the left. *)
Fixpoint find (s m : jsstring) : option nat :=
  if startsWith s m then Some 0%nat
  else match s with
       | [] => None
       | _ :: s' => option_map S (find s' m)
       end.

(** [s.indexOf(m)]: the first position, or [-1]. *)
Definition indexOf (s m : jsstring) : Z :=
  match find s m with
  | Some i => Z.of_nat i
  | None => (-1)%Z
  end.

(** [s.includes(m)] *)
Definition includes (s m : jsstring) : bool :=
  match find s m with Some _ => true | None => false end.

(** [s.substring(start, finish)]: both arguments are clamped to
    [0 .. s.length] and swapped when [start > finish]. *)
Definition substring (s : jsstring) (start finish : Z) : jsstring :=
  let len := Z.of_nat (length s) in
  let a := Z.min (Z.max start 0) len in
  let b := Z.min (Z.max finish 0) len in
  let lo := Z.min a b in
  let hi := Z.max a b in
  firstn (Z.to_nat (hi - lo)) (skipn (Z.to_nat lo) s).

(** [s.substring(start)] *)
Definition substringFrom (s : jsstring) (start : Z) : jsstring :=
  substring s start (Z.of_nat (length s)).

(** White space and line terminators of ECMAScript: what [trim] strips and
    what [\s] matches. *)
Definition isWhiteSpace (c : char) : bool :=
  match c with
  | 9 | 10 | 11 | 12 | 13 | 32 | 160 | 5760
  | 8232 | 8233 | 8239 | 8287 | 12288 | 65279 => true
  | _ => (8192 <=? c) && (c <=? 8202)
  end%N.

Fixpoint dropWhile (p : char -> bool) (s : jsstring) : jsstring :=
  match s with
  | [] => []
  | c :: s' => if p c then dropWhile p s' else s
  end.

Definition trimStart (s : jsstring) : jsstring := dropWhile isWhiteSpace s.
Definition trimEnd (s : jsstring) : jsstring :=
  rev (dropWhile isWhiteSpace (rev s)).
Definition trim (s : jsstring) : jsstring := trimStart (trimEnd s).

(** The lower case of an ASCII letter; the other code units are left as
    they are. *)
Definition lowerChar (c : char) : char :=
  if ((65 <=? c) && (c <=? 90))%N then (c + 32)%N else c.

(** [s.toLowerCase()].  Besides [A]-[Z], two code points have a lower case
    that holds an ASCII letter: U+0130, which becomes [i] followed by
    U+0307, and the Kelvin sign U+212A, which becomes [k].  Every other
    code unit lower-cases to code units of 128 and more and is left as it
    is here: the sources compare lower-cased strings with ASCII literals
    only. *)
Definition lowerUnits (c : char) : jsstring :=
  if (c =? 304)%N then [105; 775]%N
  else if (c =? 8490)%N then [107%N]
  else [lowerChar c].
Definition toLowerCase (s : jsstring) : jsstring := flat_map lowerUnits s.

(** *** Numbers

    A finite double is a rational; a configuration can also hold [NaN] (or
    [undefined], which compares and subtracts as [NaN] does) and the two
    infinities.  The counts that the sources compare with a ceiling are
    natural numbers below 2^53; comparing such a count with a double, also
    with the difference of a double and a count, gives what the exact
    values give. *)
Inductive number :=
| Finite (q : Q)
| NaN
| Infinity
| NegInfinity.

Definition whole (z : Z) : number := Finite (inject_Z z).
Definition ofN (n : N) : Q := inject_Z (Z.of_N n).

(** [n > c] *)
Definition gtNum (n : N) (c : number) : bool :=
  match c with
  | Finite q => negb (Qle_bool (ofN n) q)
  | NaN | Infinity => false
  | NegInfinity => true
  end.

(** [n >= c] *)
Definition geNum (n : N) (c : number) : bool :=
  match c with
  | Finite q => Qle_bool q (ofN n)
  | NaN | Infinity => false
  | NegInfinity => true
  end.

(** [n <= c] *)
Definition leNum (n : N) (c : number) : bool :=
  match c with
  | Finite q => Qle_bool (ofN n) q
  | Infinity => true
  | NaN | NegInfinity => false
  end.

(** [c - n] *)
Definition minusNum (c : number) (n : N) : number :=
  match c with
  | Finite q => Finite (q - ofN n)%Q
  | NaN => NaN
  | Infinity => Infinity
  | NegInfinity => NegInfinity
  end.

(** [c <= 0] *)
Definition nonPositive (c : number) : bool :=
  match c with
  | Finite q => Qle_bool q 0%Q
  | NegInfinity => true
  | NaN | Infinity => false
  end.

(** [parts.join(sep)] *)
Fixpoint join (sep : jsstring) (parts : list jsstring) : jsstring :=
  match parts with
  | [] => []
  | [p] => p
  | p :: rest => p ++ sep ++ join sep rest
  end.

(** [s.split('\n')] *)
Fixpoint splitOn (sep : char) (s : jsstring) : list jsstring :=
  match s with
  | [] => [[]]
  | c :: s' =>
      if N.eqb c sep then [] :: splitOn sep s'
      else match splitOn sep s' with
           | [] => [[c]]
           | l :: ls => (c :: l) :: ls
           end
  end.

(** [m] occurs in [s] as a contiguous run of code units. *)
Definition occurs (m s : jsstring) : Prop :=
  exists pre post, s = pre ++ m ++ post.

(** Number of positions of [s] at which [m] starts. *)
Fixpoint countOccurrences (s m : jsstring) : nat :=
  (if startsWith s m then 1 else 0)%nat +
  match s with
  | [] => 0%nat
  | _ :: s' => countOccurrences s' m
  end.

End Js.

Import Js.

(** ** Results of operations that may throw *)

Inductive result (A : Type) : Type :=
| Ok (v : A)
| Throw (message : jsstring).
Arguments Ok {A} v.
Arguments Throw {A} message.

(** ** Region parser ([regions/region-parser.ts]) *)

Module Region.

Definition BEGIN_MARKER : jsstring := lit "<!-- auracoil:begin -->".
Definition END_MARKER : jsstring := lit "<!-- auracoil:end -->".

Definition DEFAULT_REGION : jsstring :=
  BEGIN_MARKER ++ nl
  ++ lit "## GPT Insights (maintained by Auracoil)" ++ nl
  ++ nl
  ++ lit "_No reviews yet. Run `/auracoil` to get GPT 5.2 Pro's analysis._" ++ nl
  ++ END_MARKER.

Definition markersNotFound : jsstring :=
  lit "Auracoil region markers not found in document".

Definition extractRegion (doc : jsstring) : option jsstring :=
  let beginIdx := indexOf doc BEGIN_MARKER in
  let endIdx := indexOf doc END_MARKER in
  if (beginIdx =? -1)%Z || (endIdx =? -1)%Z then None
  else Some (trim (substring doc (beginIdx + Z.of_nat (length BEGIN_MARKER)) endIdx)).

Definition replaceRegion (doc newContent : jsstring) : result jsstring :=
  let beginIdx := indexOf doc BEGIN_MARKER in
  let endIdx := indexOf doc END_MARKER in
  if (beginIdx =? -1)%Z || (endIdx =? -1)%Z then Throw markersNotFound
  else
    let before := substring doc 0 (beginIdx + Z.of_nat (length BEGIN_MARKER)) in
    let after := substringFrom doc endIdx in
    Ok (before ++ nl ++ trim newContent ++ nl ++ after).

Definition ensureRegion (doc : jsstring) : jsstring :=
  if includes doc BEGIN_MARKER then doc
  else trimEnd doc ++ nl ++ nl ++ DEFAULT_REGION ++ nl.

(** [replaceRegion(doc, extractRegion(doc))]: when [extractRegion] yields
    [null] a marker is absent, and [replaceRegion] throws before it looks at
    its second argument. *)
Definition roundTrip (doc : jsstring) : result jsstring :=
  match extractRegion doc with
  | Some r => replaceRegion doc r
  | None => replaceRegion doc []
  end.

End Region.

(** ** SHA-256 ([createHash('sha256')] of Node's [crypto])

    The digest of FIPS 180-4, on 32-bit words kept in [N] with the
    wrap-around written out. *)

Module Sha256.

Definition w32 (x : N) : N := N.modulo x 4294967296.
Definition add32 (x y : N) : N := w32 (x + y).
Definition rotr (n x : N) : N :=
  w32 (N.lor (N.shiftr x n) (N.shiftl x (32 - n))).
Definition not32 (x : N) : N := 4294967295 - x.

Definition Ch (x y z : N) : N := N.lxor (N.land x y) (N.land (not32 x) z).
Definition Maj (x y z : N) : N :=
  N.lxor (N.lxor (N.land x y) (N.land x z)) (N.land y z).
Definition Sigma0 (x : N) : N :=
  N.lxor (N.lxor (rotr 2 x) (rotr 13 x)) (rotr 22 x).
Definition Sigma1 (x : N) : N :=
  N.lxor (N.lxor (rotr 6 x) (rotr 11 x)) (rotr 25 x).
Definition sigma0 (x : N) : N :=
  N.lxor (N.lxor (rotr 7 x) (rotr 18 x)) (N.shiftr x 3).
Definition sigma1 (x : N) : N :=
  N.lxor (N.lxor (rotr 17 x) (rotr 19 x)) (N.shiftr x 10).

(** The constants of FIPS 180-4: the first 32 bits of the fractional parts
    of the cube roots of the first 64 primes, and of the square roots of
    the first 8 primes. *)
Definition isPrime (n : nat) : bool :=
  (1 <? n)%nat
  && forallb (fun d => negb (Nat.eqb (n mod d) 0)) (seq 2 (n - 2)).

Definition primes (count : nat) : list N :=
  List.map N.of_nat (firstn count (filter isPrime (seq 2 310))).

(** The largest [r] with [r * r * r <= n], found bit by bit below [2^bits]. *)
Definition icbrt (bits : nat) (n : N) : N :=
  fold_left
    (fun r i =>
       let r' := (r + N.shiftl 1 (N.of_nat i))%N in
       if (r' * r' * r' <=? n)%N then r' else r)
    (rev (seq 0 bits)) 0%N.

Definition K : list N :=
  Eval vm_compute in
    List.map (fun p => w32 (icbrt 36 (N.shiftl p 96))) (primes 64).

Definition H0 : list N :=
  Eval vm_compute in
    List.map (fun p => w32 (N.sqrt (N.shiftl p 64))) (primes 8).

(** Big-endian bytes of a number, [n] of them. *)
Fixpoint bytesBE (n : nat) (x : N) : list N :=
  match n with
  | O => []
  | S n' => bytesBE n' (N.shiftr x 8) ++ [N.modulo x 256]
  end.

Definition wordBE (bs : list N) : N :=
  fold_left (fun acc b => acc * 256 + b)%N bs 0%N.

(** The message, a one bit, zeros up to 56 modulo 64 bytes, and the bit
    length on 8 bytes. *)
Definition pad (msg : list N) : list N :=
  let len := length msg in
  let zeros := ((119 - len mod 64) mod 64)%nat in
  msg ++ [128%N] ++ repeat 0%N zeros ++ bytesBE 8 (N.of_nat len * 8).

Fixpoint chunks (fuel n : nat) (l : list N) : list (list N) :=
  match fuel with
  | O => []
  | S fuel' =>
      match l with
      | [] => []
      | _ => firstn n l :: chunks fuel' n (skipn n l)
      end
  end.

(** The message schedule, most recent word first. *)
Fixpoint extend (n : nat) (rw : list N) : list N :=
  match n with
  | O => rw
  | S n' =>
      let w := add32 (add32 (sigma1 (nth 1 rw 0%N)) (nth 6 rw 0%N))
                     (add32 (sigma0 (nth 14 rw 0%N)) (nth 15 rw 0%N)) in
      extend n' (w :: rw)
  end.

Definition schedule (block : list N) : list N :=
  rev (extend 48 (rev (List.map wordBE (chunks 16 4 block)))).

Record regs := Regs { ra : N; rb : N; rc : N; rd : N;
                      re : N; rf : N; rg : N; rh : N }.

Definition round (s : regs) (kw : N * N) : regs :=
  let t1 := add32 (add32 (add32 (rh s) (Sigma1 (re s)))
                         (add32 (Ch (re s) (rf s) (rg s)) (fst kw))) (snd kw) in
  let t2 := add32 (Sigma0 (ra s)) (Maj (ra s) (rb s) (rc s)) in
  Regs (add32 t1 t2) (ra s) (rb s) (rc s) (add32 (rd s) t1) (re s) (rf s) (rg s).

Definition regsOf (h : list N) : regs :=
  Regs (nth 0 h 0%N) (nth 1 h 0%N) (nth 2 h 0%N) (nth 3 h 0%N)
       (nth 4 h 0%N) (nth 5 h 0%N) (nth 6 h 0%N) (nth 7 h 0%N).

Definition listOf (s : regs) : list N :=
  [ra s; rb s; rc s; rd s; re s; rf s; rg s; rh s].

Definition compress (h : list N) (block : list N) : list N :=
  let s := fold_left round (combine K (schedule block)) (regsOf h) in
  List.map (fun p => add32 (fst p) (snd p)) (combine h (listOf s)).

Definition digest (msg : list N) : list N :=
  let p := pad msg in
  flat_map (bytesBE 4) (fold_left compress (chunks (length p) 64 p) H0).

(** UTF-8 bytes of a string of UTF-16 code units; a surrogate that is not
    part of a pair is encoded as U+FFFD. *)
Definition utf8OfCodePoint (c : N) : list N :=
  if (c <? 128)%N then [c]
  else if (c <? 2048)%N then
    [192 + N.shiftr c 6; 128 + N.land c 63]%N
  else if (c <? 65536)%N then
    [224 + N.shiftr c 12; 128 + N.land (N.shiftr c 6) 63; 128 + N.land c 63]%N
  else
    [240 + N.shiftr c 18; 128 + N.land (N.shiftr c 12) 63;
     128 + N.land (N.shiftr c 6) 63; 128 + N.land c 63]%N.

Definition isHigh (c : N) : bool := ((55296 <=? c) && (c <=? 56319))%N.
Definition isLow (c : N) : bool := ((56320 <=? c) && (c <=? 57343))%N.

Fixpoint utf8 (s : jsstring) : list N :=
  match s with
  | [] => []
  | c :: s' =>
      if isHigh c then
        match s' with
        | d :: s'' =>
            if isLow d then
              utf8OfCodePoint (65536 + (c - 55296) * 1024 + (d - 56320))
              ++ utf8 s''
            else utf8OfCodePoint 65533 ++ utf8 s'
        | [] => utf8OfCodePoint 65533
        end
      else if isLow c then utf8OfCodePoint 65533 ++ utf8 s'
      else utf8OfCodePoint c ++ utf8 s'
  end.

Definition hexDigit (d : N) : N :=
  if (d <? 10)%N then (48 + d)%N else (87 + d)%N.

(** [digest('hex')] *)
Definition hex (bs : list N) : jsstring :=
  flat_map (fun b => [hexDigit (N.shiftr b 4); hexDigit (N.land b 15)]) bs.

Definition sha256hex (s : jsstring) : jsstring := hex (digest (utf8 s)).

End Sha256.

(** ** A repository on disk, as the builder and the scanner see it *)

Record File := { fileSize : N; fileContent : jsstring }.

(** [readFile] answers [None] where [stat] or [readFile] of the source
    throws; [glob] lists the matches of a pattern under the repository root
    (with the fixed [ignore] and [nodir] options of the call sites). *)
Record Repo := {
  readFile : jsstring -> option File;
  glob : jsstring -> list jsstring
}.

(** ** JavaScript [Map]: entries in insertion order *)

Module JsMap.

Definition t := list (jsstring * jsstring).

Fixpoint set (k v : jsstring) (m : t) : t :=
  match m with
  | [] => [(k, v)]
  | (k', v') :: m' =>
      if Js.eqb k' k then (k', v) :: m' else (k', v') :: set k v m'
  end.

Definition values (m : t) : list jsstring := List.map snd m.
Definition keys (m : t) : list jsstring := List.map fst m.

End JsMap.

(** ** Bundle builder ([analyzer/context-builder.ts]) *)

Module ContextBuilder.

Inductive ManifestType := npm | cargo | python | go | ruby | unknown.

Record ManifestInfo := {
  mtype : ManifestType;
  path : jsstring;
  name : option jsstring;
  dependencies : option (list jsstring)
}.

(** The fields of [RepoIndex] that the builder reads. *)
Record RepoIndex := {
  idxEntrypoints : list jsstring;
  idxManifests : list ManifestInfo;
  idxConfigs : list jsstring;
  idxDocs : list jsstring
}.

Record AnalysisBundle := {
  manifests : list jsstring;
  entrypoints : list jsstring;
  configs : list jsstring;
  docs : list jsstring;
  samples : list jsstring;
  contentHashes : JsMap.t;
  totalTokenEstimate : N
}.

(** The three ceilings are of type [number] in the source. *)
Record ContextConfig := {
  maxFiles : number;
  maxTotalSize : number;
  maxTokens : number;
  includePatterns : list jsstring;
  excludePatterns : list jsstring
}.

Record PartialConfig := {
  optMaxFiles : option number;
  optMaxTotalSize : option number;
  optMaxTokens : option number;
  optIncludePatterns : option (list jsstring);
  optExcludePatterns : option (list jsstring)
}.

Definition noConfig : PartialConfig :=
  {| optMaxFiles := None; optMaxTotalSize := None; optMaxTokens := None;
     optIncludePatterns := None; optExcludePatterns := None |}.

Definition DEFAULT_CONFIG : ContextConfig :=
  {| maxFiles := whole 50;
     maxTotalSize := whole 500000;
     maxTokens := whole 100000;
     includePatterns := [];
     excludePatterns :=
       [ lit "**/*.min.js"; lit "**/*.bundle.js"; lit "**/node_modules/**";
         lit "**/.git/**"; lit "**/dist/**"; lit "**/build/**";
         lit "**/coverage/**"; lit "**/*.lock"; lit "**/package-lock.json";
         lit "**/yarn.lock"; lit "**/pnpm-lock.yaml" ] |}.

Definition orDefault {A} (o : option A) (d : A) : A :=
  match o with Some x => x | None => d end.

(** [{ ...DEFAULT_CONFIG, ...config }] *)
Definition mergeConfig (config : PartialConfig) : ContextConfig :=
  {| maxFiles := orDefault (optMaxFiles config) (maxFiles DEFAULT_CONFIG);
     maxTotalSize := orDefault (optMaxTotalSize config) (maxTotalSize DEFAULT_CONFIG);
     maxTokens := orDefault (optMaxTokens config) (maxTokens DEFAULT_CONFIG);
     includePatterns :=
       orDefault (optIncludePatterns config) (includePatterns DEFAULT_CONFIG);
     excludePatterns :=
       orDefault (optExcludePatterns config) (excludePatterns DEFAULT_CONFIG) |}.

Definition CHARS_PER_TOKEN : N := 4.

(** [Math.ceil(a / b)] on natural numbers. *)
Definition ceilDiv (a b : N) : N := ((a + (b - 1)) / b)%N.

Definition hashContent (content : jsstring) : jsstring :=
  substring (Sha256.sha256hex content) 0 16.

Inductive Category := Manifests | Entrypoints | Configs | Docs | Samples.

Definition emptyBundle : AnalysisBundle :=
  {| manifests := []; entrypoints := []; configs := []; docs := [];
     samples := []; contentHashes := []; totalTokenEstimate := 0 |}.

Definition bucket (category : Category) (b : AnalysisBundle) : list jsstring :=
  match category with
  | Manifests => manifests b
  | Entrypoints => entrypoints b
  | Configs => configs b
  | Docs => docs b
  | Samples => samples b
  end.

(** [bundle[category].push(path)] *)
Definition push (category : Category) (p : jsstring) (b : AnalysisBundle)
  : AnalysisBundle :=
  {| manifests :=
       match category with Manifests => manifests b ++ [p] | _ => manifests b end;
     entrypoints :=
       match category with Entrypoints => entrypoints b ++ [p] | _ => entrypoints b end;
     configs :=
       match category with Configs => configs b ++ [p] | _ => configs b end;
     docs := match category with Docs => docs b ++ [p] | _ => docs b end;
     samples :=
       match category with Samples => samples b ++ [p] | _ => samples b end;
     contentHashes := contentHashes b;
     totalTokenEstimate := totalTokenEstimate b |}.

Definition getBundleFiles (b : AnalysisBundle) : list jsstring :=
  manifests b ++ entrypoints b ++ configs b ++ docs b ++ samples b.

Definition getTotalFiles (b : AnalysisBundle) : N :=
  (N.of_nat (length (manifests b)) + N.of_nat (length (entrypoints b))
   + N.of_nat (length (configs b)) + N.of_nat (length (docs b))
   + N.of_nat (length (samples b)))%N.

(** The bundle under construction with the two running totals that
    [buildAnalysisBundle] keeps in local variables. *)
Record Builder := {
  bundle : AnalysisBundle;
  currentSize : N;
  currentTokens : N
}.

Definition tokensOf (content : jsstring) : N :=
  ceilDiv (N.of_nat (length content)) CHARS_PER_TOKEN.

Definition addFile (cfg : ContextConfig) (repo : Repo)
    (p : jsstring) (category : Category) (st : Builder) : Builder * bool :=
  match readFile repo p with
  | None => (st, false)
  | Some f =>
      let size := fileSize f in
      let tokens := tokensOf (fileContent f) in
      if gtNum (currentSize st + size) (maxTotalSize cfg) then (st, false)
      else if gtNum (currentTokens st + tokens) (maxTokens cfg) then (st, false)
      else if geNum (getTotalFiles (bundle st)) (maxFiles cfg) then (st, false)
      else
        let b1 := push category p (bundle st) in
        let b2 :=
          {| manifests := manifests b1; entrypoints := entrypoints b1;
             configs := configs b1; docs := docs b1; samples := samples b1;
             contentHashes :=
               JsMap.set p (hashContent (fileContent f)) (contentHashes b1);
             totalTokenEstimate := (currentTokens st + tokens)%N |} in
        ({| bundle := b2;
            currentSize := (currentSize st + size)%N;
            currentTokens := (currentTokens st + tokens)%N |}, true)
  end.

(** [for (const p of paths) await addFile(p, category)] *)
Definition addAll (cfg : ContextConfig) (repo : Repo) (category : Category)
    (paths : list jsstring) (st : Builder) : Builder :=
  fold_left (fun st p => fst (addFile cfg repo p category st)) paths st.

Definition docPriority : list jsstring :=
  [lit "README.md"; lit "ARCHITECTURE.md"; lit "CONTRIBUTING.md"; lit "AGENTS.md"].

Definition configPriority : list jsstring :=
  [ lit "tsconfig.json"; lit ".eslintrc.json"; lit ".eslintrc.js";
    lit "eslint.config.js"; lit "vite.config.ts"; lit "webpack.config.js";
    lit ".github/workflows/ci.yml"; lit ".github/workflows/ci.yaml";
    lit "docker-compose.yml" ].

Definition architecturalPatterns : list jsstring :=
  [ lit "**/services/**/*.{ts,js}"; lit "**/controllers/**/*.{ts,js}";
    lit "**/models/**/*.{ts,js}"; lit "**/components/**/*.{tsx,jsx}";
    lit "**/hooks/**/*.{ts,tsx}"; lit "**/utils/**/*.{ts,js}";
    lit "**/lib/**/*.{ts,js}"; lit "**/api/**/*.{ts,js}";
    lit "**/routes/**/*.{ts,js}"; lit "**/middleware/**/*.{ts,js}" ].

(** A string is truthy when it is not empty. *)
Definition truthy (s : jsstring) : bool :=
  match s with [] => false | _ => true end.

(** [const match = candidates.find(test); if (match) await addFile(match, category)]
    for each name of a priority list. *)
Definition addPriority (cfg : ContextConfig) (repo : Repo) (category : Category)
    (test : jsstring -> jsstring -> bool) (candidates priority : list jsstring)
    (st : Builder) : Builder :=
  fold_left
    (fun st wanted =>
       match List.find (fun c => test c wanted) candidates with
       | Some m => if truthy m then fst (addFile cfg repo m category st) else st
       | None => st
       end)
    priority st.

Definition sameNameIgnoringCase (d doc : jsstring) : bool :=
  Js.eqb (toLowerCase d) (toLowerCase doc).

Definition configMatches (c config : jsstring) : bool :=
  endsWith c config || Js.eqb c config.

Definition isPriorityDoc (doc : jsstring) : bool :=
  existsb (fun p => Js.eqb (toLowerCase doc) (toLowerCase p)) docPriority.

(** [samples.includes(match)] on an array of strings *)
Definition member (x : jsstring) (l : list jsstring) : bool :=
  existsb (Js.eqb x) l.

(** The inner loop of [selectRepresentativeSamples] over
    [matches.slice(0, 2)].  Once [samples.length >= maxCount] holds the loop
    breaks; it keeps holding, so the remaining iterations are skipped here. *)
Definition takeMatches (maxCount : number) (found acc : list jsstring)
  : list jsstring :=
  fold_left
    (fun acc m =>
       if geNum (N.of_nat (length acc)) maxCount then acc
       else if member m acc then acc
       else acc ++ [m])
    (firstn 2 found) acc.

Definition selectRepresentativeSamples (repo : Repo) (index : RepoIndex)
    (maxCount : number) : list jsstring :=
  if nonPositive maxCount then []
  else
    fold_left
      (fun acc pattern =>
         if geNum (N.of_nat (length acc)) maxCount then acc
         else takeMatches maxCount (glob repo pattern) acc)
      architecturalPatterns [].

Definition buildAnalysisBundle (repo : Repo) (index : RepoIndex)
    (config : PartialConfig) : AnalysisBundle :=
  let cfg := mergeConfig config in
  let st0 := {| bundle := emptyBundle; currentSize := 0; currentTokens := 0 |} in
  (* Priority 1: manifests *)
  let st1 := addAll cfg repo Manifests (List.map path (idxManifests index)) st0 in
  (* Priority 2: documentation, the priority names first *)
  let st2 :=
    addPriority cfg repo Docs sameNameIgnoringCase (idxDocs index) docPriority st1 in
  let st3 :=
    addAll cfg repo Docs
      (filter (fun doc => negb (isPriorityDoc doc)) (idxDocs index)) st2 in
  (* Priority 3: config files *)
  let st4 :=
    addPriority cfg repo Configs configMatches (idxConfigs index) configPriority st3 in
  (* Priority 4: entry points *)
  let st5 := addAll cfg repo Entrypoints (idxEntrypoints index) st4 in
  (* Priority 5: representative samples *)
  let chosen :=
    selectRepresentativeSamples repo index
      (minusNum (maxFiles cfg) (getTotalFiles (bundle st5))) in
  let st6 := addAll cfg repo Samples chosen st5 in
  bundle st6.

(** Strings compared by code units, as the default [sort] does. *)
Fixpoint leb (a b : jsstring) : bool :=
  match a, b with
  | [], _ => true
  | _ :: _, [] => false
  | x :: a', y :: b' =>
      if (x <? y)%N then true
      else if (y <? x)%N then false
      else leb a' b'
  end.

Fixpoint insertSorted (x : jsstring) (l : list jsstring) : list jsstring :=
  match l with
  | [] => [x]
  | y :: l' => if leb x y then x :: l else y :: insertSorted x l'
  end.

(** [array.sort()] *)
Definition sort (l : list jsstring) : list jsstring :=
  fold_right insertSorted [] l.

Definition getBundleHash (b : AnalysisBundle) : jsstring :=
  let hashes := join (lit ":") (sort (JsMap.values (contentHashes b))) in
  hashContent hashes.

End ContextBuilder.

(** ** Regular expressions, as the backtracking matcher of ECMAScript runs them *)

Module Regex.

Inductive regex :=
| Chr (p : char -> bool)          (* one code unit of a class *)
| Eps
| Seq (r1 r2 : regex)
| Alt (r1 r2 : regex)             (* r1|r2, r1 tried first *)
| Star (r : regex)                (* r*, greedy *)
| Group (i : nat) (r : regex)     (* capturing group number i *)
| Backref (i : nat).              (* \i *)

Definition captures := list (nat * jsstring).

Fixpoint capture (i : nat) (c : captures) : option jsstring :=
  match c with
  | [] => None
  | (j, t) :: c' => if Nat.eqb i j then Some t else capture i c'
  end.

Definition continuation :=
  jsstring -> captures -> option (jsstring * captures).

(** The iterations of a greedy [r*], [step] being the matcher of [r]: one
    more iteration is tried first, and it must consume something; when
    what follows fails, the star stops here.  Every iteration consumes a
    code unit, so [length s] turns of fuel are enough. *)
Fixpoint starLoop (step : jsstring -> captures -> continuation -> option (jsstring * captures))
    (k : continuation) (fuel : nat) (s : jsstring) (c : captures)
  : option (jsstring * captures) :=
  match fuel with
  | O => k s c
  | S fuel' =>
      match step s c
              (fun s' c' =>
                 if (length s' <? length s)%nat then starLoop step k fuel' s' c'
                 else None)
      with
      | Some res => Some res
      | None => k s c
      end
  end.

(** [rmatch r s c k]: match [r] at the head of [s] under the captures [c],
    then continue with [k] on what is left; alternatives are tried in the
    order of the pattern and the first success wins. *)
Fixpoint rmatch (r : regex) (s : jsstring) (c : captures) (k : continuation)
  : option (jsstring * captures) :=
  match r with
  | Chr p =>
      match s with
      | x :: s' => if p x then k s' c else None
      | [] => None
      end
  | Eps => k s c
  | Seq r1 r2 => rmatch r1 s c (fun s' c' => rmatch r2 s' c' k)
  | Alt r1 r2 =>
      match rmatch r1 s c k with
      | Some res => Some res
      | None => rmatch r2 s c k
      end
  | Star r1 => starLoop (rmatch r1) k (length s) s c
  | Group i r1 =>
      rmatch r1 s c
        (fun s' c' => k s' ((i, firstn (length s - length s') s) :: c'))
  | Backref i =>
      match capture i c with
      | Some t => if startsWith s t then k (skipn (length t) s) c else None
      | None => k s c
      end
  end.

(** The least number of code units that a match of [r] consumes. *)
Fixpoint minLen (r : regex) : nat :=
  match r with
  | Chr _ => 1
  | Eps => 0
  | Seq r1 r2 => minLen r1 + minLen r2
  | Alt r1 r2 => Nat.min (minLen r1) (minLen r2)
  | Star _ => 0
  | Group _ r1 => minLen r1
  | Backref _ => 0
  end.

(** A match anchored at the head of [s]: the matched text and the captures. *)
Definition matchAt (r : regex) (s : jsstring) : option (jsstring * captures) :=
  match rmatch r s [] (fun s' c => Some (s', c)) with
  | Some (rest, c) => Some (firstn (length s - length rest) s, c)
  | None => None
  end.

(** The leftmost match in [s], which starts at index [i] of the subject. *)
Fixpoint searchFrom (r : regex) (s : jsstring) (i : nat)
  : option (nat * jsstring * captures) :=
  match matchAt r s with
  | Some (t, c) => Some (i, t, c)
  | None =>
      match s with
      | [] => None
      | _ :: s' => searchFrom r s' (S i)
      end
  end.

(** [while ((match = pattern.exec(content)) !== null)] on a global pattern
    whose [lastIndex] starts at [lastIndex]: the index and the text of every
    match.  None of the patterns below matches the empty string, so
    [lastIndex] advances at every turn and [S (length content)] turns are
    enough. *)
Fixpoint execLoop (fuel : nat) (r : regex) (content : jsstring)
    (lastIndex : nat) : list (nat * jsstring) :=
  match fuel with
  | O => []
  | S fuel' =>
      match searchFrom r (skipn lastIndex content) lastIndex with
      | None => []
      | Some (idx, text, _) =>
          (idx, text) :: execLoop fuel' r content (idx + length text)
      end
  end.

Definition execAll (r : regex) (content : jsstring) : list (nat * jsstring) :=
  execLoop (S (length content)) r content 0.

(** [s.replace(pattern, replacement)] for a global pattern: the matches are
    replaced from the left, the text between them is kept; after an empty
    match the scan moves one code unit on. *)
Fixpoint replaceLoop (fuel : nat) (r : regex) (repl : captures -> jsstring)
    (s : jsstring) : jsstring :=
  match fuel with
  | O => s
  | S fuel' =>
      match matchAt r s with
      | Some (x :: t, c) =>
          repl c ++ replaceLoop fuel' r repl (skipn (length (x :: t)) s)
      | Some ([], c) =>
          match s with
          | [] => repl c
          | x :: s' => repl c ++ x :: replaceLoop fuel' r repl s'
          end
      | None =>
          match s with
          | [] => []
          | x :: s' => x :: replaceLoop fuel' r repl s'
          end
      end
  end.

Definition replaceAll (r : regex) (repl : captures -> jsstring) (s : jsstring)
  : jsstring :=
  replaceLoop (S (length s)) r repl s.

(** *** Notation of patterns *)

Definition oneOf (cs : jsstring) : char -> bool :=
  fun x => existsb (N.eqb x) cs.
Definition noneOf (cs : jsstring) : char -> bool :=
  fun x => negb (oneOf cs x).
Definition between (lo hi : N) : char -> bool :=
  fun x => ((lo <=? x) && (x <=? hi))%N.
Definition orClass (p q : char -> bool) : char -> bool :=
  fun x => p x || q x.

Definition lower := between 97 122.     (* a-z *)
Definition upper := between 65 90.      (* A-Z *)
Definition digit := between 48 57.      (* 0-9 *)
Definition alnum := orClass lower (orClass upper digit).

Fixpoint seqOf (rs : list regex) : regex :=
  match rs with
  | [] => Eps
  | [r] => r
  | r :: rs' => Seq r (seqOf rs')
  end.

(** A literal, case-sensitive. *)
Definition str (s : string) : regex :=
  seqOf (List.map (fun c => Chr (N.eqb c)) (lit s)).

(** A literal under the [i] flag.  Code units above 127 never canonicalize
    to an ASCII letter, so comparing the ASCII lower-case forms is exact. *)
Definition strI (s : string) : regex :=
  seqOf (List.map (fun c => Chr (fun x => N.eqb (lowerChar x) (lowerChar c)))
                  (lit s)).

Definition opt (r : regex) : regex := Alt r Eps.        (* r? *)

Fixpoint rep (n : nat) (r : regex) : regex :=           (* r{n} *)
  match n with
  | O => Eps
  | S n' => Seq r (rep n' r)
  end.

Definition atLeast (n : nat) (r : regex) : regex :=     (* r{n,} *)
  Seq (rep n r) (Star r).

Fixpoint upTo (n : nat) (r : regex) : regex :=          (* r{0,n} *)
  match n with
  | O => Eps
  | S n' => opt (Seq r (upTo n' r))
  end.

Definition range (n m : nat) (r : regex) : regex :=     (* r{n,m} *)
  Seq (rep n r) (upTo (m - n) r).

Definition ws : regex := Chr isWhiteSpace.              (* \s *)
(** The class of the two quote characters, single (39) and double (34). *)
Definition quote : char -> bool := oneOf [39; 34]%N.

End Regex.

(** ** Secret scanner ([security/secret-scanner.ts]) *)

Module Scanner.

Import Regex.

Inductive SecretType :=
| api_key | aws_credentials | private_key | password | token
| connection_string | sensitive_file.

Record SecretIssue := {
  file : jsstring;
  line : nat;
  type : SecretType;
  snippet : jsstring
}.

Record SecretScanResult := {
  safe : bool;
  issues : list SecretIssue
}.

Definition DANGEROUS_FILES : list jsstring :=
  [ lit ".env"; lit ".env.local"; lit ".env.production"; lit ".env.development";
    lit ".npmrc"; lit ".netrc"; lit "credentials.json"; lit "secrets.json";
    lit "config/secrets.yml"; lit "id_rsa"; lit "id_ed25519"; lit ".pem";
    lit ".key"; lit "service-account.json"; lit "gcloud-credentials.json" ].

(** The classes of the patterns. *)
Definition keyChars := orClass alnum (oneOf (lit "_-")).          (* [a-zA-Z0-9_\-] *)
Definition awsChars := orClass alnum (oneOf (lit "/+=")).         (* [a-zA-Z0-9/+=] *)
Definition tokenChars := orClass alnum (oneOf (lit "_-.")).       (* [a-zA-Z0-9_\-.] *)
Definition slackChars := orClass alnum (oneOf (lit "-")).         (* [a-zA-Z0-9-] *)
Definition maskChars := orClass alnum (oneOf (lit "_-/.+=")).     (* [a-zA-Z0-9_\-/.+=] *)
Definition notQuote := fun x : char => negb (quote x).
Definition urlChars := fun x : char => negb (isWhiteSpace x || quote x).
Definition assign := Chr (oneOf (lit ":=")).                      (* [:=] *)

Definition SECRET_PATTERNS : list (regex * SecretType) :=
  [ (* API keys (generic), flags gi *)
    (seqOf [ Alt (seqOf [strI "api"; opt (Chr (oneOf (lit "_-"))); strI "key"])
                 (strI "apikey");
             Star ws; assign; Star ws; opt (Chr quote);
             Group 1 (atLeast 20 (Chr keyChars)); opt (Chr quote) ],
     api_key);
    (* AWS access key id, flag g *)
    (seqOf [ str "AKIA"; rep 16 (Chr (orClass digit upper)) ], aws_credentials);
    (* AWS secret access key, flags gi *)
    (seqOf [ Alt (strI "aws_secret_access_key") (strI "aws_secret");
             Star ws; assign; Star ws; opt (Chr quote);
             Group 1 (rep 40 (Chr awsChars)); opt (Chr quote) ],
     aws_credentials);
    (* private key block, flag g *)
    (seqOf [ str "-----BEGIN ";
             opt (Alt (str "RSA ") (Alt (str "EC ") (Alt (str "DSA ") (str "OPENSSH "))));
             str "PRIVATE KEY-----" ],
     private_key);
    (* passwords, flags gi *)
    (seqOf [ Alt (strI "password") (Alt (strI "passwd") (strI "pwd"));
             Star ws; assign; Star ws; Chr quote;
             Group 1 (atLeast 8 (Chr notQuote)); opt (Chr quote) ],
     password);
    (* tokens, flags gi *)
    (seqOf [ Alt (strI "token") (Alt (strI "bearer") (strI "auth"));
             Star ws; assign; Star ws; opt (Chr quote);
             Group 1 (atLeast 20 (Chr tokenChars)); opt (Chr quote) ],
     token);
    (* GitHub tokens, flag g *)
    (seqOf [ str "ghp_"; rep 36 (Chr alnum) ], token);
    (seqOf [ str "gho_"; rep 36 (Chr alnum) ], token);
    (* Slack tokens, flag g *)
    (seqOf [ str "xox"; Chr (oneOf (lit "baprs")); str "-";
             range 10 13 (Chr digit); str "-"; atLeast 1 (Chr slackChars) ],
     token);
    (* connection strings, flags gi *)
    (seqOf [ Alt (strI "mongodb") (Alt (strI "postgres") (Alt (strI "mysql") (strI "redis")));
             str "://"; atLeast 1 (Chr urlChars); str ":";
             atLeast 1 (Chr urlChars); str "@"; atLeast 1 (Chr urlChars) ],
     connection_string);
    (* generic secrets, flags gi *)
    (seqOf [ Alt (strI "secret") (strI "private");
             Star ws; assign; Star ws; Chr quote;
             Group 1 (atLeast 16 (Chr notQuote)); opt (Chr quote) ],
     api_key) ].

(** [path.basename(p)] (POSIX): the last segment, trailing slashes dropped. *)
Fixpoint takeWhile (p : char -> bool) (s : jsstring) : jsstring :=
  match s with
  | [] => []
  | c :: s' => if p c then c :: takeWhile p s' else []
  end.

Definition isSlash (c : char) : bool := N.eqb c 47.

Definition basename (p : jsstring) : jsstring :=
  rev (takeWhile (fun c => negb (isSlash c)) (dropWhile isSlash (rev p))).

Definition isDangerousFile (filePath : jsstring) : bool :=
  let fileName := toLowerCase (basename filePath) in
  if ContextBuilder.member fileName DANGEROUS_FILES then true
  else if startsWith fileName (lit ".env") then true
  else if endsWith fileName (lit ".pem") then true
  else if endsWith fileName (lit ".key") then true
  else if includes fileName (lit "credentials") then true
  else if includes fileName (lit "secrets") then true
  else false.

Definition isExampleFile (file content : jsstring) : bool :=
  let lowerFile := toLowerCase file in
  if includes lowerFile (lit ".example") then true
  else if includes lowerFile (lit ".template") then true
  else if includes lowerFile (lit ".sample") then true
  else if endsWith lowerFile (lit ".md") then true
  else if includes content (lit "your-api-key-here") then true
  else if includes content (lit "YOUR_API_KEY") then true
  else if includes content (lit "xxx") then true
  else false.

Definition isInComment (line _match : jsstring) : bool :=
  let trimmed := trim line in
  if startsWith trimmed (lit "//") then true
  else if startsWith trimmed (lit "#") then true
  else if startsWith trimmed (lit "*") then true
  else if startsWith trimmed (lit "/*") then true
  else false.

Definition placeholders : list jsstring :=
  [ lit "your-"; lit "xxx"; lit "placeholder"; lit "example"; lit "changeme";
    lit "replace-"; lit "todo"; lit "fixme"; lit "<your"; lit "${"; lit "{{" ].

Definition isPlaceholder (value : jsstring) : bool :=
  let lower := toLowerCase value in
  existsb (fun p => includes lower p) placeholders.

Definition MASKED : jsstring := lit "***MASKED***".

(** The two patterns of [maskSecret]: a quoted run of 16 or more
    [maskChars] closed by the same quote, and [:] or [=], white space and a
    run of 20 or more [maskChars]. *)
Definition quotedSecret : regex :=
  seqOf [ Group 1 (Chr quote); atLeast 16 (Chr maskChars); Backref 1 ].
Definition assignedSecret : regex :=
  seqOf [ assign; Star ws; atLeast 20 (Chr maskChars) ].

Definition group1 (c : captures) : jsstring :=
  match capture 1 c with Some t => t | None => [] end.

Definition maskSecret (line : jsstring) : jsstring :=
  replaceAll assignedSecret (fun _ => lit ": " ++ MASKED)
    (replaceAll quotedSecret (fun c => group1 c ++ MASKED ++ group1 c) line).

(** [content.substring(0, index).split('\n').length] *)
Definition lineNumberAt (content : jsstring) (index : nat) : nat :=
  length (splitOn 10%N (substring content 0 (Z.of_nat index))).

Definition scanContent (file content : jsstring) : list SecretIssue :=
  let lines := splitOn 10%N content in
  if isExampleFile file content then []
  else
    flat_map
      (fun pt : regex * SecretType =>
         flat_map
           (fun m : nat * jsstring =>
              let lineNum := lineNumberAt content (fst m) in
              let line := nth (lineNum - 1) lines [] in
              if isInComment line (snd m) then []
              else if isPlaceholder (snd m) then []
              else [ {| file := file; line := lineNum; type := snd pt;
                        snippet := maskSecret (trim line) |} ])
           (execAll (fst pt) content))
      SECRET_PATTERNS.

Definition sensitiveFileIssue (file : jsstring) : SecretIssue :=
  {| file := file; line := 0; type := sensitive_file;
     snippet := lit "File " ++ [34%N] ++ basename file ++ [34%N]
                ++ lit " should never be uploaded" |}.

(** The issues of one file of the loop of [scanForSecrets]. *)
Definition scanFile (repo : Repo) (file : jsstring) : list SecretIssue :=
  if isDangerousFile file then [sensitiveFileIssue file]
  else
    match readFile repo file with
    | Some f => scanContent file (fileContent f)
    | None => []
    end.

Definition scanForSecrets (repo : Repo) (files : list jsstring)
  : SecretScanResult :=
  let issues := fold_left (fun acc f => acc ++ scanFile repo f) files [] in
  {| safe := match issues with [] => true | _ => false end;
     issues := issues |}.

End Scanner.

(** ** The region contract in the words of the specification *)

Module RegionSpec.

Import Region.

Definition beginIdx (doc : jsstring) : Z := indexOf doc BEGIN_MARKER.
Definition endIdx (doc : jsstring) : Z := indexOf doc END_MARKER.

Definition beginLen : Z := Z.of_nat (length BEGIN_MARKER).
Definition endLen : Z := Z.of_nat (length END_MARKER).

(** The three parts of a document around its two markers: the foreign text
    before [BEGIN], the owned text strictly between the markers, and the
    foreign text after [END]. *)
Definition foreignBefore (doc : jsstring) : jsstring :=
  substring doc 0 (beginIdx doc).
Definition interior (doc : jsstring) : jsstring :=
  substring doc (beginIdx doc + beginLen) (endIdx doc).
Definition foreignAfter (doc : jsstring) : jsstring :=
  substringFrom doc (endIdx doc + endLen).

(** [out] is [doc] with the text strictly between one [BEGIN] and one [END]
    marker replaced by a newline, [body] and a newline, and everything else
    as it was. *)
Definition interiorReplaced (doc body : jsstring) (out : result jsstring) : Prop :=
  exists pre mid post,
    doc = pre ++ BEGIN_MARKER ++ mid ++ END_MARKER ++ post /\
    out = Ok (pre ++ BEGIN_MARKER ++ nl ++ body ++ nl ++ END_MARKER ++ post).

(** The round trip gives [doc] back with its region body trimmed and set
    between two newlines. *)
Definition roundTripNormalises (doc : jsstring) : Prop :=
  exists pre mid post,
    doc = pre ++ BEGIN_MARKER ++ mid ++ END_MARKER ++ post /\
    roundTrip doc =
      Ok (pre ++ BEGIN_MARKER ++ nl ++ trim mid ++ nl ++ END_MARKER ++ post).

(** When [END] comes first: the text before [END], the span from the start
    of [END] to the end of [BEGIN], and the text after [BEGIN]. *)
Definition beforeEnd (doc : jsstring) : jsstring :=
  substring doc 0 (endIdx doc).
Definition endToBegin (doc : jsstring) : jsstring :=
  substring doc (endIdx doc) (beginIdx doc + beginLen).
Definition afterBegin (doc : jsstring) : jsstring :=
  substringFrom doc (beginIdx doc + beginLen).

(** Sample documents. *)
Definition sampleDoc : jsstring :=
  lit "# AGENTS.md" ++ nl ++ nl
  ++ BEGIN_MARKER ++ nl
  ++ lit "## GPT Insights (maintained by Auracoil)" ++ nl ++ nl
  ++ lit "Some existing insights." ++ nl
  ++ END_MARKER ++ nl ++ nl
  ++ lit "## Architecture" ++ nl.

Definition normalisedDoc : jsstring :=
  lit "# AGENTS.md" ++ nl
  ++ BEGIN_MARKER ++ nl ++ lit "Insights." ++ nl ++ END_MARKER ++ nl.

Definition plainDoc : jsstring := lit "# Just a doc".

Definition onlyBeginDoc : jsstring :=
  lit "# Notes" ++ nl ++ BEGIN_MARKER ++ nl ++ lit "unfinished".

Definition swappedDoc : jsstring :=
  lit "intro" ++ nl ++ END_MARKER ++ nl ++ lit "middle" ++ nl
  ++ BEGIN_MARKER ++ nl ++ lit "outro".

Definition twoBeginsDoc : jsstring :=
  BEGIN_MARKER ++ nl ++ lit "a" ++ nl ++ END_MARKER ++ nl
  ++ BEGIN_MARKER ++ nl ++ lit "b" ++ nl ++ END_MARKER ++ nl.

End RegionSpec.

(** ** The bundle contract in the words of the specification *)

Module BundleSpec.

Import ContextBuilder.







Definition categories : list Category :=
  [Manifests; Entrypoints; Configs; Docs; Samples].

(** The paths that the builder may offer to a bucket. *)
Definition candidates (repo : Repo) (index : RepoIndex) (category : Category)
  : list jsstring :=
  match category with
  | Manifests => List.map path (idxManifests index)
  | Entrypoints => idxEntrypoints index
  | Configs => idxConfigs index
  | Docs => idxDocs index
  | Samples => flat_map (fun pattern => firstn 2 (glob repo pattern))
                        architecturalPatterns
  end.

(** The buckets of a bundle that hold a path. *)
Definition bucketsHolding (b : AnalysisBundle) (p : jsstring) : list Category :=
  filter (fun c => member p (bucket c b)) categories.

Definition categoryEqb (c c' : Category) : bool :=
  match c, c' with
  | Manifests, Manifests | Entrypoints, Entrypoints | Configs, Configs
  | Docs, Docs | Samples, Samples => true
  | _, _ => false
  end.

(** No path is offered by two different categories of the index. *)
Definition categoriesDisjoint (repo : Repo) (index : RepoIndex) : bool :=
  forallb
    (fun c =>
       forallb
         (fun c' =>
            categoryEqb c c'
            || forallb (fun p => negb (member p (candidates repo index c')))
                       (candidates repo index c))
         categories)
    categories.

(** Every bucket of the bundle under construction holds only paths that
    its category offers. *)
Definition fromCandidates (repo : Repo) (index : RepoIndex) (st : Builder)
  : Prop :=
  forall c p, In p (bucket c (bundle st)) -> In p (candidates repo index c).

(** The content hashes recorded when files, given as path and content, are
    added in this order: [contentHashes.set(path, hashContent(content))]. *)
Definition recordAll (adds : list (jsstring * jsstring)) : JsMap.t :=
  fold_left (fun m pc => JsMap.set (fst pc) (hashContent (snd pc)) m) adds [].

Definition withHashes (m : JsMap.t) : AnalysisBundle :=
  {| manifests := []; entrypoints := []; configs := []; docs := [];
     samples := JsMap.keys m; contentHashes := m; totalTokenEstimate := 0 |}.

(** Every path has one content. *)
Definition functional (adds : list (jsstring * jsstring)) : Prop :=
  forall p c c', In (p, c) adds -> In (p, c') adds -> c = c'.

(** The same files, one of them at least with another content. *)
Definition contentChanged (adds adds' : list (jsstring * jsstring)) : Prop :=
  List.map fst adds = List.map fst adds' /\ adds <> adds'.

(** The string that [getBundleHash] hashes. *)
Definition bundleHashInput (b : AnalysisBundle) : jsstring :=
  join (lit ":") (sort (JsMap.values (contentHashes b))).

(** Sample repositories. *)
Definition fileOf (content : jsstring) : File :=
  {| fileSize := N.of_nat (length content); fileContent := content |}.

Definition pythonRepo : Repo :=
  {| readFile := fun p =>
       if Js.eqb p (lit "requirements.txt") then Some (fileOf (lit "flask==3.0"))
       else if Js.eqb p (lit "main.py") then Some (fileOf (lit "print(1)"))
       else None;
     glob := fun _ => [] |}.

Definition pythonIndex : RepoIndex :=
  {| idxEntrypoints := [lit "main.py"];
     idxManifests :=
       [ {| mtype := python; path := lit "requirements.txt";
            name := None; dependencies := None |} ];
     idxConfigs := [];
     idxDocs := [lit "requirements.txt"] |}.

Definition nodeRepo : Repo :=
  {| readFile := fun p =>
       if Js.eqb p (lit "package.json") then Some (fileOf (lit "{}"))
       else if Js.eqb p (lit "README.md") then Some (fileOf (lit "# Readme"))
       else if Js.eqb p (lit "src/index.ts") then Some (fileOf (lit "export {}"))
       else if Js.eqb p (lit "src/utils/a.ts") then Some (fileOf (lit "let a"))
       else None;
     glob := fun pattern =>
       if Js.eqb pattern (lit "**/utils/**/*.{ts,js}") then [lit "src/utils/a.ts"]
       else [] |}.

Definition nodeIndex : RepoIndex :=
  {| idxEntrypoints := [lit "src/index.ts"];
     idxManifests :=
       [ {| mtype := npm; path := lit "package.json";
            name := None; dependencies := Some [] |} ];
     idxConfigs := [];
     idxDocs := [lit "README.md"] |}.

Definition tinyConfig : ContextConfig :=
  {| maxFiles := whole 5; maxTotalSize := whole 4; maxTokens := whole 100;
     includePatterns := []; excludePatterns := [] |}.

(** Configurations that set one ceiling: four bytes with five files, a
    negative number of bytes, two files and a half. *)
Definition onlyCeilings (files bytes : option number) : PartialConfig :=
  {| optMaxFiles := files; optMaxTotalSize := bytes; optMaxTokens := None;
     optIncludePatterns := None; optExcludePatterns := None |}.

Definition freshBuilder : Builder :=
  {| bundle := emptyBundle; currentSize := 0; currentTokens := 0 |}.

Definition addsBefore : list (jsstring * jsstring) :=
  [(lit "a.ts", lit "export const a = 1"); (lit "b.ts", lit "export const b = 2")].
Definition addsSwapped : list (jsstring * jsstring) :=
  [(lit "a.ts", lit "export const b = 2"); (lit "b.ts", lit "export const a = 1")].
Definition addsReordered : list (jsstring * jsstring) :=
  [(lit "b.ts", lit "export const b = 2"); (lit "a.ts", lit "export const a = 1")].
Definition addsEdited : list (jsstring * jsstring) :=
  [(lit "a.ts", lit "export const a = 3"); (lit "b.ts", lit "export const b = 2")].

End BundleSpec.

(** ** The scanner contract in the words of the specification *)

Module ScannerSpec.

Import Scanner.

(** The name contains [.example], [.template] or [.sample], or ends in
    [.md]. *)
Definition exampleNamed (file : jsstring) : bool :=
  includes file (lit ".example") || includes file (lit ".template")
  || includes file (lit ".sample") || endsWith file (lit ".md").

Definition doubleQuote : jsstring := [34%N].

(** Sample repositories. *)
Definition passwordLine : jsstring :=
  lit "const dbPassword = " ++ doubleQuote ++ lit "Tr0ub4dor&3-horse"
  ++ doubleQuote ++ lit ";".

Definition leakRepo : Repo :=
  {| readFile := fun p =>
       if Js.eqb p (lit "src/config.ts") then
         Some {| fileSize := N.of_nat (length passwordLine);
                 fileContent := lit "// settings" ++ nl ++ lit "  " ++ passwordLine ++ nl |}
       else if Js.eqb p (lit "docs/setup.md") then
         Some {| fileSize := N.of_nat (length passwordLine);
                 fileContent := passwordLine |}
       else if Js.eqb p (lit ".env.example") then
         Some {| fileSize := N.of_nat (length passwordLine);
                 fileContent := passwordLine |}
       else None;
     glob := fun _ => [] |}.

End ScannerSpec.

(** ** Callers: the apply, review, generate and update commands *)

Module Commands.

Import Region ContextBuilder Scanner.

(** [commands/apply.ts]: [agentsMd = ensureRegion(agentsMd)] and then
    [replaceRegion(agentsMd, reviewContent)]. *)
Definition applyReview (agentsMd reviewContent : jsstring) : result jsstring :=
  replaceRegion (ensureRegion agentsMd) reviewContent.

(** [commands/review.ts]: [existingRegion || '(No Auracoil region yet ...)'],
    the dash of the literal being U+2014. *)
Definition noRegionYet : jsstring :=
  lit "(No Auracoil region yet " ++ [8212%N] ++ lit " first review)".

Definition regionContent (agentsMd : jsstring) : jsstring :=
  match extractRegion agentsMd with
  | Some existingRegion =>
      if truthy existingRegion then existingRegion else noRegionYet
  | None => noRegionYet
  end.

(** [scanResult.issues.some(i => i.file === f)] *)
Definition flagged (found : list SecretIssue) (f : jsstring) : bool :=
  existsb (fun i => Js.eqb (file i) f) found.

(** The files that the review and generate commands keep after the scan:
    all of them when the scan is safe, else those that no issue names. *)
Definition safeFiles (repo : Repo) (files : list jsstring) : list jsstring :=
  let scanResult := scanForSecrets repo files in
  if safe scanResult then files
  else filter (fun f => negb (flagged (issues scanResult) f)) files.

(** [Set.add] on a set of strings kept in insertion order. *)
Definition setAdd (x : jsstring) (s : list jsstring) : list jsstring :=
  if member x s then s else s ++ [x].

Definition anyIncludes (s : jsstring) (needles : list jsstring) : bool :=
  existsb (includes s) needles.
Definition anyEndsWith (s : jsstring) (suffixes : list jsstring) : bool :=
  existsb (endsWith s) suffixes.

(** The body of the loop of [determineSectionsToUpdate] for one file. *)
Definition sectionsFor (changed : jsstring) (sections : list jsstring)
  : list jsstring :=
  let lower := toLowerCase changed in
  let s1 :=
    if anyIncludes lower [lit "src/"; lit "lib/"]
       || anyEndsWith lower [lit "index.ts"; lit "index.js"]
    then setAdd (lit "architecture") sections else sections in
  let s2 :=
    if anyIncludes lower [lit "config"; lit "tsconfig"; lit "eslint"; lit "prettier"]
    then setAdd (lit "conventions") s1 else s1 in
  let s3 :=
    if anyIncludes lower [lit "test"; lit "spec"; lit "__tests__"]
    then setAdd (lit "testing") s2 else s2 in
  let s4 :=
    if anyIncludes lower [lit "docker"; lit "deploy"; lit ".github/workflows";
                          lit "vercel"]
    then setAdd (lit "deployment") s3 else s3 in
  if anyIncludes lower [lit "package.json"; lit "cargo.toml";
                        lit "requirements.txt"; lit "gemfile"]
  then setAdd (lit "overview") (setAdd (lit "quickstart") s4) else s4.

(** [commands/update.ts] *)
Definition determineSectionsToUpdate (changedFiles : list jsstring)
  : list jsstring :=
  setAdd (lit "gotchas") (fold_left (fun s f => sectionsFor f s) changedFiles []).

Definition sectionNames : list jsstring :=
  [ lit "architecture"; lit "conventions"; lit "testing"; lit "deployment";
    lit "quickstart"; lit "overview"; lit "gotchas" ].

End Commands.

(** ** What the extra properties speak of *)

(** ** Sections of a generated document ([generator/gpt-analyzer.ts]) *)

Module Sections.

Definition startMarker (sectionName : jsstring) : jsstring :=
  lit "<!-- auracoil:section:" ++ sectionName ++ lit " -->".
Definition endMarker (sectionName : jsstring) : jsstring :=
  lit "<!-- auracoil:end:" ++ sectionName ++ lit " -->".

Definition extractSection (content sectionName : jsstring) : option jsstring :=
  let startIdx := indexOf content (startMarker sectionName) in
  let endIdx := indexOf content (endMarker sectionName) in
  if (startIdx =? -1)%Z || (endIdx =? -1)%Z then None
  else
    Some (trim (substring content
                  (startIdx + Z.of_nat (length (startMarker sectionName)))
                  endIdx)).

Definition replaceSection (content sectionName newContent : jsstring)
  : jsstring :=
  let startIdx := indexOf content (startMarker sectionName) in
  let endIdx := indexOf content (endMarker sectionName) in
  if (startIdx =? -1)%Z || (endIdx =? -1)%Z then
    (* the section does not exist: append *)
    content ++ (nl ++ startMarker sectionName ++ nl ++ newContent ++ nl
                ++ endMarker sectionName ++ nl)
  else
    substring content 0 (startIdx + Z.of_nat (length (startMarker sectionName)))
    ++ nl ++ newContent ++ nl ++ substringFrom content endIdx.

End Sections.

Module ExtraSpec.

Import Region ContextBuilder Scanner BundleSpec.

(** The text of the default region between its markers. *)
Definition defaultInsights : jsstring :=
  lit "## GPT Insights (maintained by Auracoil)" ++ nl ++ nl
  ++ lit "_No reviews yet. Run `/auracoil` to get GPT 5.2 Pro's analysis._".

(** The recorded content hashes cover the files of the bundle, no more and
    no less, each path once, each with the hash of the content read. *)
Definition hashesCover (repo : Repo) (b : AnalysisBundle) : Prop :=
  NoDup (JsMap.keys (contentHashes b))
  /\ (forall p, In p (getBundleFiles b) <-> In p (JsMap.keys (contentHashes b)))
  /\ (forall p h, In (p, h) (contentHashes b) ->
        exists f, readFile repo p = Some f /\ h = hashContent (fileContent f)).

(** A lower-case hexadecimal digit. *)
Definition isLowerHex (c : char) : bool :=
  ((48 <=? c) && (c <=? 57) || (97 <=? c) && (c <=? 102))%N.

Definition isNil {A} (l : list A) : bool :=
  match l with [] => true | _ => false end.

(** A code unit that can start a match of one of the two patterns of
    [maskSecret]: a quote, a colon or an equals sign. *)
Definition maskTrigger (c : char) : bool :=
  Regex.quote c || Regex.oneOf (lit ":=") c.

Definition noSlash (name : jsstring) : bool :=
  forallb (fun c => negb (isSlash c)) name.

(** The set of sections while [determineSectionsToUpdate] loops over the
    changed files: no repeat, names of known sections only, [gotchas] not
    yet added, [overview] and [quickstart] together. *)
Definition sectionSet (s : list jsstring) : Prop :=
  NoDup s
  /\ incl s Commands.sectionNames
  /\ ~ In (lit "gotchas") s
  /\ (In (lit "overview") s -> In (lit "quickstart") s)
  /\ (In (lit "quickstart") s -> In (lit "overview") s).

(** What one priority name adds to a bucket: the document found for it,
    or nothing. *)
Definition picked (o : option jsstring) : list jsstring :=
  match o with Some d => [d] | None => [] end.

(** No match of a pattern that opens with the class [p] starts at [s]. *)
Definition headFails (p : char -> bool) (s : jsstring) : Prop :=
  match s with x :: _ => p x = false | [] => True end.

End ExtraSpec.

(** * Checks against the test suite of the repository *)

Section Tests.

Import Region RegionSpec ContextBuilder Scanner.

Example sha256_abc :
  Sha256.sha256hex (lit "abc") =
  lit "ba7816bf8f01cfea414140de5dae2223b00361a396177a9cb410ff61f20015ad".
Proof. vm_compute. reflexivity. Qed.

Example hashContent_is_16_hex :
  hashContent (lit "test") = lit "9f86d081884c7d65".
Proof. vm_compute. reflexivity. Qed.

Example hashContent_differs :
  Js.eqb (hashContent (lit "content A")) (hashContent (lit "content B")) = false.
Proof. vm_compute. reflexivity. Qed.

Example extractRegion_sample :
  extractRegion sampleDoc =
  Some (lit "## GPT Insights (maintained by Auracoil)" ++ nl ++ nl
        ++ lit "Some existing insights.").
Proof. vm_compute. reflexivity. Qed.

Example extractRegion_no_markers : extractRegion plainDoc = None.
Proof. vm_compute. reflexivity. Qed.

Example extractRegion_only_begin : extractRegion onlyBeginDoc = None.
Proof. vm_compute. reflexivity. Qed.

Example ensureRegion_adds_markers :
  includes (ensureRegion plainDoc) BEGIN_MARKER = true
  /\ includes (ensureRegion plainDoc) END_MARKER = true
  /\ startsWith (ensureRegion plainDoc) plainDoc = true.
Proof. vm_compute. repeat split; reflexivity. Qed.

Example isDangerousFile_flags :
  List.map isDangerousFile
    [ lit ".env"; lit ".env.local"; lit ".env.production"; lit "id_rsa";
      lit "server.key"; lit "cert.pem"; lit "credentials.json";
      lit "secrets.yaml"; lit ".env.example" ]
  = [true; true; true; true; true; true; true; true; true].
Proof. vm_compute. reflexivity. Qed.

Example isDangerousFile_allows :
  List.map isDangerousFile [lit "package.json"; lit "index.ts"; lit "README.md"]
  = [false; false; false].
Proof. vm_compute. reflexivity. Qed.

Example maskSecret_masks_long_quoted_value :
  maskSecret (lit "const apiKey = 'abcdefghijklmnopqrstuvwxyz012345';") =
  lit "const apiKey = '***MASKED***';".
Proof. vm_compute. reflexivity. Qed.

Example maskSecret_masks_assigned_value :
  maskSecret (lit "token: abcdefghijklmnopqrstuvwxyz012345") =
  lit "token: ***MASKED***".
Proof. vm_compute. reflexivity. Qed.

End Tests.

(** * Checks of the built-ins *)

Section BuiltIns.

Import ContextBuilder Scanner.

(** The Kelvin sign lower-cases to [k], the dotted capital I to [i] and a
    combining dot. *)
Example toLowerCase_special_letters :
  toLowerCase (lit "SERVER." ++ [8490%N] ++ lit "EY") = lit "server.key"
  /\ toLowerCase [304%N] = [105%N; 775%N]
  /\ isDangerousFile (lit "server." ++ [8490%N] ++ lit "ey") = true.
Proof. vm_compute. repeat split; reflexivity. Qed.

(** [0 > -1], not [2 >= 2.5], and no comparison with [NaN] holds. *)
Example number_comparisons :
  gtNum 0 (whole (-1)) = true
  /\ geNum 2 (Finite (5 # 2)) = false
  /\ geNum 3 (Finite (5 # 2)) = true
  /\ gtNum 7 NaN = false /\ geNum 7 NaN = false /\ leNum 7 NaN = false
  /\ nonPositive (minusNum (Finite (5 # 2)) 3) = true.
Proof. vm_compute. repeat split; reflexivity. Qed.

End BuiltIns.

(** * Properties *)

(** ** Strings *)

Section JsFacts.

Lemma startsWith_app (m post : jsstring) : startsWith (m ++ post) m = true.
Proof.
  induction m as [|a m IH]; simpl; [reflexivity|].
  now rewrite N.eqb_refl, IH.
Qed.

Lemma startsWith_inv (s m : jsstring) :
  startsWith s m = true -> s = m ++ skipn (length m) s.
Proof.
  revert s; induction m as [|a m IH]; intros s H; simpl in *; [reflexivity|].
  destruct s as [|b s]; [discriminate|].
  apply andb_true_iff in H as [Hab Hs].
  apply N.eqb_eq in Hab; subst b.
  simpl. f_equal. now apply IH.
Qed.

Lemma startsWith_length (s m : jsstring) :
  startsWith s m = true -> (length m <= length s)%nat.
Proof.
  intros H. apply startsWith_inv in H.
  apply (f_equal (@length _)) in H. rewrite length_app in H. lia.
Qed.

Lemma startsWith_nth (s m : jsstring) (k : nat) (d : char) :
  startsWith s m = true -> (k < length m)%nat -> nth k s d = nth k m d.
Proof.
  intros H Hk. rewrite (startsWith_inv _ _ H).
  now rewrite app_nth1.
Qed.

Lemma find_Some_startsWith (s m : jsstring) (i : nat) :
  find s m = Some i -> startsWith (skipn i s) m = true.
Proof.
  revert i; induction s as [|c s IH]; intros i; simpl.
  - destruct (startsWith [] m) eqn:E; [|discriminate].
    intros [= <-]. exact E.
  - destruct (startsWith (c :: s) m) eqn:E.
    + intros [= <-]. exact E.
    + destruct (find s m) as [j|] eqn:F; simpl; [|discriminate].
      intros [= <-]. simpl. now apply IH.
Qed.

Lemma find_Some_bound (s m : jsstring) (i : nat) :
  find s m = Some i -> (i + length m <= length s)%nat.
Proof.
  revert i; induction s as [|c s IH]; intros i; simpl.
  - destruct (startsWith [] m) eqn:E; [|discriminate].
    intros [= <-]. apply startsWith_length in E. simpl in *. lia.
  - destruct (startsWith (c :: s) m) eqn:E.
    + intros [= <-]. apply startsWith_length in E. simpl in *. lia.
    + destruct (find s m) as [j|] eqn:F; simpl; [|discriminate].
      intros [= <-]. specialize (IH j eq_refl). lia.
Qed.

Lemma find_Some_split (s m : jsstring) (i : nat) :
  find s m = Some i ->
  s = firstn i s ++ m ++ skipn (i + length m) s.
Proof.
  intros H. apply find_Some_startsWith in H.
  apply startsWith_inv in H.
  rewrite skipn_skipn in H.
  rewrite <- (firstn_skipn i s) at 1.
  rewrite H at 1. now rewrite Nat.add_comm.
Qed.

(** [find] answers the first position: the pattern starts at no earlier one. *)
Lemma find_Some_first (s m : jsstring) (i j : nat) :
  find s m = Some i -> (j < i)%nat -> startsWith (skipn j s) m = false.
Proof.
  revert i j; induction s as [|c s IH]; intros i j; simpl.
  - destruct (startsWith [] m); [|discriminate]. intros [= <-]. lia.
  - destruct (startsWith (c :: s) m) eqn:E; [intros [= <-]; lia|].
    destruct (find s m) as [k|] eqn:F; simpl; [|discriminate].
    intros [= <-] Hj. destruct j as [|j]; [exact E|].
    simpl. apply (IH k); [reflexivity|lia].
Qed.

Lemma find_occurs (pre m post : jsstring) :
  exists i, find (pre ++ m ++ post) m = Some i /\ (i <= length pre)%nat.
Proof.
  induction pre as [|c pre IH]; simpl.
  - exists 0%nat. split; [|lia].
    pose proof (startsWith_app m post) as E.
    destruct (m ++ post); simpl in *; now rewrite E.
  - destruct IH as (i & Hi & Hle).
    destruct (startsWith (c :: pre ++ m ++ post) m).
    + exists 0%nat. split; [reflexivity|lia].
    + exists (S i). rewrite Hi. split; [reflexivity|lia].
Qed.

Lemma find_None_iff (s m : jsstring) : find s m = None <-> ~ occurs m s.
Proof.
  split.
  - intros H (pre & post & ->).
    destruct (find_occurs pre m post) as (i & Hi & _). congruence.
  - intros H. destruct (find s m) as [i|] eqn:F; [|reflexivity].
    exfalso. apply H. exists (firstn i s), (skipn (i + length m) s).
    now apply find_Some_split.
Qed.

Lemma indexOf_absent (s m : jsstring) :
  indexOf s m = (-1)%Z <-> ~ occurs m s.
Proof.
  rewrite <- find_None_iff. unfold indexOf.
  destruct (find s m); split; intros H; try reflexivity; try discriminate; lia.
Qed.

Lemma indexOf_nonneg (s m : jsstring) (i : Z) :
  indexOf s m = i -> (0 <= i)%Z -> find s m = Some (Z.to_nat i).
Proof.
  unfold indexOf. destruct (find s m) as [j|]; intros <- H.
  - now rewrite Nat2Z.id.
  - lia.
Qed.

Lemma includes_occurs (s m : jsstring) : includes s m = true <-> occurs m s.
Proof.
  unfold includes. destruct (find s m) as [i|] eqn:F.
  - split; [intros _|reflexivity].
    exists (firstn i s), (skipn (i + length m) s). now apply find_Some_split.
  - apply find_None_iff in F. split; [discriminate|contradiction].
Qed.

Lemma substring_inside (s : jsstring) (a b : nat) :
  (a <= b <= length s)%nat ->
  substring s (Z.of_nat a) (Z.of_nat b) = firstn (b - a) (skipn a s).
Proof.
  intros H. unfold substring.
  rewrite (Z.max_l (Z.of_nat a) 0), (Z.max_l (Z.of_nat b) 0) by lia.
  rewrite (Z.min_l (Z.of_nat a)), (Z.min_l (Z.of_nat b)) by lia.
  rewrite Z.min_l, Z.max_r by lia.
  rewrite <- Nat2Z.inj_sub, !Nat2Z.id by lia. reflexivity.
Qed.

Lemma substring_swapped (s : jsstring) (a b : nat) :
  (b <= a <= length s)%nat ->
  substring s (Z.of_nat a) (Z.of_nat b) = firstn (a - b) (skipn b s).
Proof.
  intros H. unfold substring.
  rewrite (Z.max_l (Z.of_nat a) 0), (Z.max_l (Z.of_nat b) 0) by lia.
  rewrite (Z.min_l (Z.of_nat a)), (Z.min_l (Z.of_nat b)) by lia.
  rewrite Z.min_r, Z.max_l by lia.
  rewrite <- Nat2Z.inj_sub, !Nat2Z.id by lia. reflexivity.
Qed.

Lemma substring_prefix (s : jsstring) (b : nat) :
  (b <= length s)%nat -> substring s 0 (Z.of_nat b) = firstn b s.
Proof.
  intros H. change 0%Z with (Z.of_nat 0).
  rewrite substring_inside by lia. now rewrite Nat.sub_0_r.
Qed.

Lemma substringFrom_suffix (s : jsstring) (a : nat) :
  (a <= length s)%nat -> substringFrom s (Z.of_nat a) = skipn a s.
Proof.
  intros H. unfold substringFrom. rewrite substring_inside by lia.
  apply firstn_all2. rewrite length_skipn. lia.
Qed.

Lemma dropWhile_length (p : char -> bool) (s : jsstring) :
  (length (dropWhile p s) <= length s)%nat.
Proof. induction s as [|c s IH]; simpl; [lia|]. destruct (p c); simpl; lia. Qed.

Lemma dropWhile_idem (p : char -> bool) (s : jsstring) :
  dropWhile p (dropWhile p s) = dropWhile p s.
Proof.
  induction s as [|c s IH]; simpl; [reflexivity|].
  destruct (p c) eqn:E; [exact IH|]. simpl. now rewrite E.
Qed.

Lemma dropWhile_app_keep (p : char -> bool) (s t : jsstring) :
  s <> [] -> dropWhile p s = s -> dropWhile p (s ++ t) = s ++ t.
Proof.
  destruct s as [|c s]; [congruence|]. intros _. simpl.
  destruct (p c); [|reflexivity].
  intros H. pose proof (dropWhile_length p s) as L.
  rewrite H in L. simpl in L. lia.
Qed.

(** Stripping at the front keeps a string free of trailing white space. *)
Lemma dropWhile_keeps_end (p : char -> bool) (s : jsstring) :
  dropWhile p (rev s) = rev s ->
  dropWhile p (rev (dropWhile p s)) = rev (dropWhile p s).
Proof.
  induction s as [|c s IH]; simpl; [reflexivity|].
  intros H. destruct (p c) eqn:E; [|exact H].
  apply IH. destruct (rev s) as [|d r] eqn:R; [reflexivity|].
  simpl in H |- *. destruct (p d); [|reflexivity].
  pose proof (dropWhile_length p (r ++ [c])) as L.
  rewrite H in L. simpl in L. lia.
Qed.

Lemma trim_idem (s : jsstring) : trim (trim s) = trim s.
Proof.
  unfold trim, trimStart, trimEnd.
  set (v := rev (dropWhile isWhiteSpace (rev s))).
  assert (Hv : dropWhile isWhiteSpace (rev v) = rev v).
  { unfold v. rewrite rev_involutive. apply dropWhile_idem. }
  rewrite (dropWhile_keeps_end _ _ Hv), rev_involutive.
  apply dropWhile_idem.
Qed.

Lemma trim_length (s : jsstring) : (length (trim s) <= length s)%nat.
Proof.
  unfold trim, trimStart, trimEnd.
  etransitivity; [apply dropWhile_length|].
  rewrite length_rev.
  etransitivity; [apply dropWhile_length|].
  now rewrite length_rev.
Qed.

End JsFacts.

(** ** Region parser *)

Section RegionFacts.

Import Region RegionSpec.

Lemma nth_skipn_0 (k : nat) (l : jsstring) (d : char) :
  nth 0 (skipn k l) d = nth k l d.
Proof.
  revert l; induction k as [|k IH]; intros [|x l]; simpl; try reflexivity.
  apply IH.
Qed.

Lemma firstn_add (a c : nat) (l : jsstring) :
  firstn (a + c) l = firstn a l ++ firstn c (skipn a l).
Proof.
  revert l; induction a as [|a IH]; intros l; simpl; [reflexivity|].
  destruct l as [|x l]; simpl.
  - now rewrite firstn_nil.
  - now rewrite IH.
Qed.

Lemma firstn_exact (x y : jsstring) : firstn (length x) (x ++ y) = x.
Proof. induction x as [|a x IH]; simpl; [reflexivity|now rewrite IH]. Qed.

(** No code unit of [BEGIN] after the first is the [<] that opens [END]:
    an [END] cannot start inside a [BEGIN]. *)
Lemma begin_no_inner_start :
  forallb (fun k => negb (N.eqb (nth k BEGIN_MARKER 0%N) (nth 0 END_MARKER 0%N)))
          (seq 1 (length BEGIN_MARKER - 1)) = true.
Proof. vm_compute. reflexivity. Qed.

Lemma markers_do_not_overlap (doc : jsstring) (b e : nat) :
  find doc BEGIN_MARKER = Some b -> find doc END_MARKER = Some e ->
  (b < e)%nat -> (b + length BEGIN_MARKER <= e)%nat.
Proof.
  intros Hb He Hlt.
  destruct (le_lt_dec (b + length BEGIN_MARKER) e) as [|Hin]; [assumption|].
  exfalso.
  apply find_Some_startsWith in Hb, He.
  pose proof (startsWith_nth _ _ (e - b) 0%N Hb ltac:(lia)) as Nb.
  pose proof (startsWith_nth _ _ 0 0%N He ltac:(vm_compute; lia)) as Ne.
  rewrite <- nth_skipn_0, skipn_skipn in Nb.
  replace (e - b + b)%nat with e in Nb by lia.
  rewrite Ne in Nb.
  pose proof begin_no_inner_start as F.
  rewrite forallb_forall in F.
  specialize (F (e - b)%nat). rewrite in_seq in F.
  specialize (F ltac:(lia)).
  rewrite <- Nb, N.eqb_refl in F. discriminate.
Qed.

Lemma indices_found (doc : jsstring) :
  forall m i, indexOf doc m = i -> (0 <= i)%Z ->
  find doc m = Some (Z.to_nat i) /\ i = Z.of_nat (Z.to_nat i).
Proof.
  intros m i H Hi. split; [now apply indexOf_nonneg|lia].
Qed.

Lemma replaceRegion_at (doc newContent : jsstring) (b e : nat) :
  find doc BEGIN_MARKER = Some b -> find doc END_MARKER = Some e ->
  replaceRegion doc newContent =
    Ok (firstn (b + length BEGIN_MARKER) doc ++ nl ++ trim newContent ++ nl
        ++ skipn e doc).
Proof.
  intros Hb He. unfold replaceRegion, indexOf. rewrite Hb, He.
  destruct (Z.eqb_spec (Z.of_nat b) (-1)); [lia|].
  destruct (Z.eqb_spec (Z.of_nat e) (-1)); [lia|]. cbn [orb].
  pose proof (find_Some_bound _ _ _ Hb). pose proof (find_Some_bound _ _ _ He).
  rewrite <- Nat2Z.inj_add, substring_prefix, substringFrom_suffix by lia.
  reflexivity.
Qed.

Lemma extractRegion_at (doc : jsstring) (b e : nat) :
  find doc BEGIN_MARKER = Some b -> find doc END_MARKER = Some e ->
  extractRegion doc =
    Some (trim (substring doc (Z.of_nat (b + length BEGIN_MARKER)) (Z.of_nat e))).
Proof.
  intros Hb He. unfold extractRegion, indexOf. rewrite Hb, He.
  destruct (Z.eqb_spec (Z.of_nat b) (-1)); [lia|].
  destruct (Z.eqb_spec (Z.of_nat e) (-1)); [lia|]. cbn [orb].
  now rewrite <- Nat2Z.inj_add.
Qed.

(** A document whose first [BEGIN] precedes its first [END] splits into the
    five parts of the region contract. *)
Lemma split_at_markers (doc : jsstring) (b e : nat) :
  find doc BEGIN_MARKER = Some b -> find doc END_MARKER = Some e ->
  (b < e)%nat ->
  let L := length BEGIN_MARKER in
  doc = firstn b doc ++ BEGIN_MARKER ++ firstn (e - (b + L)) (skipn (b + L) doc)
        ++ END_MARKER ++ skipn (e + length END_MARKER) doc
  /\ firstn (b + L) doc = firstn b doc ++ BEGIN_MARKER
  /\ skipn e doc = END_MARKER ++ skipn (e + length END_MARKER) doc.
Proof.
  intros Hb He Hlt L.
  pose proof (markers_do_not_overlap _ _ _ Hb He Hlt) as Hov. fold L in Hov.
  pose proof (find_Some_startsWith _ _ _ Hb) as Sb.
  pose proof (find_Some_startsWith _ _ _ He) as Se.
  apply startsWith_inv in Sb, Se. rewrite skipn_skipn in Sb, Se. fold L in Sb.
  assert (Hfb : firstn (b + L) doc = firstn b doc ++ BEGIN_MARKER).
  { rewrite firstn_add. f_equal. rewrite Sb.
    unfold L. apply firstn_exact. }
  assert (Hse : skipn e doc = END_MARKER ++ skipn (e + length END_MARKER) doc).
  { rewrite Se at 1. now rewrite Nat.add_comm. }
  split; [|split; assumption].
  rewrite <- (firstn_skipn (b + L) doc) at 1. rewrite Hfb, <- app_assoc.
  do 2 f_equal.
  rewrite <- (firstn_skipn (e - (b + L)) (skipn (b + L) doc)) at 1.
  f_equal. rewrite skipn_skipn.
  replace (e - (b + L) + (b + L))%nat with e by lia. exact Hse.
Qed.

Lemma parts_in_order (doc : jsstring) :
  (0 <= beginIdx doc < endIdx doc)%Z ->
  exists b e,
    find doc BEGIN_MARKER = Some b /\ find doc END_MARKER = Some e /\
    (b + length BEGIN_MARKER <= e)%nat /\
    (e + length END_MARKER <= length doc)%nat /\
    foreignBefore doc = firstn b doc /\
    interior doc =
      firstn (e - (b + length BEGIN_MARKER)) (skipn (b + length BEGIN_MARKER) doc) /\
    foreignAfter doc = skipn (e + length END_MARKER) doc.
Proof.
  intros [H0 Hlt]. unfold foreignBefore, interior, foreignAfter, beginLen, endLen.
  destruct (indices_found doc BEGIN_MARKER _ eq_refl H0) as [Hb Eb].
  destruct (indices_found doc END_MARKER _ eq_refl) as [He Ee];
    [unfold beginIdx, endIdx in *; lia|].
  unfold beginIdx, endIdx in *.
  set (b := Z.to_nat (indexOf doc BEGIN_MARKER)) in *.
  set (e := Z.to_nat (indexOf doc END_MARKER)) in *.
  assert (Hbe : (b < e)%nat) by lia.
  pose proof (markers_do_not_overlap _ _ _ Hb He Hbe) as Hov.
  pose proof (find_Some_bound _ _ _ He) as Hbound.
  exists b, e. repeat split; try assumption.
  - rewrite Eb. apply substring_prefix. lia.
  - rewrite Eb, Ee, <- Nat2Z.inj_add. apply substring_inside. lia.
  - rewrite Ee, <- Nat2Z.inj_add. apply substringFrom_suffix. lia.
Qed.

End RegionFacts.

Section RegionClaims.

Import Region RegionSpec.

Lemma interiorReplaced_length (doc body out : jsstring) :
  interiorReplaced doc body (Ok out) ->
  (length out <= length doc + length body + 2)%nat.
Proof.
  intros (pre & mid & post & -> & Ho).
  apply (f_equal (fun r => match r with Ok v => length v | Throw _ => 0%nat end)) in Ho.
  cbv beta iota in Ho. rewrite Ho.
  repeat rewrite length_app. change (length nl) with 1%nat. lia.
Qed.

(** C1 (as amended).  For every document whose first [BEGIN] marker comes
    before its first [END] marker and every [newContent], the document is
    its foreign text before [BEGIN], the marker, the interior, the [END]
    marker and the foreign text after it, and [replaceRegion] returns the
    same with only the interior replaced by a newline, the trimmed
    [newContent] and a newline: both markers and the text outside them are
    kept code unit for code unit. *)
Theorem replaceRegion_preserves_outside (doc newContent : jsstring) :
  (0 <= beginIdx doc < endIdx doc)%Z ->
  doc = foreignBefore doc ++ BEGIN_MARKER ++ interior doc
        ++ END_MARKER ++ foreignAfter doc
  /\ replaceRegion doc newContent =
       Ok (foreignBefore doc ++ BEGIN_MARKER ++ nl ++ trim newContent ++ nl
           ++ END_MARKER ++ foreignAfter doc).
Proof.
  intros H.
  destruct (parts_in_order doc H) as (b & e & Hb & He & Hov & _ & -> & -> & ->).
  assert (Hlt : (b < e)%nat)
    by (change (length BEGIN_MARKER) with 23%nat in Hov; lia).
  destruct (split_at_markers doc b e Hb He Hlt) as (Hdoc & Hfb & Hse).
  split; [exact Hdoc|].
  rewrite (replaceRegion_at doc newContent b e Hb He), Hfb, Hse.
  now rewrite <- !app_assoc.
Qed.

Lemma replaceRegion_preserves_outside_witness :
  (0 <= beginIdx sampleDoc < endIdx sampleDoc)%Z
  /\ replaceRegion sampleDoc (lit "  ## New Insights ") =
       Ok (foreignBefore sampleDoc ++ BEGIN_MARKER ++ nl
           ++ trim (lit "  ## New Insights ") ++ nl
           ++ END_MARKER ++ foreignAfter sampleDoc).
Proof.
  assert (H : (0 <= beginIdx sampleDoc < endIdx sampleDoc)%Z)
    by (vm_compute; split; [discriminate|reflexivity]).
  split; [exact H|].
  exact (proj2 (replaceRegion_preserves_outside sampleDoc (lit "  ## New Insights ") H)).
Defined.

(** C1, counterexample.  [swappedDoc] contains both markers, [END] first;
    [replaceRegion] does not return it with only the text between a [BEGIN]
    and an [END] marker replaced. *)
Lemma replaceRegion_frame_fails_when_swapped :
  occurs BEGIN_MARKER swappedDoc /\ occurs END_MARKER swappedDoc /\
  ~ interiorReplaced swappedDoc (trim (lit "new"))
      (replaceRegion swappedDoc (lit "new")).
Proof.
  split; [apply includes_occurs; vm_compute; reflexivity|].
  split; [apply includes_occurs; vm_compute; reflexivity|].
  destruct (replaceRegion swappedDoc (lit "new")) as [out|msg] eqn:E.
  - intros Hir. apply interiorReplaced_length in Hir.
    vm_compute in E. injection E as <-. vm_compute in Hir. lia.
  - intros (pre & mid & post & _ & Hout). discriminate.
Qed.

(** C7.  When either marker is absent, [replaceRegion] throws the
    markers-not-found error, whatever [newContent] is: no document comes
    back, so nothing is appended or modified. *)
Theorem replaceRegion_missing_marker (doc newContent : jsstring) :
  ~ occurs BEGIN_MARKER doc \/ ~ occurs END_MARKER doc ->
  replaceRegion doc newContent = Throw markersNotFound.
Proof.
  intros H. unfold replaceRegion.
  destruct H as [H|H]; apply indexOf_absent in H; rewrite H.
  - reflexivity.
  - now rewrite orb_true_r.
Qed.

Lemma replaceRegion_missing_marker_witness :
  ~ occurs END_MARKER onlyBeginDoc
  /\ replaceRegion onlyBeginDoc (lit "text") = Throw markersNotFound.
Proof.
  assert (H : ~ occurs END_MARKER onlyBeginDoc)
    by (apply indexOf_absent; vm_compute; reflexivity).
  split; [exact H|].
  exact (replaceRegion_missing_marker onlyBeginDoc (lit "text") (or_intror H)).
Defined.

End RegionClaims.

Section RoundTripClaims.

Import Region RegionSpec.

Lemma extractRegion_in_order (doc : jsstring) :
  (0 <= beginIdx doc)%Z -> (0 <= endIdx doc)%Z ->
  extractRegion doc = Some (trim (interior doc)).
Proof.
  intros Hb He. unfold extractRegion, interior, beginIdx, endIdx, beginLen in *.
  destruct (Z.eqb_spec (indexOf doc BEGIN_MARKER) (-1)); [lia|].
  destruct (Z.eqb_spec (indexOf doc END_MARKER) (-1)); [lia|].
  reflexivity.
Qed.

(** C2 (as amended).  For every document whose first [BEGIN] marker comes
    before its first [END] marker, [extractRegion] yields the trimmed
    interior, and [replaceRegion(doc, extractRegion(doc))] is the document
    with the interior replaced by a newline, the trimmed interior and a
    newline, everything else identical; it is the document itself when the
    interior already has that form. *)
Theorem roundTrip_normalises_region (doc : jsstring) :
  (0 <= beginIdx doc < endIdx doc)%Z ->
  doc = foreignBefore doc ++ BEGIN_MARKER ++ interior doc
        ++ END_MARKER ++ foreignAfter doc
  /\ extractRegion doc = Some (trim (interior doc))
  /\ roundTrip doc =
       Ok (foreignBefore doc ++ BEGIN_MARKER ++ nl ++ trim (interior doc) ++ nl
           ++ END_MARKER ++ foreignAfter doc)
  /\ (interior doc = nl ++ trim (interior doc) ++ nl -> roundTrip doc = Ok doc).
Proof.
  intros H.
  assert (Hex : extractRegion doc = Some (trim (interior doc)))
    by (apply extractRegion_in_order; lia).
  destruct (parts_in_order doc H) as (b & e & Hb & He & Hov & _ & Epre & Emid & Epost).
  assert (Hlt : (b < e)%nat)
    by (change (length BEGIN_MARKER) with 23%nat in Hov; lia).
  destruct (split_at_markers doc b e Hb He Hlt) as (Hdoc & Hfb & Hse).
  rewrite <- Epre, <- Emid, <- Epost in Hdoc.
  assert (Hrt : roundTrip doc =
       Ok (foreignBefore doc ++ BEGIN_MARKER ++ nl ++ trim (interior doc) ++ nl
           ++ END_MARKER ++ foreignAfter doc)).
  { unfold roundTrip. rewrite Hex, (replaceRegion_at doc _ b e Hb He).
    rewrite Hfb, Hse, trim_idem, Epre, Epost. now rewrite <- !app_assoc. }
  repeat split; try assumption.
  intros Hn. rewrite Hrt. f_equal.
  set (pre := foreignBefore doc) in *.
  set (mid := interior doc) in *.
  set (post := foreignAfter doc) in *.
  transitivity (pre ++ BEGIN_MARKER ++ (nl ++ trim mid ++ nl) ++ END_MARKER ++ post).
  - now rewrite <- !app_assoc.
  - rewrite <- Hn. symmetry. exact Hdoc.
Qed.

Lemma roundTrip_normalises_region_witness :
  (0 <= beginIdx normalisedDoc < endIdx normalisedDoc)%Z
  /\ interior normalisedDoc = nl ++ trim (interior normalisedDoc) ++ nl
  /\ roundTrip normalisedDoc = Ok normalisedDoc.
Proof.
  assert (H : (0 <= beginIdx normalisedDoc < endIdx normalisedDoc)%Z)
    by (vm_compute; split; [discriminate|reflexivity]).
  assert (Hn : interior normalisedDoc = nl ++ trim (interior normalisedDoc) ++ nl)
    by (vm_compute; reflexivity).
  split; [exact H|]. split; [exact Hn|].
  exact (proj2 (proj2 (proj2 (roundTrip_normalises_region normalisedDoc H))) Hn).
Defined.

(** C2, counterexample.  [swappedDoc] contains both markers, [END] first;
    the round trip does not give it back with a normalised region body. *)
Lemma roundTrip_fails_when_swapped :
  occurs BEGIN_MARKER swappedDoc /\ occurs END_MARKER swappedDoc /\
  ~ roundTripNormalises swappedDoc.
Proof.
  split; [apply includes_occurs; vm_compute; reflexivity|].
  split; [apply includes_occurs; vm_compute; reflexivity|].
  intros (pre & mid & post & Hdoc & Hout).
  assert (Hir : interiorReplaced swappedDoc (trim mid) (roundTrip swappedDoc))
    by (exists pre, mid, post; split; assumption).
  destruct (roundTrip swappedDoc) as [out|msg] eqn:E.
  - apply interiorReplaced_length in Hir.
    pose proof (trim_length mid) as Ht.
    apply (f_equal (@length _)) in Hdoc. repeat rewrite length_app in Hdoc.
    vm_compute in E. injection E as <-.
    change (length swappedDoc) with 64%nat in *.
    match type of Hir with (?n <= _)%nat =>
      let v := eval vm_compute in n in change n with v in Hir end.
    lia.
  - discriminate.
Qed.

Lemma parts_swapped (doc : jsstring) :
  (0 <= endIdx doc < beginIdx doc)%Z ->
  exists b e,
    find doc BEGIN_MARKER = Some b /\ find doc END_MARKER = Some e /\
    (e < b)%nat /\ (b + length BEGIN_MARKER <= length doc)%nat /\
    beforeEnd doc = firstn e doc /\
    endToBegin doc = firstn (b + length BEGIN_MARKER - e) (skipn e doc) /\
    afterBegin doc = skipn (b + length BEGIN_MARKER) doc.
Proof.
  intros [H0 Hlt]. unfold beforeEnd, endToBegin, afterBegin, beginLen.
  destruct (indices_found doc END_MARKER _ eq_refl H0) as [He Ee].
  destruct (indices_found doc BEGIN_MARKER _ eq_refl) as [Hb Eb];
    [unfold beginIdx, endIdx in *; lia|].
  unfold beginIdx, endIdx in *.
  set (b := Z.to_nat (indexOf doc BEGIN_MARKER)) in *.
  set (e := Z.to_nat (indexOf doc END_MARKER)) in *.
  pose proof (find_Some_bound _ _ _ Hb) as Hbound.
  exists b, e. repeat split; try assumption; try lia.
  - rewrite Ee. apply substring_prefix. lia.
  - rewrite Eb, Ee, <- Nat2Z.inj_add. apply substring_inside. lia.
  - rewrite Eb, <- Nat2Z.inj_add. apply substringFrom_suffix. lia.
Qed.

(** C10.  When the first [END] marker precedes the first [BEGIN] marker,
    [replaceRegion] raises no error: it returns the document up to the end
    of [BEGIN], a newline, the trimmed [newContent], a newline, and the
    document from [END] on.  The span from the start of [END] to the end of
    [BEGIN] therefore stands twice in the result. *)
Theorem replaceRegion_end_before_begin (doc newContent : jsstring) :
  (0 <= endIdx doc < beginIdx doc)%Z ->
  replaceRegion doc newContent =
    Ok (substring doc 0 (beginIdx doc + beginLen) ++ nl ++ trim newContent ++ nl
        ++ substringFrom doc (endIdx doc))
  /\ doc = beforeEnd doc ++ endToBegin doc ++ afterBegin doc
  /\ startsWith (endToBegin doc) END_MARKER = true
  /\ endsWith (endToBegin doc) BEGIN_MARKER = true
  /\ replaceRegion doc newContent =
       Ok (beforeEnd doc ++ endToBegin doc ++ nl ++ trim newContent ++ nl
           ++ endToBegin doc ++ afterBegin doc).
Proof.
  intros H.
  assert (Hraw : replaceRegion doc newContent =
    Ok (substring doc 0 (beginIdx doc + beginLen) ++ nl ++ trim newContent ++ nl
        ++ substringFrom doc (endIdx doc))).
  { unfold replaceRegion, beginIdx, endIdx, beginLen in *.
    destruct (Z.eqb_spec (indexOf doc BEGIN_MARKER) (-1)); [lia|].
    destruct (Z.eqb_spec (indexOf doc END_MARKER) (-1)); [lia|].
    reflexivity. }
  destruct (parts_swapped doc H) as (b & e & Hb & He & Hlt & Hbound & -> & -> & ->).
  set (L := length BEGIN_MARKER) in *.
  assert (HL : L = 23%nat) by reflexivity.
  assert (Hpre : firstn (b + L) doc = firstn e doc ++ firstn (b + L - e) (skipn e doc)).
  { rewrite <- firstn_add. f_equal. lia. }
  assert (Hsuf : skipn e doc = firstn (b + L - e) (skipn e doc) ++ skipn (b + L) doc).
  { rewrite <- (firstn_skipn (b + L - e) (skipn e doc)) at 1.
    f_equal. rewrite skipn_skipn. f_equal. lia. }
  split; [exact Hraw|].
  split. { rewrite <- Hsuf. symmetry. apply firstn_skipn. }
  split.
  { pose proof (find_Some_startsWith _ _ _ He) as Se.
    apply startsWith_inv in Se. rewrite Se.
    replace (b + L - e)%nat with (length END_MARKER + (b + L - e - 21))%nat
      by (change (length END_MARKER) with 21%nat; lia).
    rewrite firstn_add, firstn_exact. apply startsWith_app. }
  split.
  { pose proof (find_Some_startsWith _ _ _ Hb) as Sb.
    apply startsWith_inv in Sb.
    replace (b + L - e)%nat with ((b - e) + L)%nat by lia.
    rewrite firstn_add, skipn_skipn.
    replace (b - e + e)%nat with b by lia.
    rewrite Sb. unfold L. rewrite firstn_exact.
    unfold endsWith. rewrite rev_app_distr. apply startsWith_app. }
  rewrite (replaceRegion_at doc newContent b e Hb He). fold L.
  f_equal. rewrite Hpre, <- !app_assoc. do 5 f_equal. exact Hsuf.
Qed.

Lemma replaceRegion_end_before_begin_witness :
  (0 <= endIdx swappedDoc < beginIdx swappedDoc)%Z
  /\ replaceRegion swappedDoc (lit " new ") =
       Ok (beforeEnd swappedDoc ++ endToBegin swappedDoc ++ nl
           ++ trim (lit " new ") ++ nl
           ++ endToBegin swappedDoc ++ afterBegin swappedDoc).
Proof.
  assert (H : (0 <= endIdx swappedDoc < beginIdx swappedDoc)%Z)
    by (vm_compute; split; [discriminate|reflexivity]).
  split; [exact H|].
  exact (proj2 (proj2 (proj2 (proj2
           (replaceRegion_end_before_begin swappedDoc (lit " new ") H))))).
Defined.

End RoundTripClaims.

Section EnsureRegionClaims.

Import Region RegionSpec.

Lemma find_cons_None (c : char) (s m : jsstring) :
  find (c :: s) m = None -> startsWith (c :: s) m = false /\ find s m = None.
Proof.
  simpl. destruct (startsWith (c :: s) m); [discriminate|].
  destruct (find s m); [discriminate|]. now split.
Qed.

Lemma count_zero_find (s m : jsstring) :
  find s m = None -> countOccurrences s m = 0%nat.
Proof.
  induction s as [|c s IH].
  - simpl. destruct (startsWith [] m); [discriminate|reflexivity].
  - intros H. apply find_cons_None in H as [Hs Hf].
    cbn [countOccurrences]. rewrite Hs, (IH Hf). reflexivity.
Qed.

Lemma count_pos_find (s m : jsstring) (i : nat) :
  find s m = Some i -> (1 <= countOccurrences s m)%nat.
Proof.
  revert i; induction s as [|c s IH]; intros i.
  - simpl. destruct (startsWith [] m); [lia|discriminate].
  - cbn [find countOccurrences]. destruct (startsWith (c :: s) m); [lia|].
    destruct (find s m) as [j|]; [|discriminate].
    intros _. specialize (IH j eq_refl). lia.
Qed.

Lemma startsWith_app_long (x t m : jsstring) :
  startsWith (x ++ t) m = true -> (length m <= length x)%nat ->
  startsWith x m = true.
Proof.
  intros H Hl. apply startsWith_inv in H.
  apply (f_equal (firstn (length m))) in H.
  rewrite firstn_exact, firstn_app in H.
  replace (length m - length x)%nat with 0%nat in H by lia.
  rewrite firstn_O, app_nil_r in H.
  rewrite <- (firstn_skipn (length m) x), H. apply startsWith_app.
Qed.

(** A marker cannot straddle the junction with a text that starts with a
    code unit foreign to the marker. *)
Lemma count_across_junction (m x t : jsstring) (c : char) :
  ~ In c m -> find x m = None ->
  countOccurrences (x ++ c :: t) m = countOccurrences (c :: t) m.
Proof.
  intros Hc. induction x as [|a x IH]; intros Hx; [reflexivity|].
  apply find_cons_None in Hx as [Hs Hf].
  change ((a :: x) ++ c :: t) with (a :: (x ++ c :: t)).
  cbn [countOccurrences]. rewrite (IH Hf).
  destruct (startsWith (a :: x ++ c :: t) m) eqn:E; [|reflexivity].
  exfalso. change (a :: x ++ c :: t) with ((a :: x) ++ c :: t) in E.
  destruct (le_lt_dec (length m) (length (a :: x))) as [Hl|Hl].
  - rewrite (startsWith_app_long _ _ _ E Hl) in Hs. discriminate.
  - pose proof (startsWith_nth _ _ (length (a :: x)) c E Hl) as Hn.
    rewrite app_nth2, Nat.sub_diag in Hn by lia. simpl nth at 1 in Hn.
    apply Hc. rewrite Hn. now apply nth_In.
Qed.

Lemma dropWhile_suffix (p : char -> bool) (s : jsstring) :
  exists w, s = w ++ dropWhile p s.
Proof.
  induction s as [|c s [w IH]]; simpl.
  - now exists [].
  - destruct (p c).
    + exists (c :: w). simpl. now f_equal.
    + now exists [].
Qed.

Lemma trimEnd_prefix (s : jsstring) : exists w, s = trimEnd s ++ w.
Proof.
  unfold trimEnd. destruct (dropWhile_suffix isWhiteSpace (rev s)) as [w Hw].
  exists (rev w). rewrite <- rev_app_distr, <- Hw. now rewrite rev_involutive.
Qed.

Lemma find_None_prefix (x w m : jsstring) :
  find (x ++ w) m = None -> find x m = None.
Proof.
  rewrite !find_None_iff. intros H (pre & post & ->). apply H.
  exists pre, (post ++ w). now rewrite <- !app_assoc.
Qed.

Lemma newline_not_in_begin : ~ In 10%N BEGIN_MARKER.
Proof.
  intros H. vm_compute in H.
  repeat (destruct H as [H|H]; [discriminate|]). exact H.
Qed.

Lemma ensureRegion_adds_one (doc : jsstring) :
  find doc BEGIN_MARKER = None ->
  countOccurrences (ensureRegion doc) BEGIN_MARKER = 1%nat.
Proof.
  intros H. unfold ensureRegion, includes. rewrite H.
  destruct (trimEnd_prefix doc) as [w Hw]. rewrite Hw in H.
  apply find_None_prefix in H.
  change (nl ++ nl ++ DEFAULT_REGION ++ nl)
    with (10%N :: (nl ++ DEFAULT_REGION ++ nl)).
  rewrite (count_across_junction _ _ _ _ newline_not_in_begin H).
  vm_compute. reflexivity.
Qed.

Lemma ensureRegion_fixed (doc : jsstring) :
  ensureRegion (ensureRegion doc) = ensureRegion doc.
Proof.
  destruct (find doc BEGIN_MARKER) as [i|] eqn:F.
  - unfold ensureRegion at 2 3. unfold includes. rewrite F.
    unfold ensureRegion, includes. now rewrite F.
  - pose proof (ensureRegion_adds_one doc F) as H1.
    unfold ensureRegion at 1. unfold includes.
    destruct (find (ensureRegion doc) BEGIN_MARKER) eqn:G; [reflexivity|].
    apply count_zero_find in G. lia.
Qed.

(** C8 (as amended).  When [BEGIN] is present [ensureRegion] returns the
    document unchanged, whether or not [END] is there; applying it twice is
    the same as applying it once; and for every document with at most one
    [BEGIN] marker, applying it twice yields a document with exactly one
    [BEGIN] marker. *)
Theorem ensureRegion_idempotent (doc : jsstring) :
  (includes doc BEGIN_MARKER = true -> ensureRegion doc = doc)
  /\ ensureRegion (ensureRegion doc) = ensureRegion doc
  /\ ((countOccurrences doc BEGIN_MARKER <= 1)%nat ->
      countOccurrences (ensureRegion (ensureRegion doc)) BEGIN_MARKER = 1%nat).
Proof.
  split; [|split].
  - intros H. unfold ensureRegion. now rewrite H.
  - apply ensureRegion_fixed.
  - intros Hle. rewrite ensureRegion_fixed.
    destruct (find doc BEGIN_MARKER) as [i|] eqn:F.
    + pose proof (count_pos_find _ _ _ F).
      unfold ensureRegion, includes. rewrite F. lia.
    + now apply ensureRegion_adds_one.
Qed.

Lemma ensureRegion_idempotent_witness :
  (includes onlyBeginDoc BEGIN_MARKER = true
   /\ ensureRegion onlyBeginDoc = onlyBeginDoc)
  /\ ((countOccurrences plainDoc BEGIN_MARKER <= 1)%nat
      /\ countOccurrences (ensureRegion (ensureRegion plainDoc)) BEGIN_MARKER = 1%nat).
Proof.
  assert (H1 : includes onlyBeginDoc BEGIN_MARKER = true) by (vm_compute; reflexivity).
  assert (H2 : (countOccurrences plainDoc BEGIN_MARKER <= 1)%nat)
    by (vm_compute; lia).
  split; (split; [assumption|]).
  - exact (proj1 (ensureRegion_idempotent onlyBeginDoc) H1).
  - exact (proj2 (proj2 (ensureRegion_idempotent plainDoc)) H2).
Defined.

(** C8, counterexample.  A document that already holds two [BEGIN] markers
    still holds two of them after two calls of [ensureRegion], not one. *)
Lemma ensureRegion_keeps_two_begins :
  countOccurrences (ensureRegion (ensureRegion twoBeginsDoc)) BEGIN_MARKER = 2%nat.
Proof. vm_compute. reflexivity. Qed.

End EnsureRegionClaims.

(** ** Bundle builder: budgets *)

Section BudgetClaims.

Import ContextBuilder BundleSpec.






Lemma geNum_Finite (n : N) (q : Q) :
  geNum n (Finite q) = true <-> (Qnum q <= Z.of_N n * Z.pos (Qden q))%Z.
Proof.
  unfold geNum. rewrite Qle_bool_iff. unfold Qle, ofN. simpl.
  now rewrite Z.mul_1_r.
Qed.





Variable cfg : ContextConfig.
Variable repo : Repo.






End BudgetClaims.

Section BudgetTheorem.

Import ContextBuilder BundleSpec.




End BudgetTheorem.

(** ** Bundle builder: buckets *)

Section BucketClaims.

Import ContextBuilder BundleSpec.

Lemma eqb_eq (a b : jsstring) : Js.eqb a b = true <-> a = b.
Proof.
  unfold Js.eqb. destruct (list_eq_dec N.eq_dec a b); split; congruence.
Qed.

Lemma member_In (x : jsstring) (l : list jsstring) :
  member x l = true <-> In x l.
Proof.
  unfold member. rewrite existsb_exists. split.
  - intros (y & Hy & E). apply eqb_eq in E. now subst.
  - intros H. exists x. split; [assumption|now apply eqb_eq].
Qed.

Lemma bucket_push (c c' : Category) (p q : jsstring) (b : AnalysisBundle) :
  In q (bucket c' (push c p b)) -> In q (bucket c' b) \/ (c' = c /\ q = p).
Proof.
  destruct c, c'; simpl; try (now left); rewrite in_app_iff; simpl;
    intros [H|[H|[]]]; auto.
Qed.

Variable cfg : ContextConfig.
Variable repo : Repo.
Variable index : RepoIndex.

Lemma addFile_from (p : jsstring) (c : Category) (st : Builder) :
  In p (candidates repo index c) -> fromCandidates repo index st ->
  fromCandidates repo index (fst (addFile cfg repo p c st)).
Proof.
  intros Hp W. unfold addFile.
  destruct (readFile repo p) as [f|]; [|exact W].
  destruct (gtNum (currentSize st + fileSize f) (maxTotalSize cfg)); [exact W|].
  destruct (gtNum (currentTokens st + tokensOf (fileContent f)) (maxTokens cfg));
    [exact W|].
  destruct (geNum (getTotalFiles (bundle st)) (maxFiles cfg)); [exact W|].
  intros c' q Hq. cbn [fst bundle] in Hq.
  assert (Hq' : In q (bucket c' (push c p (bundle st))))
    by (destruct c'; exact Hq).
  apply bucket_push in Hq' as [H|[-> ->]]; [now apply W|exact Hp].
Qed.

Lemma addAll_from (c : Category) (paths : list jsstring) (st : Builder) :
  incl paths (candidates repo index c) -> fromCandidates repo index st ->
  fromCandidates repo index (addAll cfg repo c paths st).
Proof.
  unfold addAll. revert st.
  induction paths as [|p paths IH]; intros st Hin W; simpl; [exact W|].
  apply IH.
  - intros x Hx. apply Hin. now right.
  - apply addFile_from; [apply Hin; now left|exact W].
Qed.

Lemma addPriority_from (c : Category) (test : jsstring -> jsstring -> bool)
    (cands priority : list jsstring) (st : Builder) :
  incl cands (candidates repo index c) -> fromCandidates repo index st ->
  fromCandidates repo index (addPriority cfg repo c test cands priority st).
Proof.
  unfold addPriority. intros Hin. revert st.
  induction priority as [|w priority IH]; intros st W; simpl; [exact W|].
  apply IH.
  destruct (List.find (fun c0 => test c0 w) cands) as [m|] eqn:F; [|exact W].
  destruct (truthy m); [|exact W].
  apply addFile_from; [|exact W]. apply Hin.
  now apply (find_some _ _ F).
Qed.

Lemma takeMatches_from (k : number) (found acc : list jsstring) (x : jsstring) :
  In x (takeMatches k found acc) -> In x acc \/ In x (firstn 2 found).
Proof.
  unfold takeMatches. generalize (firstn 2 found) as l. intros l. revert acc.
  induction l as [|m l IH]; intros acc H; simpl in *; [now left|].
  apply IH in H as [H|H]; [|now right; right].
  destruct (geNum (N.of_nat (length acc)) k); [now left|].
  destruct (member m acc); [now left|].
  apply in_app_iff in H as [H|[H|[]]]; auto.
Qed.

Lemma select_from (k : number) (x : jsstring) :
  In x (selectRepresentativeSamples repo index k) ->
  In x (candidates repo index Samples).
Proof.
  unfold selectRepresentativeSamples, candidates.
  destruct (nonPositive k); [intros []|].
  assert (G : forall pats acc,
    In x (fold_left
            (fun acc pattern =>
               if geNum (N.of_nat (length acc)) k then acc
               else takeMatches k (glob repo pattern) acc) pats acc) ->
    In x acc \/ In x (flat_map (fun pattern => firstn 2 (glob repo pattern)) pats)).
  { induction pats as [|pat pats IH]; intros acc H; simpl in *; [now left|].
    apply IH in H as [H|H]; [|right; apply in_app_iff; now right].
    destruct (geNum (N.of_nat (length acc)) k); [now left|].
    apply takeMatches_from in H as [H|H]; [now left|].
    right. apply in_app_iff. now left. }
  intros H. apply G in H as [[]|H]. exact H.
Qed.

Lemma fresh_from : fromCandidates repo index freshBuilder.
Proof. intros c p H. destruct c; destruct H. Qed.

Lemma categoryEqb_eq (c c' : Category) : categoryEqb c c' = true <-> c = c'.
Proof. destruct c, c'; simpl; split; congruence. Qed.

Lemma all_categories (c : Category) : In c categories.
Proof. destruct c; simpl; tauto. Qed.

Lemma categoriesDisjoint_spec :
  categoriesDisjoint repo index = true ->
  forall p c c',
    In p (candidates repo index c) -> In p (candidates repo index c') -> c = c'.
Proof.
  unfold categoriesDisjoint. rewrite forallb_forall. intros H p c c' Hc Hc'.
  specialize (H c (all_categories c)). rewrite forallb_forall in H.
  specialize (H c' (all_categories c')).
  apply orb_true_iff in H as [H|H]; [now apply categoryEqb_eq|].
  rewrite forallb_forall in H. specialize (H p Hc).
  apply member_In in Hc'. rewrite Hc' in H. discriminate.
Qed.

End BucketClaims.

Section BucketTheorem.

Import ContextBuilder BundleSpec.

Lemma build_from (repo : Repo) (index : RepoIndex) (config : PartialConfig) :
  forall c p, In p (bucket c (buildAnalysisBundle repo index config)) ->
              In p (candidates repo index c).
Proof.
  unfold buildAnalysisBundle.
  repeat first [ apply addAll_from | apply addPriority_from ];
    try apply fresh_from; try apply incl_refl.
  - intros x. apply select_from.
  - intros x Hx. apply filter_In in Hx. exact (proj1 Hx).
Qed.

(** C4 (as amended).  Every bucket of a bundle holds only paths that the
    index offers for the category of that bucket (manifest paths, detected
    docs, detected configs, entry points, the first two matches of each
    architectural pattern).  Hence, when no path is offered by two
    categories, no path is in two different buckets of the bundle. *)
Theorem buckets_disjoint_when_categories_are (repo : Repo) (index : RepoIndex)
    (config : PartialConfig) :
  let b := buildAnalysisBundle repo index config in
  (forall c p, In p (bucket c b) -> In p (candidates repo index c))
  /\ (categoriesDisjoint repo index = true ->
      forall p c c', In p (bucket c b) -> In p (bucket c' b) -> c = c').
Proof.
  intros b. split; [apply build_from|].
  intros H p c c' Hc Hc'.
  apply (categoriesDisjoint_spec repo index H p); now apply build_from in Hc, Hc'.
Qed.

Lemma buckets_disjoint_when_categories_are_witness :
  categoriesDisjoint nodeRepo nodeIndex = true
  /\ (forall p c c',
        In p (bucket c (buildAnalysisBundle nodeRepo nodeIndex noConfig)) ->
        In p (bucket c' (buildAnalysisBundle nodeRepo nodeIndex noConfig)) ->
        c = c').
Proof.
  assert (H : categoriesDisjoint nodeRepo nodeIndex = true)
    by (vm_compute; reflexivity).
  split; [exact H|].
  exact (proj2 (buckets_disjoint_when_categories_are nodeRepo nodeIndex noConfig) H).
Defined.

(** C4, counterexample.  In a Python repository [requirements.txt] is both a
    manifest and a detected doc; the builder admits it into the [manifests]
    bucket and into the [docs] bucket of the same bundle. *)
Lemma requirements_in_two_buckets :
  bucketsHolding (buildAnalysisBundle pythonRepo pythonIndex noConfig)
                 (lit "requirements.txt") = [Manifests; Docs]
  /\ manifests (buildAnalysisBundle pythonRepo pythonIndex noConfig) =
       [lit "requirements.txt"]
  /\ docs (buildAnalysisBundle pythonRepo pythonIndex noConfig) =
       [lit "requirements.txt"].
Proof. vm_compute. repeat split; reflexivity. Qed.

End BucketTheorem.

(** ** Bundle hash *)

Section SortFacts.

Import ContextBuilder.

Lemma leb_total (a b : jsstring) : leb a b = true \/ leb b a = true.
Proof.
  revert b; induction a as [|x a IH]; intros [|y b]; simpl; auto.
  destruct (N.ltb_spec x y), (N.ltb_spec y x); auto; lia.
Qed.

Lemma leb_antisym (a b : jsstring) : leb a b = true -> leb b a = true -> a = b.
Proof.
  revert b; induction a as [|x a IH]; intros [|y b]; simpl; try discriminate; auto.
  destruct (N.ltb_spec x y), (N.ltb_spec y x); try discriminate; try lia.
  intros H1 H2. assert (x = y) by lia. subst. f_equal. now apply IH.
Qed.

Lemma leb_trans (a b c : jsstring) :
  leb a b = true -> leb b c = true -> leb a c = true.
Proof.
  revert b c; induction a as [|x a IH]; intros [|y b] [|z c]; simpl;
    try discriminate; auto.
  destruct (N.ltb_spec x y), (N.ltb_spec y x), (N.ltb_spec y z),
    (N.ltb_spec z y), (N.ltb_spec x z), (N.ltb_spec z x);
    try discriminate; try lia; auto.
  apply IH.
Qed.

Lemma leb_false (a b : jsstring) : leb a b = false -> leb b a = true.
Proof. destruct (leb_total a b) as [H|H]; congruence. Qed.

Lemma insertSorted_comm (x y : jsstring) (l : list jsstring) :
  insertSorted x (insertSorted y l) = insertSorted y (insertSorted x l).
Proof.
  induction l as [|z l IH]; simpl.
  - destruct (leb x y) eqn:Exy, (leb y x) eqn:Eyx; try reflexivity.
    + now rewrite (leb_antisym _ _ Exy Eyx).
    + apply leb_false in Exy. congruence.
  - destruct (leb y z) eqn:Eyz, (leb x z) eqn:Exz; simpl.
    + rewrite Eyz, Exz.
      destruct (leb x y) eqn:Exy, (leb y x) eqn:Eyx; try reflexivity.
      * now rewrite (leb_antisym _ _ Exy Eyx).
      * apply leb_false in Exy. congruence.
    + rewrite Exz, Eyz.
      destruct (leb x y) eqn:Exy; [|reflexivity].
      rewrite (leb_trans _ _ _ Exy Eyz) in Exz. discriminate.
    + rewrite Exz, Eyz.
      destruct (leb y x) eqn:Eyx; [|reflexivity].
      rewrite (leb_trans _ _ _ Eyx Exz) in Eyz. discriminate.
    + rewrite Exz, Eyz. now rewrite IH.
Qed.

Lemma sort_permutation_eq (l l' : list jsstring) :
  Permutation l l' -> sort l = sort l'.
Proof.
  induction 1 as [|x l l' _ IH|x y l|l l' l'' _ IH1 _ IH2]; simpl.
  - reflexivity.
  - now rewrite IH.
  - apply insertSorted_comm.
  - congruence.
Qed.

Lemma insertSorted_permutation (x : jsstring) (l : list jsstring) :
  Permutation (insertSorted x l) (x :: l).
Proof.
  induction l as [|y l IH]; simpl; [reflexivity|].
  destruct (leb x y); [reflexivity|].
  rewrite IH. apply perm_swap.
Qed.

Lemma sort_permutation (l : list jsstring) : Permutation (sort l) l.
Proof.
  induction l as [|x l IH]; simpl; [reflexivity|].
  rewrite insertSorted_permutation. now constructor.
Qed.

Lemma insertSorted_Sorted (x : jsstring) (l : list jsstring) :
  Sorted (fun a b => leb a b = true) l ->
  Sorted (fun a b => leb a b = true) (insertSorted x l).
Proof.
  induction l as [|y l IH]; intros S; simpl.
  - repeat constructor.
  - destruct (leb x y) eqn:E.
    + constructor; [exact S|]. now constructor.
    + inversion S as [|? ? Sl Hd]; subst.
      constructor; [now apply IH|].
      destruct l as [|z l]; simpl.
      * constructor. now apply leb_false.
      * destruct (leb x z); constructor.
        -- now apply leb_false.
        -- now inversion Hd.
Qed.

Lemma sort_Sorted (l : list jsstring) :
  Sorted (fun a b => leb a b = true) (sort l).
Proof.
  induction l as [|x l IH]; simpl; [constructor|].
  now apply insertSorted_Sorted.
Qed.

Lemma sort_eq_permutation (l l' : list jsstring) :
  sort l = sort l' <-> Permutation l l'.
Proof.
  split; [|apply sort_permutation_eq].
  intros H. rewrite <- (sort_permutation l), H. apply sort_permutation.
Qed.

End SortFacts.

Section HashFacts.

Import ContextBuilder BundleSpec.

Lemma bytesBE_length (n : nat) (x : N) : length (Sha256.bytesBE n x) = n.
Proof.
  revert x; induction n as [|n IH]; intros x; simpl; [reflexivity|].
  rewrite length_app, IH. simpl. lia.
Qed.

Lemma compress_length (h block : list N) :
  length h = 8%nat -> length (Sha256.compress h block) = 8%nat.
Proof.
  intros H. unfold Sha256.compress.
  rewrite length_map, length_combine, H. reflexivity.
Qed.

Lemma digest_length (msg : list N) : length (Sha256.digest msg) = 32%nat.
Proof.
  unfold Sha256.digest.
  assert (H : forall blocks h, length h = 8%nat ->
                length (fold_left Sha256.compress blocks h) = 8%nat).
  { induction blocks as [|b blocks IH]; intros h Hh; simpl; [exact Hh|].
    apply IH. now apply compress_length. }
  specialize (H (Sha256.chunks (length (Sha256.pad msg)) 64 (Sha256.pad msg))
                Sha256.H0 eq_refl).
  revert H. generalize (fold_left Sha256.compress
    (Sha256.chunks (length (Sha256.pad msg)) 64 (Sha256.pad msg)) Sha256.H0).
  intros l Hl.
  do 9 (destruct l as [|? l]; try discriminate).
  simpl. repeat rewrite length_app. repeat rewrite bytesBE_length. reflexivity.
Qed.

Lemma hex_length (bs : list N) : length (Sha256.hex bs) = (2 * length bs)%nat.
Proof. induction bs as [|b bs IH]; simpl; [reflexivity|]. rewrite IH. lia. Qed.

Lemma hexDigit_not_colon (d : N) : Sha256.hexDigit d <> 58%N.
Proof. unfold Sha256.hexDigit. destruct (N.ltb_spec d 10); lia. Qed.

Lemma hex_no_colon (bs : list N) : ~ In 58%N (Sha256.hex bs).
Proof.
  unfold Sha256.hex. rewrite in_flat_map.
  intros (b & _ & [H|[H|[]]]); now apply hexDigit_not_colon in H.
Qed.

Lemma In_substring (x : char) (s : jsstring) (a b : Z) :
  In x (substring s a b) -> In x s.
Proof.
  unfold substring. intros H.
  set (n := Z.to_nat _) in H. set (k := Z.to_nat _) in H.
  rewrite <- (firstn_skipn k s). apply in_or_app. right.
  rewrite <- (firstn_skipn n (skipn k s)). apply in_or_app. now left.
Qed.

(** [hashContent] yields 16 code units, none of them a colon. *)
Lemma hashContent_shape (content : jsstring) :
  length (hashContent content) = 16%nat /\ ~ In 58%N (hashContent content).
Proof.
  unfold hashContent. split.
  - change 16%Z with (Z.of_nat 16). rewrite substring_prefix.
    + rewrite length_firstn. unfold Sha256.sha256hex.
      rewrite hex_length, digest_length. reflexivity.
    + unfold Sha256.sha256hex. rewrite hex_length, digest_length. lia.
  - intros H. apply In_substring in H. now apply hex_no_colon in H.
Qed.

(** Strings free of the separator, and not empty, are recovered from their
    [join]. *)
Lemma split_at_separator (c : char) (p p' r r' : jsstring) :
  ~ In c p -> ~ In c p' ->
  (r = [] \/ exists t, r = c :: t) -> (r' = [] \/ exists t, r' = c :: t) ->
  p ++ r = p' ++ r' -> p = p' /\ r = r'.
Proof.
  revert p'; induction p as [|a p IH]; intros [|a' p'] Hp Hp' Hr Hr' E; simpl in *.
  - now split.
  - exfalso. destruct Hr as [->|(t & ->)]; [discriminate|].
    injection E as -> _. apply Hp'. now left.
  - exfalso. destruct Hr' as [->|(t & ->)]; [discriminate|].
    injection E as -> _. apply Hp. now left.
  - injection E as -> E.
    destruct (IH p') with (5 := E) as [-> ->]; auto.
Qed.

Lemma join_tail (c : char) (p : jsstring) (rest : list jsstring) :
  exists r, join [c] (p :: rest) = p ++ r
            /\ (rest = [] -> r = [])
            /\ (rest <> [] -> r = c :: join [c] rest).
Proof.
  destruct rest as [|q rest].
  - exists []. simpl. rewrite app_nil_r. repeat split; congruence.
  - exists (c :: join [c] (q :: rest)). repeat split; congruence.
Qed.

Lemma join_injective (c : char) (l l' : list jsstring) :
  Forall (fun s => s <> [] /\ ~ In c s) l ->
  Forall (fun s => s <> [] /\ ~ In c s) l' ->
  join [c] l = join [c] l' -> l = l'.
Proof.
  intros Hl. revert l'. induction Hl as [|p rest [Hne Hp] Hrest IH];
    intros l' Hl' E.
  - revert E. destruct Hl' as [|p' rest' [Hne' _] _]; intros E; [reflexivity|].
    destruct (join_tail c p' rest') as (r' & E' & _).
    pose proof (eq_trans E E') as E2.
    simpl in E2. destruct p'; [congruence|discriminate].
  - revert E. destruct Hl' as [|p' rest' [Hne' Hp'] Hrest']; intros E.
    + destruct (join_tail c p rest) as (r & E' & _).
      pose proof (eq_trans (eq_sym E) E') as E2.
      simpl in E2. destruct p; [congruence|discriminate].
    + destruct (join_tail c p rest) as (r & Er & R0 & R1).
      destruct (join_tail c p' rest') as (r' & Er' & R0' & R1').
      pose proof (eq_trans (eq_sym Er) (eq_trans E Er')) as E2.
      assert (Sr : r = [] \/ exists t, r = c :: t)
        by (destruct rest; [left; now apply R0|right; eexists; now apply R1]).
      assert (Sr' : r' = [] \/ exists t, r' = c :: t)
        by (destruct rest'; [left; now apply R0'|right; eexists; now apply R1']).
      destruct (split_at_separator c p p' r r' Hp Hp' Sr Sr' E2) as [-> Err].
      f_equal. destruct rest as [|q rest], rest' as [|q' rest'].
      * reflexivity.
      * rewrite (R0 eq_refl), (R1' ltac:(discriminate)) in Err. discriminate.
      * rewrite (R0' eq_refl), (R1 ltac:(discriminate)) in Err. discriminate.
      * apply IH; [assumption|].
        rewrite (R1 ltac:(discriminate)), (R1' ltac:(discriminate)) in Err.
        now injection Err.
Qed.

End HashFacts.

Section MapFacts.

Import ContextBuilder BundleSpec.

Lemma set_In (k v : jsstring) (m : JsMap.t) (k' v' : jsstring) :
  NoDup (JsMap.keys m) ->
  (In (k', v') (JsMap.set k v m) <->
   (k' = k /\ v' = v) \/ (k' <> k /\ In (k', v') m)).
Proof.
  induction m as [|[k0 v0] m IH]; intros ND; simpl.
  - split.
    + intros [[= <- <-]|[]]. now left.
    + intros [[-> ->]|[_ []]]. now left.
  - inversion ND as [|? ? Hk0 ND']; subst.
    destruct (Js.eqb k0 k) eqn:E.
    + apply eqb_eq in E. subst k0. simpl. split.
      * intros [[= <- <-]|H]; [now left|].
        right. split; [|now right].
        intros ->. apply Hk0. apply (in_map fst) in H. exact H.
      * intros [[-> ->]|[Hne [H|H]]].
        -- now left.
        -- injection H as <- _. congruence.
        -- now right.
    + assert (Hne : k0 <> k)
        by (intros ->; rewrite (proj2 (eqb_eq k k) eq_refl) in E; discriminate).
      simpl. rewrite (IH ND'). split.
      * intros [[= <- <-]|[H|[H1 H2]]]; auto.
      * intros [H|[H1 [H2|H2]]]; auto.
Qed.

Lemma set_keys_NoDup (k v : jsstring) (m : JsMap.t) :
  NoDup (JsMap.keys m) -> NoDup (JsMap.keys (JsMap.set k v m)).
Proof.
  induction m as [|[k0 v0] m IH]; intros ND; simpl.
  - constructor; [tauto|constructor].
  - inversion ND as [|? ? Hk0 ND']; subst.
    destruct (Js.eqb k0 k) eqn:E; simpl; [exact ND|].
    constructor; [|now apply IH].
    intros H. apply in_map_iff in H as ([k1 v1] & <- & H).
    apply (set_In k v m k1 v1 ND') in H as [[-> ->]|[_ H]].
    + simpl in E. rewrite (proj2 (eqb_eq k k) eq_refl) in E. discriminate.
    + apply Hk0. apply (in_map fst) in H. exact H.
Qed.

Lemma keys_NoDup_entries (m : JsMap.t) : NoDup (JsMap.keys m) -> NoDup m.
Proof. apply NoDup_map_inv. Qed.

(** What a run of [set] leaves in the map. *)
Lemma recorded_from (adds : list (jsstring * jsstring)) :
  forall acc, NoDup (JsMap.keys acc) -> functional adds ->
  let m := fold_left (fun m pc => JsMap.set (fst pc) (hashContent (snd pc)) m)
                     adds acc in
  NoDup (JsMap.keys m)
  /\ forall p h,
       In (p, h) m <->
       (exists c, In (p, c) adds /\ h = hashContent c)
       \/ (In (p, h) acc /\ ~ In p (List.map fst adds)).
Proof.
  induction adds as [|[q c] adds IH]; intros acc ND Hf; simpl.
  - split; [exact ND|]. intros p h. split.
    + intros H. right. tauto.
    + intros [(c & [] & _)|[H _]]. exact H.
  - assert (Hf' : functional adds)
      by (intros p c1 c2 H1 H2; apply (Hf p); now right).
    destruct (IH (JsMap.set q (hashContent c) acc) (set_keys_NoDup _ _ _ ND) Hf')
      as [ND' Hin].
    split; [exact ND'|]. intros p h. rewrite Hin, (set_In _ _ _ _ _ ND).
    split.
    + intros [(c' & H & ->)|[[[-> ->]|[Hne H]] Hn]].
      * left. exists c'. split; [now right|reflexivity].
      * left. exists c. split; [now left|reflexivity].
      * right. split; [exact H|]. intros [E|E]; [now symmetry in E|contradiction].
    + intros [(c' & [[= <- <-]|H] & ->)|[H Hn]].
      * destruct (in_dec (list_eq_dec N.eq_dec) q (List.map fst adds)) as [Hq|Hq].
        -- apply in_map_iff in Hq as ([q' c''] & E & Hq). simpl in E. subst q'.
           left. exists c''. split; [exact Hq|].
           f_equal. apply (Hf q); [now left|now right].
        -- right. split; [now left|exact Hq].
      * left. exists c'. split; [exact H|reflexivity].
      * right. split; [|tauto]. right. split; [|exact H].
        intros ->. apply Hn. now left.
Qed.

Lemma recordAll_spec (adds : list (jsstring * jsstring)) :
  functional adds ->
  NoDup (recordAll adds)
  /\ forall p h, In (p, h) (recordAll adds) <->
                 exists c, In (p, c) adds /\ h = hashContent c.
Proof.
  intros Hf.
  destruct (recorded_from adds [] (NoDup_nil _) Hf) as [ND Hin].
  split; [now apply keys_NoDup_entries|].
  intros p h. unfold recordAll. rewrite Hin. split; [|now left].
  intros [H|[[] _]]. exact H.
Qed.

Lemma recordAll_permutation (adds adds' : list (jsstring * jsstring)) :
  Permutation adds adds' -> functional adds ->
  Permutation (recordAll adds) (recordAll adds').
Proof.
  intros P Hf.
  assert (Hf' : functional adds').
  { intros p c c' H1 H2. apply (Hf p); eapply Permutation_in;
      try (symmetry; exact P); assumption. }
  destruct (recordAll_spec adds Hf) as [ND Hin].
  destruct (recordAll_spec adds' Hf') as [ND' Hin'].
  apply NoDup_Permutation; try assumption.
  intros [p h]. rewrite Hin, Hin'. split; intros (c & H & ->); exists c;
    (split; [|reflexivity]); eapply Permutation_in; try exact H;
    [exact P|symmetry; exact P].
Qed.

Lemma recordAll_values_hashes (adds : list (jsstring * jsstring)) :
  Forall (fun s => s <> [] /\ ~ In 58%N s) (JsMap.values (recordAll adds)).
Proof.
  unfold recordAll.
  assert (G : forall acc,
    Forall (fun s => s <> [] /\ ~ In 58%N s) (JsMap.values acc) ->
    Forall (fun s => s <> [] /\ ~ In 58%N s)
      (JsMap.values (fold_left
         (fun m pc => JsMap.set (fst pc) (hashContent (snd pc)) m) adds acc))).
  { induction adds as [|[q c] adds IH]; intros acc H; simpl; [exact H|].
    apply IH. clear IH. induction acc as [|[k0 v0] acc IHacc]; simpl.
    - constructor; [|constructor].
      destruct (hashContent_shape c) as [L N0]. split; [|exact N0].
      intros E. rewrite E in L. discriminate.
    - inversion H as [|? ? Hv Hrest]; subst.
      destruct (Js.eqb k0 q); simpl.
      + constructor; [|exact Hrest].
        destruct (hashContent_shape c) as [L N0]. split; [|exact N0].
        intros E. rewrite E in L. discriminate.
      + constructor; [exact Hv|now apply IHacc]. }
  apply G. constructor.
Qed.

End MapFacts.

Section BundleHashClaims.

Import ContextBuilder BundleSpec.

Lemma bundleHash_of_multiset (b b' : AnalysisBundle) :
  Permutation (JsMap.values (contentHashes b)) (JsMap.values (contentHashes b')) ->
  getBundleHash b = getBundleHash b'.
Proof.
  intros P. unfold getBundleHash. now rewrite (sort_permutation_eq _ _ P).
Qed.

Lemma bundleHashInput_injective (adds adds' : list (jsstring * jsstring)) :
  bundleHashInput (withHashes (recordAll adds)) =
  bundleHashInput (withHashes (recordAll adds')) ->
  Permutation (JsMap.values (recordAll adds)) (JsMap.values (recordAll adds')).
Proof.
  unfold bundleHashInput, withHashes. cbn [contentHashes]. intros E.
  apply sort_eq_permutation.
  apply (join_injective 58%N); [| |exact E];
    (eapply Permutation_Forall; [symmetry; apply sort_permutation|]);
    apply recordAll_values_hashes.
Qed.

(** C9 (as amended).  [getBundleHash] hashes the recorded content hashes,
    sorted by code units and joined with a colon.  It is the same for the
    same files (every path with one content) added in another order, and
    more generally whenever the recorded content hashes are the same up to
    order, whatever the paths.  When the recorded content hashes differ as
    a multiset the hashed string differs, and so does the bundle hash unless
    [hashContent] collides on the two strings. *)
Theorem getBundleHash_order_and_content (adds adds' : list (jsstring * jsstring)) :
  let b := withHashes (recordAll adds) in
  let b' := withHashes (recordAll adds') in
  getBundleHash b =
    hashContent (join (lit ":") (sort (JsMap.values (recordAll adds))))
  /\ Sorted (fun x y => leb x y = true) (sort (JsMap.values (recordAll adds)))
  /\ Permutation (sort (JsMap.values (recordAll adds)))
                 (JsMap.values (recordAll adds))
  /\ (functional adds -> Permutation adds adds' ->
      getBundleHash b = getBundleHash b')
  /\ (Permutation (JsMap.values (recordAll adds)) (JsMap.values (recordAll adds')) ->
      getBundleHash b = getBundleHash b')
  /\ (~ Permutation (JsMap.values (recordAll adds)) (JsMap.values (recordAll adds')) ->
      bundleHashInput b <> bundleHashInput b'
      /\ ((hashContent (bundleHashInput b) = hashContent (bundleHashInput b') ->
           bundleHashInput b = bundleHashInput b') ->
          getBundleHash b <> getBundleHash b')).
Proof.
  intros b b'. split; [reflexivity|].
  split; [apply sort_Sorted|]. split; [apply sort_permutation|].
  split; [|split].
  - intros Hf P. apply bundleHash_of_multiset. unfold b, b', withHashes.
    cbn [contentHashes]. unfold JsMap.values. apply Permutation_map.
    now apply recordAll_permutation.
  - intros P. now apply bundleHash_of_multiset.
  - intros NP.
    assert (Hin : bundleHashInput b <> bundleHashInput b')
      by (intros E; apply NP; now apply bundleHashInput_injective).
    split; [exact Hin|]. intros Hc E. apply Hin, Hc. exact E.
Qed.

Lemma addsBefore_functional : functional addsBefore.
Proof.
  intros p c c' [H|[H|[]]] [H'|[H'|[]]];
    injection H as Hp Hc; injection H' as Hp' Hc'; subst c c';
    try reflexivity; exfalso; rewrite <- Hp' in Hp; vm_compute in Hp;
    discriminate.
Qed.

Lemma getBundleHash_order_and_content_witness :
  (functional addsBefore /\ Permutation addsBefore addsReordered
   /\ getBundleHash (withHashes (recordAll addsBefore)) =
      getBundleHash (withHashes (recordAll addsReordered)))
  /\ (~ Permutation (JsMap.values (recordAll addsBefore))
                    (JsMap.values (recordAll addsEdited))
      /\ getBundleHash (withHashes (recordAll addsBefore)) <>
         getBundleHash (withHashes (recordAll addsEdited))).
Proof.
  assert (P : Permutation addsBefore addsReordered) by apply perm_swap.
  assert (NP : ~ Permutation (JsMap.values (recordAll addsBefore))
                             (JsMap.values (recordAll addsEdited))).
  { intros Q. apply sort_permutation_eq in Q. vm_compute in Q. discriminate. }
  assert (NC : hashContent (bundleHashInput (withHashes (recordAll addsBefore))) =
               hashContent (bundleHashInput (withHashes (recordAll addsEdited))) ->
               bundleHashInput (withHashes (recordAll addsBefore)) =
               bundleHashInput (withHashes (recordAll addsEdited))).
  { intros Q. vm_compute in Q. discriminate. }
  split.
  - split; [exact addsBefore_functional|]. split; [exact P|].
    exact (proj1 (proj2 (proj2 (proj2
             (getBundleHash_order_and_content addsBefore addsReordered))))
                 addsBefore_functional P).
  - split; [exact NP|].
    exact (proj2 (proj2 (proj2 (proj2 (proj2 (proj2
             (getBundleHash_order_and_content addsBefore addsEdited))))) NP) NC).
Defined.

(** C9, counterexample.  Two included files exchange their contents: the
    content of each has changed (and so has its content hash), yet the
    bundle hash is the same, because the paths do not enter it. *)
Lemma bundle_hash_blind_to_exchanged_contents :
  contentChanged addsBefore addsSwapped
  /\ hashContent (lit "export const a = 1") <> hashContent (lit "export const b = 2")
  /\ getBundleHash (withHashes (recordAll addsBefore)) =
     getBundleHash (withHashes (recordAll addsSwapped)).
Proof.
  split; [split; [reflexivity|intros E; vm_compute in E; discriminate]|].
  split; [intros E; vm_compute in E; discriminate|].
  vm_compute. reflexivity.
Qed.

End BundleHashClaims.

(** ** Regular expressions: the fuel of the loops is enough *)

Section RegexFacts.

Import Regex.

Lemma starLoop_ext
    (step : jsstring -> captures -> continuation -> option (jsstring * captures)) :
  (forall s c k1 k2, (forall s' c', k1 s' c' = k2 s' c') ->
                     step s c k1 = step s c k2) ->
  forall fuel k1 k2 s c,
    (forall s' c', k1 s' c' = k2 s' c') ->
    starLoop step k1 fuel s c = starLoop step k2 fuel s c.
Proof.
  intros Hstep. induction fuel as [|fuel IH]; intros k1 k2 s c H; simpl.
  - apply H.
  - rewrite (Hstep s c _
      (fun s' c' => if (length s' <? length s)%nat
                    then starLoop step k2 fuel s' c' else None)).
    + now rewrite H.
    + intros s' c'. destruct (length s' <? length s)%nat; [now apply IH|reflexivity].
Qed.

(** The matcher only looks at what its continuation answers. *)
Lemma rmatch_ext (r : regex) :
  forall s c k1 k2, (forall s' c', k1 s' c' = k2 s' c') ->
                    rmatch r s c k1 = rmatch r s c k2.
Proof.
  induction r as [p| |r1 IH1 r2 IH2|r1 IH1 r2 IH2|r1 IH1|i r1 IH1|i];
    intros s c k1 k2 H; simpl.
  - destruct s as [|x s]; [reflexivity|]. destruct (p x); [apply H|reflexivity].
  - apply H.
  - apply IH1. intros s' c'. now apply IH2.
  - now rewrite (IH1 s c k1 k2 H), (IH2 s c k1 k2 H).
  - now apply starLoop_ext.
  - apply IH1. intros s' c'. apply H.
  - destruct (capture i c); [|apply H].
    destruct (startsWith s j); [apply H|reflexivity].
Qed.

(** It succeeds only through its continuation. *)
Lemma rmatch_none (r : regex) :
  forall s c, rmatch r s c (fun _ _ => None) = None.
Proof.
  induction r as [p| |r1 IH1 r2 IH2|r1 IH1 r2 IH2|r1 IH1|i r1 IH1|i];
    intros s c; simpl.
  - destruct s as [|x s]; [reflexivity|]. now destruct (p x).
  - reflexivity.
  - rewrite (rmatch_ext r1 s c _ (fun _ _ => None)); [apply IH1|].
    intros s' c'. apply IH2.
  - now rewrite IH1, IH2.
  - generalize (length s) at 1. intros fuel. revert s c.
    induction fuel as [|fuel IHf]; intros s c; simpl; [reflexivity|].
    rewrite (rmatch_ext r1 s c _ (fun _ _ => None)); [now rewrite IH1|].
    intros s' c'. destruct (length s' <? length s)%nat; [apply IHf|reflexivity].
  - apply IH1.
  - destruct (capture i c); [|reflexivity]. now destruct (startsWith s j).
Qed.

(** More fuel than the length of the subject changes nothing for a star. *)
Lemma starLoop_fuel (r : regex) (k : continuation) :
  forall fuel fuel' s c,
    (length s <= fuel)%nat -> (length s <= fuel')%nat ->
    starLoop (rmatch r) k fuel s c = starLoop (rmatch r) k fuel' s c.
Proof.
  assert (Hempty : forall fuel c, starLoop (rmatch r) k fuel [] c = k [] c).
  { intros [|fuel] c; simpl; [reflexivity|]. now rewrite rmatch_none. }
  induction fuel as [|fuel IH]; intros fuel' s c H H'.
  - destruct s; [|simpl in H; lia]. now rewrite !Hempty.
  - destruct fuel' as [|fuel'].
    + destruct s; [|simpl in H'; lia]. now rewrite !Hempty.
    + simpl.
      rewrite (rmatch_ext r s c _
        (fun s' c' => if (length s' <? length s)%nat
                      then starLoop (rmatch r) k fuel' s' c' else None));
        [reflexivity|].
      intros s' c'. destruct (Nat.ltb_spec (length s') (length s)); [|reflexivity].
      apply IH; lia.
Qed.

(** A match consumes at least [minLen r] code units. *)
Lemma rmatch_consumes (r : regex) :
  forall s c k res,
    rmatch r s c k = Some res ->
    exists s' c', k s' c' = Some res /\ (length s' + minLen r <= length s)%nat.
Proof.
  induction r as [p| |r1 IH1 r2 IH2|r1 IH1 r2 IH2|r1 IH1|i r1 IH1|i];
    intros s c k res; simpl.
  - destruct s as [|x s]; [discriminate|]. destruct (p x); [|discriminate].
    intros H. exists s, c. split; [exact H|simpl; lia].
  - intros H. exists s, c. split; [exact H|lia].
  - intros H. apply IH1 in H as (s1 & c1 & H & L1).
    apply IH2 in H as (s2 & c2 & H & L2).
    exists s2, c2. split; [exact H|lia].
  - destruct (rmatch r1 s c k) as [res1|] eqn:E.
    + intros [= <-]. apply IH1 in E as (s1 & c1 & H & L1).
      exists s1, c1. split; [exact H|lia].
    + intros H. apply IH2 in H as (s2 & c2 & H & L2).
      exists s2, c2. split; [exact H|lia].
  - generalize (length s) at 1. intros fuel. revert s c.
    induction fuel as [|fuel IHf]; intros s c; simpl.
    + intros H. exists s, c. split; [exact H|lia].
    + destruct (rmatch r1 s c _) as [res1|] eqn:E.
      * intros [= <-]. apply IH1 in E as (s1 & c1 & H & L1).
        destruct (Nat.ltb_spec (length s1) (length s)); [|discriminate].
        apply IHf in H as (s2 & c2 & H & L2).
        exists s2, c2. split; [exact H|lia].
      * intros H. exists s, c. split; [exact H|lia].
  - intros H. apply IH1 in H as (s1 & c1 & H & L1).
    eexists _, _. split; [exact H|exact L1].
  - destruct (capture i c) as [t|].
    + destruct (startsWith s t); [|discriminate].
      intros H. eexists _, _. split; [exact H|]. rewrite length_skipn. lia.
    + intros H. exists s, c. split; [exact H|lia].
Qed.

Lemma matchAt_span (r : regex) (s t : jsstring) (c : captures) :
  matchAt r s = Some (t, c) ->
  (minLen r <= length t)%nat /\ (length t <= length s)%nat
  /\ length (skipn (length t) s) = (length s - length t)%nat.
Proof.
  unfold matchAt.
  destruct (rmatch r s [] _) as [[rest c0]|] eqn:E; [|discriminate].
  intros [= <- <-].
  apply rmatch_consumes in E as (s' & c' & [= -> ->] & L).
  rewrite length_firstn, length_skipn. lia.
Qed.

Lemma searchFrom_bounds (r : regex) :
  forall s i idx t c,
    searchFrom r s i = Some (idx, t, c) ->
    (i <= idx)%nat /\ (idx + length t <= i + length s)%nat
    /\ (minLen r <= length t)%nat.
Proof.
  induction s as [|x s IH]; intros i idx t c; simpl.
  - destruct (matchAt r []) as [[t0 c0]|] eqn:E; [|discriminate].
    intros [= <- <- <-]. apply matchAt_span in E. simpl in *. lia.
  - destruct (matchAt r (x :: s)) as [[t0 c0]|] eqn:E.
    + intros [= <- <- <-]. apply matchAt_span in E. simpl in *. lia.
    + intros H. apply IH in H. simpl. lia.
Qed.

(** With a pattern that cannot match the empty string, [lastIndex] moves on
    at every turn of the loop, and any fuel above the number of code units
    left gives the same matches. *)
Lemma execLoop_fuel (r : regex) (content : jsstring) :
  (1 <= minLen r)%nat ->
  forall fuel fuel' lastIndex,
    (lastIndex <= length content)%nat ->
    (length content - lastIndex < fuel)%nat ->
    (length content - lastIndex < fuel')%nat ->
    execLoop fuel r content lastIndex = execLoop fuel' r content lastIndex.
Proof.
  intros Hmin. induction fuel as [|fuel IH]; intros fuel' last Hl H H'; [lia|].
  destruct fuel' as [|fuel']; [lia|]. simpl.
  destruct (searchFrom r (skipn last content) last) as [[[idx t] c]|] eqn:E;
    [|reflexivity].
  apply searchFrom_bounds in E. rewrite length_skipn in E.
  f_equal. apply IH; lia.
Qed.

Lemma replaceLoop_fuel (r : regex) (repl : captures -> jsstring) :
  forall fuel fuel' s,
    (length s < fuel)%nat -> (length s < fuel')%nat ->
    replaceLoop fuel r repl s = replaceLoop fuel' r repl s.
Proof.
  induction fuel as [|fuel IH]; intros fuel' s H H'; [lia|].
  destruct fuel' as [|fuel']; [lia|]. simpl.
  destruct (matchAt r s) as [[[|x t] c]|] eqn:E.
  - destruct s as [|y s]; [reflexivity|]. simpl in *. do 2 f_equal. apply IH; lia.
  - apply matchAt_span in E. f_equal.
    destruct s as [|y s]; [simpl in E; lia|].
    apply IH; simpl in *; rewrite length_skipn; lia.
  - destruct s as [|y s]; [reflexivity|]. simpl in *. f_equal. apply IH; lia.
Qed.

(** None of the secret patterns matches the empty string. *)
Lemma secret_patterns_consume :
  forallb (fun pt => (1 <=? minLen (fst pt))%nat) Scanner.SECRET_PATTERNS = true.
Proof. vm_compute. reflexivity. Qed.

Lemma execAll_fuel (pt : regex * Scanner.SecretType) (content : jsstring) (fuel : nat) :
  In pt Scanner.SECRET_PATTERNS -> (length content < fuel)%nat ->
  execLoop fuel (fst pt) content 0 = execAll (fst pt) content.
Proof.
  intros Hin Hf. unfold execAll.
  pose proof secret_patterns_consume as Hc. rewrite forallb_forall in Hc.
  specialize (Hc pt Hin). apply Nat.leb_le in Hc.
  apply execLoop_fuel; try assumption; lia.
Qed.

End RegexFacts.

(** ** Secret scanner *)

Section ScannerClaims.

Import Scanner ScannerSpec.

Lemma toLowerCase_app (s t : jsstring) :
  toLowerCase (s ++ t) = toLowerCase s ++ toLowerCase t.
Proof. unfold toLowerCase. apply flat_map_app. Qed.

Lemma includes_toLowerCase (s m : jsstring) :
  includes s m = true -> includes (toLowerCase s) (toLowerCase m) = true.
Proof.
  rewrite !includes_occurs. intros (pre & post & ->).
  exists (toLowerCase pre), (toLowerCase post). now rewrite !toLowerCase_app.
Qed.

Lemma endsWith_toLowerCase (s m : jsstring) :
  endsWith s m = true -> endsWith (toLowerCase s) (toLowerCase m) = true.
Proof.
  unfold endsWith. intros H. apply startsWith_inv in H.
  apply (f_equal (@rev char)) in H.
  rewrite rev_involutive, rev_app_distr, rev_involutive in H.
  rewrite H, toLowerCase_app, rev_app_distr. apply startsWith_app.
Qed.

Lemma exampleNamed_isExampleFile (file content : jsstring) :
  exampleNamed file = true -> isExampleFile file content = true.
Proof.
  unfold exampleNamed, isExampleFile. intros H.
  apply orb_true_iff in H as [H|H]; [apply orb_true_iff in H as [H|H];
    [apply orb_true_iff in H as [H|H]|]|].
  - apply includes_toLowerCase in H.
    change (toLowerCase (lit ".example")) with (lit ".example") in H.
    now rewrite H.
  - apply includes_toLowerCase in H.
    change (toLowerCase (lit ".template")) with (lit ".template") in H.
    rewrite H. repeat (destruct (includes _ _); try reflexivity).
  - apply includes_toLowerCase in H.
    change (toLowerCase (lit ".sample")) with (lit ".sample") in H.
    rewrite H. repeat (destruct (includes _ _); try reflexivity).
  - apply endsWith_toLowerCase in H.
    change (toLowerCase (lit ".md")) with (lit ".md") in H.
    rewrite H. repeat (destruct (includes _ _); try reflexivity).
Qed.

(** C5 (as amended).  For every file whose name contains [.example],
    [.template] or [.sample], or ends in [.md], the content rules are
    exempted entirely: [scanContent] reports nothing, whatever the content.
    [scanForSecrets] reports no issue for such a file unless its name is a
    dangerous one, in which case it reports the one [sensitive_file] issue
    of the name check and never reads the content. *)
Theorem example_files_skip_content_rules (repo : Repo) (file : jsstring) :
  exampleNamed file = true ->
  (forall content, scanContent file content = [])
  /\ (isDangerousFile file = false ->
      scanForSecrets repo [file] = {| safe := true; issues := [] |})
  /\ (isDangerousFile file = true ->
      scanForSecrets repo [file] =
        {| safe := false; issues := [sensitiveFileIssue file] |}).
Proof.
  intros H.
  assert (Hc : forall content, scanContent file content = []).
  { intros content. unfold scanContent.
    now rewrite (exampleNamed_isExampleFile file content H). }
  split; [exact Hc|].
  unfold scanForSecrets, scanFile. cbn [fold_left app].
  split; intros ->; [|reflexivity].
  destruct (readFile repo file) as [f|]; [|reflexivity].
  now rewrite Hc.
Qed.

Lemma example_files_skip_content_rules_witness :
  exampleNamed (lit "docs/setup.md") = true
  /\ isDangerousFile (lit "docs/setup.md") = false
  /\ scanForSecrets leakRepo [lit "docs/setup.md"] = {| safe := true; issues := [] |}.
Proof.
  assert (H1 : exampleNamed (lit "docs/setup.md") = true) by (vm_compute; reflexivity).
  assert (H2 : isDangerousFile (lit "docs/setup.md") = false) by (vm_compute; reflexivity).
  split; [exact H1|]. split; [exact H2|].
  exact (proj1 (proj2 (example_files_skip_content_rules leakRepo (lit "docs/setup.md") H1)) H2).
Defined.

(** C5, counterexample.  The name [.env.example] contains [.example], and
    scanning the file yields one issue, not zero: its name is a dangerous
    one. *)
Lemma env_example_is_reported :
  exampleNamed (lit ".env.example") = true
  /\ issues (scanForSecrets leakRepo [lit ".env.example"]) =
       [sensitiveFileIssue (lit ".env.example")]
  /\ safe (scanForSecrets leakRepo [lit ".env.example"]) = false.
Proof. vm_compute. repeat split; reflexivity. Qed.

(** C6.  The scanner reports the password of [src/config.ts], and the
    snippet of the issue is the trimmed line as it stands: [maskSecret]
    leaves the password in it. *)
Theorem password_left_in_snippet :
  issues (scanForSecrets leakRepo [lit "src/config.ts"]) =
    [ {| file := lit "src/config.ts"; line := 2; type := password;
         snippet := passwordLine |} ]
  /\ includes passwordLine (lit "Tr0ub4dor&3-horse") = true.
Proof. vm_compute. split; reflexivity. Qed.

End ScannerClaims.

(** * Further properties *)

(** ** Region parser: look-ups after writes *)

Section RegionMore.

Import Region RegionSpec Commands ExtraSpec.

Lemma startsWith_extends (x y m : jsstring) :
  startsWith x m = true -> startsWith (x ++ y) m = true.
Proof.
  intros H. apply startsWith_inv in H. rewrite H, <- app_assoc.
  apply startsWith_app.
Qed.

Lemma find_extends (x y m : jsstring) (i : nat) :
  find x m = Some i -> find (x ++ y) m = Some i.
Proof.
  revert i; induction x as [|a x IH]; intros i; simpl.
  - destruct (startsWith [] m) eqn:E; [|discriminate]. intros [= <-].
    destruct m; [|discriminate]. now destruct y.
  - destruct (startsWith (a :: x) m) eqn:E.
    + intros [= <-].
      pose proof (startsWith_extends (a :: x) y m E) as E'.
      change ((a :: x) ++ y) with (a :: x ++ y) in E'. now rewrite E'.
    + destruct (find x m) as [j|] eqn:F; [|discriminate]. intros [= <-].
      destruct (startsWith (a :: x ++ y) m) eqn:E'.
      * exfalso. pose proof (find_Some_bound _ _ _ F) as B.
        change (a :: x ++ y) with ((a :: x) ++ y) in E'.
        rewrite (startsWith_app_long (a :: x) y m E') in E; [discriminate|].
        simpl. lia.
      * now rewrite (IH j eq_refl).
Qed.

Lemma find_prefix_Some (x y m : jsstring) (i : nat) :
  find (x ++ y) m = Some i -> (i + length m <= length x)%nat ->
  find x m = Some i.
Proof.
  revert i; induction x as [|a x IH]; intros i; simpl.
  - intros _ H. assert (i = 0%nat) by lia. subst.
    destruct m; [reflexivity|simpl in H; lia].
  - destruct (startsWith (a :: x ++ y) m) eqn:E.
    + intros [= <-] H.
      change (a :: x ++ y) with ((a :: x) ++ y) in E.
      now rewrite (startsWith_app_long (a :: x) y m E H).
    + destruct (find (x ++ y) m) as [j|] eqn:F; [|discriminate].
      intros [= <-] H.
      destruct (startsWith (a :: x) m) eqn:E'.
      * pose proof (startsWith_extends (a :: x) y m E') as E2.
        change ((a :: x) ++ y) with (a :: x ++ y) in E2. congruence.
      * rewrite (IH j eq_refl); [reflexivity|lia].
Qed.

(** An occurrence cannot cross a code unit that the pattern does not hold. *)
Lemma find_across_separator (m x y : jsstring) (c : char) :
  m <> [] -> ~ In c m ->
  find (x ++ c :: y) m =
    match find x m with
    | Some i => Some i
    | None => option_map (fun i => (length x + 1 + i)%nat) (find y m)
    end.
Proof.
  intros Hm Hc. induction x as [|a x IH].
  - simpl. destruct m as [|b m]; [congruence|].
    destruct (N.eqb_spec b c) as [->|Hne]; [exfalso; apply Hc; now left|].
    simpl. rewrite (proj2 (N.eqb_neq b c) Hne). simpl.
    destruct (find y (b :: m)); reflexivity.
  - change ((a :: x) ++ c :: y) with (a :: (x ++ c :: y)).
    cbn [find]. rewrite IH.
    assert (E : startsWith (a :: x ++ c :: y) m = startsWith (a :: x) m).
    { destruct (startsWith (a :: x) m) eqn:E1.
      - apply (startsWith_extends (a :: x) (c :: y) m E1).
      - destruct (startsWith (a :: x ++ c :: y) m) eqn:E2; [|reflexivity].
        exfalso. change (a :: x ++ c :: y) with ((a :: x) ++ c :: y) in E2.
        destruct (le_lt_dec (length m) (length (a :: x))) as [Hl|Hl].
        + rewrite (startsWith_app_long _ _ _ E2 Hl) in E1. discriminate.
        + pose proof (startsWith_nth _ _ (length (a :: x)) c E2 Hl) as Hn.
          rewrite app_nth2, Nat.sub_diag in Hn by lia. simpl nth at 1 in Hn.
          apply Hc. rewrite Hn. now apply nth_In. }
    rewrite E. destruct (startsWith (a :: x) m); [reflexivity|].
    destruct (find x m) as [i|]; [reflexivity|].
    destruct (find y m) as [j|]; [|reflexivity].
    simpl. reflexivity.
Qed.

Lemma find_not_in_prefix (x y m : jsstring) (e : nat) :
  m <> [] -> find (x ++ y) m = Some e -> (length x <= e)%nat ->
  find x m = None.
Proof.
  intros Hm H Hl. destruct (find x m) as [i|] eqn:F; [|reflexivity].
  exfalso. pose proof (find_Some_bound _ _ _ F) as B.
  rewrite (find_extends x y m i F) in H. injection H as <-.
  destruct m; [congruence|simpl in B; lia].
Qed.

Lemma newline_not_in_end : ~ In 10%N END_MARKER.
Proof.
  intros H. vm_compute in H.
  repeat (destruct H as [H|H]; [discriminate|]). exact H.
Qed.

Lemma skipn_past (x t : jsstring) (n : nat) :
  skipn (length x + n) (x ++ t) = skipn n t.
Proof. induction x as [|a x IH]; simpl; [reflexivity|exact IH]. Qed.

(** Where the markers stand once a region has been written. *)
Lemma indices_after_write (head body tail : jsstring) (b : nat) :
  find (head ++ BEGIN_MARKER) BEGIN_MARKER = Some b ->
  length head = b ->
  find (head ++ BEGIN_MARKER) END_MARKER = None ->
  find body END_MARKER = None ->
  let written := (head ++ BEGIN_MARKER) ++ nl ++ body ++ nl ++ END_MARKER ++ tail in
  find written BEGIN_MARKER = Some b
  /\ find written END_MARKER =
       Some (length (head ++ BEGIN_MARKER) + 1 + (length body + 1 + 0))%nat.
Proof.
  intros Hb Hlen He Hbody written. unfold written. split.
  - now apply find_extends.
  - change (nl ++ body ++ nl ++ END_MARKER ++ tail)
      with (10%N :: (body ++ 10%N :: (END_MARKER ++ tail))).
    rewrite (find_across_separator END_MARKER _ _ 10%N);
      [|discriminate|exact newline_not_in_end].
    rewrite He.
    rewrite (find_across_separator END_MARKER _ _ 10%N);
      [|discriminate|exact newline_not_in_end].
    rewrite Hbody.
    assert (E : find (END_MARKER ++ tail) END_MARKER = Some 0%nat).
    { apply find_extends. vm_compute. reflexivity. }
    rewrite E. reflexivity.
Qed.

Lemma dropWhile_fixed_trim (s : jsstring) :
  dropWhile isWhiteSpace (trim s) = trim s
  /\ dropWhile isWhiteSpace (rev (trim s)) = rev (trim s).
Proof.
  pose proof (trim_idem s) as H. unfold trim at 1, trimStart, trimEnd in H.
  unfold trim, trimStart, trimEnd.
  set (v := rev (dropWhile isWhiteSpace (rev s))).
  assert (Hv : dropWhile isWhiteSpace (rev v) = rev v).
  { unfold v. rewrite rev_involutive. apply dropWhile_idem. }
  split; [apply dropWhile_idem|]. now apply dropWhile_keeps_end.
Qed.

(** A trimmed text set between two newlines trims back to itself. *)
Lemma trim_between_newlines (s : jsstring) :
  trim (nl ++ trim s ++ nl) = trim s.
Proof.
  destruct (dropWhile_fixed_trim s) as [Hs He].
  generalize dependent (trim s). intros u Hs He.
  assert (D : forall t, dropWhile isWhiteSpace (10%N :: t) = dropWhile isWhiteSpace t)
    by reflexivity.
  assert (R1 : rev (nl ++ u ++ nl) = 10%N :: (rev u ++ [10%N])).
  { unfold nl. rewrite rev_app_distr, rev_app_distr. reflexivity. }
  unfold trim, trimStart, trimEnd. rewrite R1, D.
  destruct (rev u) as [|a r] eqn:R.
  - assert (u = []) by (rewrite <- (rev_involutive u), R; reflexivity).
    subst u. reflexivity.
  - rewrite (dropWhile_app_keep isWhiteSpace (a :: r) [10%N]);
      [|discriminate|exact He].
    rewrite rev_app_distr. change (rev [10%N]) with [10%N].
    change ([10%N] ++ rev (a :: r)) with (10%N :: rev (a :: r)).
    rewrite D, <- R, rev_involutive. exact Hs.
Qed.

Lemma written_parts (doc : jsstring) :
  (0 <= beginIdx doc < endIdx doc)%Z ->
  exists b e,
    find doc BEGIN_MARKER = Some b /\ find doc END_MARKER = Some e
    /\ (b + length BEGIN_MARKER <= e)%nat
    /\ firstn (b + length BEGIN_MARKER) doc = firstn b doc ++ BEGIN_MARKER
    /\ skipn e doc = END_MARKER ++ skipn (e + length END_MARKER) doc
    /\ find (firstn b doc ++ BEGIN_MARKER) BEGIN_MARKER = Some b
    /\ length (firstn b doc) = b
    /\ find (firstn b doc ++ BEGIN_MARKER) END_MARKER = None.
Proof.
  intros H.
  destruct (parts_in_order doc H) as (b & e & Hb & He & Hov & Hbound & _).
  assert (Hlt : (b < e)%nat)
    by (change (length BEGIN_MARKER) with 23%nat in Hov; lia).
  destruct (split_at_markers doc b e Hb He Hlt) as (Hdoc & Hfb & Hse).
  pose proof (find_Some_bound _ _ _ Hb) as Bb.
  assert (Hl : length (firstn b doc) = b) by (rewrite length_firstn; lia).
  exists b, e. repeat split; try assumption.
  - rewrite <- Hfb. apply (find_prefix_Some _ (skipn (b + length BEGIN_MARKER) doc)).
    + now rewrite firstn_skipn.
    + rewrite length_firstn. lia.
  - rewrite <- Hfb.
    apply (find_not_in_prefix _ (skipn (b + length BEGIN_MARKER) doc) _ e).
    + discriminate.
    + now rewrite firstn_skipn.
    + rewrite length_firstn. lia.
Qed.

(** X1.  [extractRegion] yields [null] exactly when one of the two markers
    does not occur in the document; what it yields otherwise is trimmed. *)
Theorem extractRegion_null_iff_marker_absent (doc : jsstring) :
  (extractRegion doc = None <->
   ~ occurs BEGIN_MARKER doc \/ ~ occurs END_MARKER doc)
  /\ (forall r, extractRegion doc = Some r -> trim r = r).
Proof.
  unfold extractRegion. split.
  - rewrite <- !indexOf_absent.
    destruct (Z.eqb_spec (indexOf doc BEGIN_MARKER) (-1)) as [E1|E1];
      destruct (Z.eqb_spec (indexOf doc END_MARKER) (-1)) as [E2|E2];
      cbn [orb]; split; auto; try discriminate.
    intros [H|H]; contradiction.
  - intros r.
    destruct ((indexOf doc BEGIN_MARKER =? -1)%Z || (indexOf doc END_MARKER =? -1)%Z);
      [discriminate|].
    intros [= <-]. apply trim_idem.
Qed.

(** X2.  Reading back what was written: when the first [BEGIN] precedes the
    first [END] and the trimmed new content does not hold an [END] marker,
    [extractRegion] of the replaced document is the trimmed new content. *)
Theorem extractRegion_after_replaceRegion (doc newContent : jsstring) :
  (0 <= beginIdx doc < endIdx doc)%Z ->
  includes (trim newContent) END_MARKER = false ->
  exists written,
    replaceRegion doc newContent = Ok written
    /\ extractRegion written = Some (trim newContent).
Proof.
  intros H Hn.
  destruct (written_parts doc H)
    as (b & e & Hb & He & Hov & Hfb & Hse & Fb & Hl & Fe).
  assert (Hbody : find (trim newContent) END_MARKER = None).
  { unfold includes in Hn. destruct (find (trim newContent) END_MARKER);
      [discriminate|reflexivity]. }
  eexists. split.
  - rewrite (replaceRegion_at doc newContent b e Hb He), Hfb, Hse. reflexivity.
  - destruct (indices_after_write (firstn b doc) (trim newContent)
                (skipn (e + length END_MARKER) doc) b Fb Hl Fe Hbody) as [Ib Ie].
    rewrite (extractRegion_at _ b _ Ib Ie). f_equal.
    rewrite substring_inside.
    + replace (b + length BEGIN_MARKER)%nat
        with (length (firstn b doc ++ BEGIN_MARKER) + 0)%nat
        by (rewrite length_app, Hl; lia).
      rewrite skipn_past. cbn [skipn].
      replace (length (firstn b doc ++ BEGIN_MARKER) + 1
               + (length (trim newContent) + 1 + 0)
               - (length (firstn b doc ++ BEGIN_MARKER) + 0))%nat
        with (length (nl ++ trim newContent ++ nl))
        by (repeat rewrite length_app; change (length nl) with 1%nat; lia).
      assert (A : forall t, nl ++ trim newContent ++ nl ++ t
                            = (nl ++ trim newContent ++ nl) ++ t)
        by (intros t; now rewrite <- !app_assoc).
      rewrite A, firstn_exact.
      apply trim_between_newlines.
    + repeat rewrite length_app. change (length nl) with 1%nat. lia.
Qed.

Lemma extractRegion_after_replaceRegion_witness :
  (0 <= beginIdx sampleDoc < endIdx sampleDoc)%Z
  /\ includes (trim (lit "  ## New Insights ")) END_MARKER = false
  /\ exists written,
       replaceRegion sampleDoc (lit "  ## New Insights ") = Ok written
       /\ extractRegion written = Some (trim (lit "  ## New Insights ")).
Proof.
  assert (H : (0 <= beginIdx sampleDoc < endIdx sampleDoc)%Z)
    by (vm_compute; split; [discriminate|reflexivity]).
  assert (Hn : includes (trim (lit "  ## New Insights ")) END_MARKER = false)
    by (vm_compute; reflexivity).
  split; [exact H|]. split; [exact Hn|].
  exact (extractRegion_after_replaceRegion sampleDoc (lit "  ## New Insights ") H Hn).
Defined.

(** X3.  The last write wins: under the same two conditions, replacing the
    region a second time gives what replacing it once with the second
    content gives. *)
Theorem replaceRegion_last_write_wins (doc first second : jsstring) :
  (0 <= beginIdx doc < endIdx doc)%Z ->
  includes (trim first) END_MARKER = false ->
  exists written,
    replaceRegion doc first = Ok written
    /\ replaceRegion written second = replaceRegion doc second.
Proof.
  intros H Hn.
  destruct (written_parts doc H)
    as (b & e & Hb & He & Hov & Hfb & Hse & Fb & Hl & Fe).
  assert (Hbody : find (trim first) END_MARKER = None).
  { unfold includes in Hn. destruct (find (trim first) END_MARKER);
      [discriminate|reflexivity]. }
  eexists. split.
  - rewrite (replaceRegion_at doc first b e Hb He), Hfb, Hse. reflexivity.
  - destruct (indices_after_write (firstn b doc) (trim first)
                (skipn (e + length END_MARKER) doc) b Fb Hl Fe Hbody) as [Ib Ie].
    rewrite (replaceRegion_at _ second b _ Ib Ie).
    rewrite (replaceRegion_at doc second b e Hb He), Hfb, Hse.
    f_equal. f_equal; [|f_equal; f_equal; f_equal].
    + replace (b + length BEGIN_MARKER)%nat
        with (length (firstn b doc ++ BEGIN_MARKER))
        by (rewrite length_app, Hl; lia).
      apply firstn_exact.
    + replace (length (firstn b doc ++ BEGIN_MARKER) + 1
               + (length (trim first) + 1 + 0))%nat
        with (length ((firstn b doc ++ BEGIN_MARKER) ++ nl ++ trim first ++ nl) + 0)%nat
        by (repeat rewrite length_app; change (length nl) with 1%nat; lia).
      assert (A : forall h t, h ++ nl ++ trim first ++ nl ++ t
                              = (h ++ nl ++ trim first ++ nl) ++ t)
        by (intros h t; now rewrite <- !app_assoc).
      rewrite A, skipn_past. reflexivity.
Qed.

Lemma replaceRegion_last_write_wins_witness :
  (0 <= beginIdx sampleDoc < endIdx sampleDoc)%Z
  /\ includes (trim (lit "one")) END_MARKER = false
  /\ exists written,
       replaceRegion sampleDoc (lit "one") = Ok written
       /\ replaceRegion written (lit "two") = replaceRegion sampleDoc (lit "two").
Proof.
  assert (H : (0 <= beginIdx sampleDoc < endIdx sampleDoc)%Z)
    by (vm_compute; split; [discriminate|reflexivity]).
  assert (Hn : includes (trim (lit "one")) END_MARKER = false)
    by (vm_compute; reflexivity).
  split; [exact H|]. split; [exact Hn|].
  exact (replaceRegion_last_write_wins sampleDoc (lit "one") (lit "two") H Hn).
Defined.

End RegionMore.

(** ** Region parser: the default region and the apply command *)

Section ApplyMore.

Import Region RegionSpec Commands ExtraSpec.

Lemma firstn_past (x t : jsstring) (n : nat) :
  firstn (length x + n) (x ++ t) = x ++ firstn n t.
Proof. induction x as [|a x IH]; simpl; [reflexivity|now rewrite IH]. Qed.

Lemma substring_past (x t : jsstring) (a c : nat) :
  substring (x ++ t) (Z.of_nat (length x + a)) (Z.of_nat (length x + c))
  = substring t (Z.of_nat a) (Z.of_nat c).
Proof.
  unfold substring. rewrite length_app.
  set (n := length x). set (k := length t).
  replace (Z.to_nat
             (Z.min (Z.min (Z.max (Z.of_nat (n + a)) 0) (Z.of_nat (n + k)))
                    (Z.min (Z.max (Z.of_nat (n + c)) 0) (Z.of_nat (n + k)))))
    with (n + Z.to_nat
             (Z.min (Z.min (Z.max (Z.of_nat a) 0) (Z.of_nat k))
                    (Z.min (Z.max (Z.of_nat c) 0) (Z.of_nat k))))%nat by lia.
  subst n k. rewrite skipn_past. f_equal. lia.
Qed.

Lemma find_after_clean_prefix (m x t : jsstring) :
  m <> [] -> ~ In 10%N m -> find x m = None ->
  find (x ++ 10%N :: t) m = option_map (fun i => (length x + 1 + i)%nat) (find t m)
  /\ find (10%N :: t) m = option_map (fun i => (1 + i)%nat) (find t m).
Proof.
  intros Hm Hc Hx. split.
  - pose proof (find_across_separator m x t 10%N Hm Hc) as H.
    rewrite Hx in H. exact H.
  - pose proof (find_across_separator m [] t 10%N Hm Hc) as H.
    destruct m as [|b m]; [congruence|]. exact H.
Qed.

(** Text without markers in front of a newline is transparent to the two
    operations. *)
Lemma extractRegion_past_clean_prefix (x t : jsstring) :
  find x BEGIN_MARKER = None -> find x END_MARKER = None ->
  extractRegion (x ++ 10%N :: t) = extractRegion (10%N :: t).
Proof.
  intros Hb He. unfold extractRegion, indexOf.
  destruct (find_after_clean_prefix BEGIN_MARKER x t ltac:(discriminate)
              newline_not_in_begin Hb) as [B1 B2].
  destruct (find_after_clean_prefix END_MARKER x t ltac:(discriminate)
              newline_not_in_end He) as [E1 E2].
  rewrite B1, B2, E1, E2.
  destruct (find t BEGIN_MARKER) as [i|]; [|reflexivity].
  destruct (find t END_MARKER) as [j|]; cbn [option_map].
  - destruct (Z.eqb_spec (Z.of_nat (length x + 1 + i)) (-1)); [lia|].
    destruct (Z.eqb_spec (Z.of_nat (length x + 1 + j)) (-1)); [lia|].
    destruct (Z.eqb_spec (Z.of_nat (1 + i)) (-1)); [lia|].
    destruct (Z.eqb_spec (Z.of_nat (1 + j)) (-1)); [lia|].
    cbn [orb]. do 2 f_equal.
    rewrite <- !Nat2Z.inj_add.
    replace (length x + 1 + i + length BEGIN_MARKER)%nat
      with (length x + (1 + i + length BEGIN_MARKER))%nat by lia.
    replace (length x + 1 + j)%nat with (length x + (1 + j))%nat by lia.
    apply (substring_past x (10%N :: t)).
  - now rewrite !orb_true_r.
Qed.

Lemma replaceRegion_past_clean_prefix (x t newContent : jsstring) :
  find x BEGIN_MARKER = None -> find x END_MARKER = None ->
  replaceRegion (x ++ 10%N :: t) newContent =
    match replaceRegion (10%N :: t) newContent with
    | Ok r => Ok (x ++ r)
    | Throw message => Throw message
    end.
Proof.
  intros Hb He.
  destruct (find_after_clean_prefix BEGIN_MARKER x t ltac:(discriminate)
              newline_not_in_begin Hb) as [B1 B2].
  destruct (find_after_clean_prefix END_MARKER x t ltac:(discriminate)
              newline_not_in_end He) as [E1 E2].
  destruct (find t BEGIN_MARKER) as [i|] eqn:Fi; cbn [option_map] in *.
  - destruct (find t END_MARKER) as [j|] eqn:Fj; cbn [option_map] in *.
    + rewrite (replaceRegion_at _ newContent _ _ B1 E1).
      rewrite (replaceRegion_at _ newContent _ _ B2 E2).
      f_equal.
      replace (length x + 1 + i + length BEGIN_MARKER)%nat
        with (length x + (1 + i + length BEGIN_MARKER))%nat by lia.
      replace (length x + 1 + j)%nat with (length x + (1 + j))%nat by lia.
      rewrite firstn_past, skipn_past. now rewrite <- !app_assoc.
    + unfold replaceRegion, indexOf. rewrite E1, E2. now rewrite !orb_true_r.
  - unfold replaceRegion, indexOf. now rewrite B1, B2.
Qed.

Lemma trimEnd_clean (doc m : jsstring) :
  find doc m = None -> find (trimEnd doc) m = None.
Proof.
  intros H. destruct (trimEnd_prefix doc) as [w Hw].
  rewrite Hw in H. now apply find_None_prefix in H.
Qed.

Lemma includes_false_find (s m : jsstring) :
  includes s m = false <-> find s m = None.
Proof. unfold includes. destruct (find s m); split; congruence. Qed.

(** X4.  On a document without a [BEGIN] marker, [ensureRegion] keeps the
    document up to its trailing white space and appends the default block:
    the result holds both markers, and when the document had no [END]
    marker either, [extractRegion] of the result is the default insights
    text. *)
Theorem ensureRegion_appends_default (doc : jsstring) :
  includes doc BEGIN_MARKER = false ->
  ensureRegion doc = trimEnd doc ++ nl ++ nl ++ DEFAULT_REGION ++ nl
  /\ includes (ensureRegion doc) BEGIN_MARKER = true
  /\ includes (ensureRegion doc) END_MARKER = true
  /\ (includes doc END_MARKER = false ->
      extractRegion (ensureRegion doc) = Some defaultInsights).
Proof.
  intros Hb.
  assert (E : ensureRegion doc = trimEnd doc ++ nl ++ nl ++ DEFAULT_REGION ++ nl)
    by (unfold ensureRegion; now rewrite Hb).
  apply includes_false_find in Hb.
  split; [exact E|]. rewrite E. split; [|split].
  - apply includes_occurs.
    exists (trimEnd doc ++ nl ++ nl),
           (skipn (length BEGIN_MARKER) DEFAULT_REGION ++ nl).
    rewrite <- !app_assoc. reflexivity.
  - apply includes_occurs.
    exists (trimEnd doc ++ nl ++ nl
            ++ firstn (length DEFAULT_REGION - length END_MARKER) DEFAULT_REGION),
           nl.
    rewrite <- !app_assoc. reflexivity.
  - intros He. apply includes_false_find in He.
    change (nl ++ nl ++ DEFAULT_REGION ++ nl)
      with (10%N :: (nl ++ DEFAULT_REGION ++ nl)).
    rewrite extractRegion_past_clean_prefix by now apply trimEnd_clean.
    vm_compute. reflexivity.
Qed.

Lemma ensureRegion_appends_default_witness :
  includes plainDoc BEGIN_MARKER = false
  /\ includes plainDoc END_MARKER = false
  /\ extractRegion (ensureRegion plainDoc) = Some defaultInsights.
Proof.
  assert (H1 : includes plainDoc BEGIN_MARKER = false) by (vm_compute; reflexivity).
  assert (H2 : includes plainDoc END_MARKER = false) by (vm_compute; reflexivity).
  split; [exact H1|]. split; [exact H2|].
  exact (proj2 (proj2 (proj2 (ensureRegion_appends_default plainDoc H1))) H2).
Defined.

(** X5.  The apply command on a document without markers writes the
    document (less its trailing white space), a blank line and a region
    that holds the trimmed review; when [BEGIN] is present it is
    [replaceRegion] on the document as it is, so it throws when [END] is
    missing. *)
Theorem applyReview_cases (doc reviewContent : jsstring) :
  (includes doc BEGIN_MARKER = false -> includes doc END_MARKER = false ->
   applyReview doc reviewContent =
     Ok (trimEnd doc ++ nl ++ nl ++ BEGIN_MARKER ++ nl ++ trim reviewContent
         ++ nl ++ END_MARKER ++ nl))
  /\ (includes doc BEGIN_MARKER = true ->
      applyReview doc reviewContent = replaceRegion doc reviewContent)
  /\ (includes doc BEGIN_MARKER = true -> includes doc END_MARKER = false ->
      applyReview doc reviewContent = Throw markersNotFound).
Proof.
  unfold applyReview. split; [|split].
  - intros Hb He. unfold ensureRegion. rewrite Hb.
    apply includes_false_find in Hb, He.
    change (nl ++ nl ++ DEFAULT_REGION ++ nl)
      with (10%N :: (nl ++ DEFAULT_REGION ++ nl)).
    rewrite replaceRegion_past_clean_prefix by now apply trimEnd_clean.
    assert (Fb : find (10%N :: (nl ++ DEFAULT_REGION ++ nl)) BEGIN_MARKER
                 = Some 2%nat) by (vm_compute; reflexivity).
    assert (Fe : find (10%N :: (nl ++ DEFAULT_REGION ++ nl)) END_MARKER
                 = Some (length (nl ++ nl ++ DEFAULT_REGION) - length END_MARKER)%nat)
      by (vm_compute; reflexivity).
    rewrite (replaceRegion_at _ reviewContent _ _ Fb Fe).
    reflexivity.
  - intros Hb. unfold ensureRegion. now rewrite Hb.
  - intros Hb He. unfold ensureRegion. rewrite Hb.
    apply includes_false_find in He.
    unfold replaceRegion, indexOf. rewrite He. now rewrite orb_true_r.
Qed.

Lemma applyReview_cases_witness :
  (includes plainDoc BEGIN_MARKER = false /\ includes plainDoc END_MARKER = false
   /\ applyReview plainDoc (lit " review ") =
        Ok (trimEnd plainDoc ++ nl ++ nl ++ BEGIN_MARKER ++ nl
            ++ trim (lit " review ") ++ nl ++ END_MARKER ++ nl))
  /\ (includes onlyBeginDoc BEGIN_MARKER = true
      /\ includes onlyBeginDoc END_MARKER = false
      /\ applyReview onlyBeginDoc (lit " review ") = Throw markersNotFound).
Proof.
  assert (H1 : includes plainDoc BEGIN_MARKER = false) by (vm_compute; reflexivity).
  assert (H2 : includes plainDoc END_MARKER = false) by (vm_compute; reflexivity).
  assert (H3 : includes onlyBeginDoc BEGIN_MARKER = true) by (vm_compute; reflexivity).
  assert (H4 : includes onlyBeginDoc END_MARKER = false) by (vm_compute; reflexivity).
  split; (split; [assumption|split; [assumption|]]).
  - exact (proj1 (applyReview_cases plainDoc (lit " review ")) H1 H2).
  - exact (proj2 (proj2 (applyReview_cases onlyBeginDoc (lit " review "))) H3 H4).
Defined.

(** X6.  The review command never sends an empty region text: a missing
    region, and a region that is empty once trimmed, both give the
    first-review note; any other region gives its trimmed text. *)
Theorem regionContent_never_empty (doc : jsstring) :
  regionContent doc <> []
  /\ (extractRegion doc = None -> regionContent doc = noRegionYet)
  /\ (extractRegion doc = Some [] -> regionContent doc = noRegionYet)
  /\ (forall r, extractRegion doc = Some r -> r <> [] -> regionContent doc = r).
Proof.
  unfold regionContent. repeat split.
  - destruct (extractRegion doc) as [[|c r]|]; simpl; discriminate.
  - now intros ->.
  - now intros ->.
  - intros r -> Hr. destruct r; [congruence|reflexivity].
Qed.

End ApplyMore.

(** ** Bundle builder: content hashes, samples and the order of the docs *)

Section BuilderMore.

Import ContextBuilder BundleSpec ExtraSpec.

Variable repo : Repo.

(** What [addFile] keeps true, the whole build keeps true. *)
Lemma addAll_invariant (P : Builder -> Prop) (cfg : ContextConfig)
    (c : Category) (paths : list jsstring) :
  (forall p c st, P st -> P (fst (addFile cfg repo p c st))) ->
  forall st, P st -> P (addAll cfg repo c paths st).
Proof.
  intros Hadd. unfold addAll.
  induction paths as [|p paths IH]; intros st Hst; simpl; [exact Hst|].
  apply IH. now apply Hadd.
Qed.

Lemma addPriority_invariant (P : Builder -> Prop) (cfg : ContextConfig)
    (c : Category) (test : jsstring -> jsstring -> bool)
    (cands priority : list jsstring) :
  (forall p c st, P st -> P (fst (addFile cfg repo p c st))) ->
  forall st, P st -> P (addPriority cfg repo c test cands priority st).
Proof.
  intros Hadd. unfold addPriority.
  induction priority as [|w priority IH]; intros st Hst; simpl; [exact Hst|].
  apply IH. destruct (List.find (fun c0 => test c0 w) cands) as [m|]; [|exact Hst].
  destruct (truthy m); [now apply Hadd|exact Hst].
Qed.

Lemma build_invariant (P : Builder -> Prop) (index : RepoIndex)
    (config : PartialConfig) :
  (forall p c st, P st -> P (fst (addFile (mergeConfig config) repo p c st))) ->
  P freshBuilder ->
  exists st, buildAnalysisBundle repo index config = bundle st /\ P st.
Proof.
  intros Hadd H0. unfold buildAnalysisBundle. eexists. split; [reflexivity|].
  repeat first [ apply addAll_invariant; [exact Hadd|]
               | apply addPriority_invariant; [exact Hadd|] ].
  exact H0.
Qed.

Lemma keys_set (k v : jsstring) (m : JsMap.t) (q : jsstring) :
  In q (JsMap.keys (JsMap.set k v m)) <-> q = k \/ In q (JsMap.keys m).
Proof.
  induction m as [|[k' v'] m IH]; simpl.
  - split; [intros [H|[]]; now left|intros [H|[]]; now left].
  - destruct (Js.eqb k' k) eqn:E; simpl.
    + apply eqb_eq in E. subst k'. split; [intros [H|H]; auto|intros [H|[H|H]]; auto].
    + rewrite IH. split; [intros [H|[H|H]]; auto|intros [H|[H|H]]; auto].
Qed.

Lemma files_push (c : Category) (p q : jsstring) (b : AnalysisBundle) :
  In q (getBundleFiles (push c p b)) <-> q = p \/ In q (getBundleFiles b).
Proof.
  unfold getBundleFiles. destruct c; simpl; repeat rewrite in_app_iff; simpl;
    intuition (subst; auto).
Qed.

Lemma addFile_cover (cfg : ContextConfig) (p : jsstring) (c : Category)
    (st : Builder) :
  hashesCover repo (bundle st) ->
  hashesCover repo (bundle (fst (addFile cfg repo p c st))).
Proof.
  intros W. unfold addFile.
  destruct (readFile repo p) as [f|] eqn:R; [|exact W].
  destruct (gtNum (currentSize st + fileSize f) (maxTotalSize cfg)); [exact W|].
  destruct (gtNum (currentTokens st + tokensOf (fileContent f)) (maxTokens cfg));
    [exact W|].
  destruct (geNum (getTotalFiles (bundle st)) (maxFiles cfg)); [exact W|].
  destruct W as (N0 & F & H). cbn [fst bundle]. unfold hashesCover.
  cbn [contentHashes].
  change (contentHashes (push c p (bundle st))) with (contentHashes (bundle st)).
  split; [|split].
  - now apply set_keys_NoDup.
  - intros q. rewrite keys_set.
    change (In q (getBundleFiles (push c p (bundle st)))
            <-> q = p \/ In q (JsMap.keys (contentHashes (bundle st)))).
    rewrite files_push, F. reflexivity.
  - intros q h Hq. apply (set_In _ _ _ _ _ N0) in Hq.
    destruct Hq as [[-> ->]|[_ Hq]]; [now exists f|now apply H].
Qed.

(** X7.  The content hashes of a bundle cover its files: the keys of the
    map are the files of the five buckets, each once; every hash is
    [hashContent] of what the file holds, so every file of the bundle could
    be read; the map has no more entries than the buckets have paths. *)
Theorem bundle_hashes_cover_files (index : RepoIndex) (config : PartialConfig) :
  let b := buildAnalysisBundle repo index config in
  NoDup (JsMap.keys (contentHashes b))
  /\ (forall p, In p (getBundleFiles b) <-> In p (JsMap.keys (contentHashes b)))
  /\ (forall p h, In (p, h) (contentHashes b) ->
        exists f, readFile repo p = Some f /\ h = hashContent (fileContent f))
  /\ (forall p, In p (getBundleFiles b) -> readFile repo p <> None)
  /\ (length (contentHashes b) <= length (getBundleFiles b))%nat.
Proof.
  intros b.
  destruct (build_invariant (fun st => hashesCover repo (bundle st)) index config)
    as (st & E & N0 & F & H).
  - intros p c st. apply addFile_cover.
  - repeat split; simpl; try constructor; try tauto.
  - subst b. rewrite E. split; [exact N0|]. split; [exact F|]. split; [exact H|].
    split.
    + intros p Hp. apply F in Hp. unfold JsMap.keys in Hp.
      apply in_map_iff in Hp. destruct Hp as ([q h] & <- & Hq).
      destruct (H _ _ Hq) as (f & R & _). simpl. congruence.
    + rewrite <- (length_map fst (contentHashes (bundle st))).
      apply NoDup_incl_length; [exact N0|]. intros p Hp. now apply F.
Qed.

(** The loops of [selectRepresentativeSamples]. *)
Lemma geNum_grows (n m : N) (c : number) :
  geNum n c = true -> (n <= m)%N -> geNum m c = true.
Proof.
  destruct c as [q| | |]; try (intros; assumption).
  rewrite !geNum_Finite. nia.
Qed.

Lemma takeMatches_bounds (k : number) (found acc : list jsstring) :
  NoDup acc ->
  NoDup (takeMatches k found acc)
  /\ (length (takeMatches k found acc) <= length acc + 2)%nat
  /\ (forall n : N, geNum n k = true -> (N.of_nat (length acc) <= n)%N ->
        (N.of_nat (length (takeMatches k found acc)) <= n)%N).
Proof.
  unfold takeMatches.
  assert (L : (length (firstn 2 found) <= 2)%nat) by apply firstn_le_length.
  revert L. generalize (firstn 2 found) as l. generalize 2%nat as n.
  intros n l. revert n acc. induction l as [|m l IH]; intros n acc L N0; simpl.
  - split; [exact N0|]. split; [lia|auto].
  - simpl in L. destruct n as [|n]; [lia|].
    set (acc' := if geNum (N.of_nat (length acc)) k then acc
                 else if member m acc then acc else acc ++ [m]).
    assert (A : NoDup acc' /\ (length acc' <= length acc + 1)%nat
                /\ (forall b : N, geNum b k = true ->
                      (N.of_nat (length acc) <= b)%N ->
                      (N.of_nat (length acc') <= b)%N)).
    { unfold acc'. destruct (geNum (N.of_nat (length acc)) k) eqn:G.
      - split; [exact N0|]. split; [lia|auto].
      - destruct (member m acc) eqn:M.
        + split; [exact N0|]. split; [lia|auto].
        + split; [|rewrite length_app; simpl; split; [lia|]].
          * apply NoDup_app; [exact N0|repeat constructor; intros []|].
            intros x Hx [<-|[]]. apply member_In in Hx. congruence.
          * intros b Hb Hle.
            destruct (N.eq_dec (N.of_nat (length acc)) b) as [E|E]; [|lia].
            rewrite E in G. congruence. }
    destruct A as (A1 & A2 & A3).
    destruct (IH n acc' ltac:(lia) A1) as (B1 & B2 & B3).
    split; [exact B1|]. split; [lia|].
    intros b Hb Hle. apply B3; [exact Hb|]. now apply A3.
Qed.

(** X8.  [selectRepresentativeSamples] never repeats a path; it returns
    nothing when [maxCount <= 0], and at most [n] paths for every count [n]
    with [n >= maxCount], so at most [maxCount] paths when [maxCount] is a
    whole number; it never returns more than two paths for each of its ten
    patterns, and every path it returns is one of the first two matches of
    a pattern. *)
Theorem samples_distinct_and_bounded (index : RepoIndex) (maxCount : number) :
  let s := selectRepresentativeSamples repo index maxCount in
  NoDup s
  /\ (nonPositive maxCount = true -> s = [])
  /\ (forall n : N, geNum n maxCount = true -> (N.of_nat (length s) <= n)%N)
  /\ (forall k : Z, maxCount = whole k ->
        (Z.of_nat (length s) <= Z.max 0 k)%Z)
  /\ (length s <= 2 * length architecturalPatterns)%nat
  /\ (forall p, In p s ->
        exists pattern, In pattern architecturalPatterns
                        /\ In p (firstn 2 (glob repo pattern))).
Proof.
  intros s.
  assert (G : forall pats acc,
             NoDup acc ->
             (forall p, In p acc -> exists pattern,
                  In pattern architecturalPatterns
                  /\ In p (firstn 2 (glob repo pattern))) ->
             incl pats architecturalPatterns ->
             let r := fold_left
                        (fun acc pattern =>
                           if geNum (N.of_nat (length acc)) maxCount then acc
                           else takeMatches maxCount (glob repo pattern) acc)
                        pats acc in
             NoDup r
             /\ (forall n : N, geNum n maxCount = true ->
                   (N.of_nat (length acc) <= n)%N ->
                   (N.of_nat (length r) <= n)%N)
             /\ (length r <= length acc + 2 * length pats)%nat
             /\ (forall p, In p r -> exists pattern,
                   In pattern architecturalPatterns
                   /\ In p (firstn 2 (glob repo pattern)))).
  { induction pats as [|pat pats IH]; intros acc N0 F I; simpl.
    - split; [exact N0|]. split; [auto|]. split; [lia|exact F].
    - assert (I' : incl pats architecturalPatterns)
        by (intros x Hx; apply I; now right).
      destruct (geNum (N.of_nat (length acc)) maxCount).
      + destruct (IH acc N0 F I') as (R1 & R2 & R3 & R4).
        split; [exact R1|]. split; [exact R2|]. split; [lia|exact R4].
      + destruct (takeMatches_bounds maxCount (glob repo pat) acc N0)
          as (T1 & T2 & T3).
        destruct (IH (takeMatches maxCount (glob repo pat) acc) T1)
          as (R1 & R2 & R3 & R4); [|exact I'|].
        * intros p Hp. apply takeMatches_from in Hp.
          destruct Hp as [Hp|Hp]; [now apply F|].
          exists pat. split; [apply I; now left|exact Hp].
        * split; [exact R1|]. split; [|split; [lia|exact R4]].
          intros n Hn Hle. apply R2; [exact Hn|]. now apply T3. }
  assert (S : NoDup s
              /\ (nonPositive maxCount = true -> s = [])
              /\ (forall n : N, geNum n maxCount = true ->
                    (N.of_nat (length s) <= n)%N)
              /\ (length s <= 2 * length architecturalPatterns)%nat
              /\ (forall p, In p s ->
                    exists pattern, In pattern architecturalPatterns
                                    /\ In p (firstn 2 (glob repo pattern)))).
  { subst s. unfold selectRepresentativeSamples.
    destruct (nonPositive maxCount).
    - split; [constructor|]. split; [reflexivity|].
      split; [intros n _; simpl; lia|]. split; [simpl; lia|intros p []].
    - destruct (G architecturalPatterns [] (NoDup_nil _)
                  ltac:(intros p []) (incl_refl _)) as (R1 & R2 & R3 & R4).
      split; [exact R1|]. split; [discriminate|].
      split; [intros n Hn; apply R2; [exact Hn|simpl; lia]|].
      split; [exact R3|exact R4]. }
  destruct S as (S1 & S2 & S3 & S4 & S5).
  split; [exact S1|]. split; [exact S2|]. split; [exact S3|].
  split; [|split; [exact S4|exact S5]].
  intros k ->. destruct (Z.le_gt_cases k 0) as [Hk|Hk].
  - rewrite S2; [simpl; lia|].
    unfold whole, nonPositive. apply Qle_bool_iff. unfold Qle. simpl. lia.
  - assert (Hn : geNum (Z.to_N k) (whole k) = true).
    { unfold whole, geNum. apply Qle_bool_iff. unfold Qle, ofN. simpl.
      rewrite Z2N.id by lia. lia. }
    specialize (S3 (Z.to_N k) Hn). lia.
Qed.

(** How one bucket grows. *)
Lemma addFile_bucket (cfg : ContextConfig) (p : jsstring) (c c' : Category)
    (st : Builder) :
  bucket c' (bundle (fst (addFile cfg repo p c st))) = bucket c' (bundle st)
  \/ (c' = c
      /\ bucket c' (bundle (fst (addFile cfg repo p c st)))
         = bucket c' (bundle st) ++ [p]).
Proof.
  unfold addFile.
  destruct (readFile repo p) as [f|]; [|now left].
  destruct (gtNum (currentSize st + fileSize f) (maxTotalSize cfg)); [now left|].
  destruct (gtNum (currentTokens st + tokensOf (fileContent f)) (maxTokens cfg));
    [now left|].
  destruct (geNum (getTotalFiles (bundle st)) (maxFiles cfg)); [now left|].
  destruct c, c'; simpl; auto.
Qed.

Lemma addAll_bucket (Q : jsstring -> Prop) (cfg : ContextConfig)
    (c c' : Category) (paths : list jsstring) :
  Forall Q paths ->
  forall st, exists l,
    bucket c' (bundle (addAll cfg repo c paths st)) = bucket c' (bundle st) ++ l
    /\ Forall Q l /\ (c' <> c -> l = []) /\ (length l <= length paths)%nat.
Proof.
  unfold addAll. induction 1 as [|p paths Hp _ IH]; intros st; simpl.
  - exists []. rewrite app_nil_r. repeat split; auto.
  - destruct (IH (fst (addFile cfg repo p c st))) as (l & E & Hl & Hc & Hn).
    destruct (addFile_bucket cfg p c c' st) as [A|[-> A]]; rewrite A in E.
    + exists l. repeat split; auto.
    + exists (p :: l). rewrite <- app_assoc in E. repeat split; auto.
      * congruence.
      * simpl. lia.
Qed.

Lemma addPriority_bucket (Q : jsstring -> Prop) (cfg : ContextConfig)
    (c c' : Category) (test : jsstring -> jsstring -> bool)
    (cands priority : list jsstring) :
  (forall m wanted, In wanted priority -> In m cands -> test m wanted = true -> Q m) ->
  forall st, exists l,
    bucket c' (bundle (addPriority cfg repo c test cands priority st))
    = bucket c' (bundle st) ++ l
    /\ Forall Q l /\ (c' <> c -> l = []) /\ (length l <= length priority)%nat.
Proof.
  unfold addPriority. induction priority as [|w priority IH]; intros HQ st; simpl.
  - exists []. rewrite app_nil_r. repeat split; auto.
  - assert (HQ' : forall m wanted, In wanted priority -> In m cands ->
                    test m wanted = true -> Q m)
      by (intros m wanted Hw; apply HQ; now right).
    destruct (List.find (fun c0 => test c0 w) cands) as [m|] eqn:Fm.
    + apply find_some in Fm. destruct Fm as [Hm Ht].
      destruct (truthy m).
      * destruct (IH HQ' (fst (addFile cfg repo m c st))) as (l & E & Hl & Hc & Hn).
        destruct (addFile_bucket cfg m c c' st) as [A|[-> A]]; rewrite A in E.
        -- exists l. repeat split; auto.
        -- exists (m :: l). rewrite <- app_assoc in E. repeat split; auto.
           ++ constructor; [|exact Hl]. apply (HQ m w); auto. now left.
           ++ congruence.
           ++ simpl. lia.
      * destruct (IH HQ' st) as (l & E & Hl & Hc & Hn).
        exists l. repeat split; auto.
    + destruct (IH HQ' st) as (l & E & Hl & Hc & Hn).
      exists l. repeat split; auto.
Qed.

Lemma priority_match (m wanted : jsstring) :
  In wanted docPriority -> sameNameIgnoringCase m wanted = true ->
  isPriorityDoc m = true.
Proof.
  intros Hw Hm. unfold isPriorityDoc. apply existsb_exists.
  exists wanted. split; assumption.
Qed.

(** What a loop over priority names adds: for each name, in their order, the
    first candidate that passes the test for this name, or nothing. *)
Lemma addPriority_picks (cfg : ContextConfig) (c : Category)
    (test : jsstring -> jsstring -> bool) (cands priority : list jsstring) :
  forall st, exists picks,
    Forall2 (fun wanted o =>
               forall d, o = Some d ->
                 List.find (fun x => test x wanted) cands = Some d)
            priority picks
    /\ bucket c (bundle (addPriority cfg repo c test cands priority st))
       = bucket c (bundle st) ++ flat_map picked picks.
Proof.
  unfold addPriority. induction priority as [|w priority IH]; intros st; simpl.
  - exists []. split; [constructor|]. now rewrite app_nil_r.
  - assert (Skip : forall st', bucket c (bundle st') = bucket c (bundle st) ->
             exists picks,
               Forall2 (fun wanted o =>
                          forall d, o = Some d ->
                            List.find (fun x => test x wanted) cands = Some d)
                       (w :: priority) picks
               /\ bucket c (bundle
                    (fold_left
                       (fun st0 wanted =>
                          match List.find (fun c0 => test c0 wanted) cands with
                          | Some m =>
                              if truthy m then fst (addFile cfg repo m c st0)
                              else st0
                          | None => st0
                          end) priority st'))
                  = bucket c (bundle st) ++ flat_map picked picks).
    { intros st' E. destruct (IH st') as (picks & F & B).
      exists (None :: picks). split.
      - constructor; [intros d; discriminate|exact F].
      - rewrite B, E. reflexivity. }
    destruct (List.find (fun c0 => test c0 w) cands) as [m|] eqn:Fm;
      [|now apply Skip].
    destruct (truthy m); [|now apply Skip].
    destruct (addFile_bucket cfg m c c st) as [A|[_ A]]; [now apply Skip|].
    destruct (IH (fst (addFile cfg repo m c st))) as (picks & F & B).
    exists (Some m :: picks). split.
    + constructor; [|exact F]. intros d [= <-]. exact Fm.
    + rewrite B, A, <- app_assoc. reflexivity.
Qed.

Lemma priority_names_distinct (w w' : jsstring) :
  In w docPriority -> In w' docPriority ->
  toLowerCase w = toLowerCase w' -> w = w'.
Proof.
  unfold docPriority. cbn [In]. intros Hw Hw' E.
  repeat destruct Hw as [<-|Hw]; try destruct Hw;
    repeat destruct Hw' as [<-|Hw']; try destruct Hw';
    first [ reflexivity | vm_compute in E; discriminate ].
Qed.

Lemma other_docs_unnamed (d wanted : jsstring) :
  In wanted docPriority -> isPriorityDoc d = false ->
  sameNameIgnoringCase d wanted = false.
Proof.
  intros Hw Hd. destruct (sameNameIgnoringCase d wanted) eqn:E; [|reflexivity].
  rewrite (priority_match d wanted Hw E) in Hd. discriminate.
Qed.

(** Of the documents picked for a list of distinct names, at most one bears
    a given name. *)
Lemma one_pick_for_a_name (wanted : jsstring) (cands : list jsstring) :
  In wanted docPriority ->
  forall names picks,
    incl names docPriority -> NoDup names ->
    Forall2 (fun w o =>
               forall d, o = Some d ->
                 List.find (fun x => sameNameIgnoringCase x w) cands = Some d)
            names picks ->
    (length (filter (fun d => sameNameIgnoringCase d wanted)
                    (flat_map picked picks))
     <= if member wanted names then 1 else 0)%nat.
Proof.
  intros Hwanted names picks I N0 F. induction F as [|w o names picks R F IH].
  - simpl. lia.
  - assert (I' : incl names docPriority) by (intros x Hx; apply I; now right).
    inversion N0 as [|? ? Hw N1]; subst.
    specialize (IH I' N1). cbn [flat_map]. rewrite filter_app, length_app.
    assert (M : member wanted (w :: names)
                = Js.eqb wanted w || member wanted names) by reflexivity.
    rewrite M.
    destruct o as [d|]; cbn [picked filter length].
    + destruct (sameNameIgnoringCase d wanted) eqn:E; cbn [length].
      * pose proof (find_some _ _ (R d eq_refl)) as [_ Ew]. cbn beta in Ew.
        unfold sameNameIgnoringCase in E, Ew. apply eqb_eq in E, Ew.
        assert (w = wanted).
        { apply priority_names_distinct; [apply I; now left|exact Hwanted|].
          congruence. }
        subst w.
        destruct (member wanted names) eqn:Mn;
          [apply member_In in Mn; contradiction|].
        replace (Js.eqb wanted wanted) with true
          by (symmetry; now apply eqb_eq).
        cbn [orb]. lia.
      * destruct (Js.eqb wanted w); cbn [orb];
          destruct (member wanted names); lia.
    + destruct (Js.eqb wanted w); cbn [orb];
        destruct (member wanted names); lia.
Qed.

Lemma picks_bear_priority_names (cands names : list jsstring)
    (picks : list (option jsstring)) :
  incl names docPriority ->
  Forall2 (fun w o =>
             forall d, o = Some d ->
               List.find (fun x => sameNameIgnoringCase x w) cands = Some d)
          names picks ->
  Forall (fun d => isPriorityDoc d = true) (flat_map picked picks)
  /\ (length (flat_map picked picks) <= length names)%nat.
Proof.
  intros I F. induction F as [|w o names picks R F IH].
  - split; [constructor|simpl; lia].
  - destruct (IH ltac:(intros x Hx; apply I; now right)) as [I1 I2].
    cbn [flat_map]. rewrite length_app.
    destruct o as [d|]; cbn [picked app length]; [|split; [exact I1|lia]].
    split; [|lia]. constructor; [|exact I1].
    pose proof (find_some _ _ (R d eq_refl)) as [_ Ew]. cbn beta in Ew.
    apply (priority_match d w); [apply I; now left|exact Ew].
Qed.

(** X9.  The docs bucket holds the documents picked for the four priority
    names first, in the order of the names: for each name at most one
    document, the first of the index that bears the name, whatever the
    case of its letters.  Documents that bear none of these names follow.
    So the bucket never holds two documents with the same priority name. *)
Theorem docs_priority_first (index : RepoIndex) (config : PartialConfig) :
  exists first others picks,
    docs (buildAnalysisBundle repo index config) = first ++ others
    /\ first = flat_map picked picks
    /\ Forall2 (fun wanted o =>
                  forall d, o = Some d ->
                    List.find (fun x => sameNameIgnoringCase x wanted)
                              (idxDocs index) = Some d)
               docPriority picks
    /\ Forall (fun d => isPriorityDoc d = true) first
    /\ Forall (fun d => isPriorityDoc d = false) others
    /\ (length first <= length docPriority)%nat
    /\ (forall wanted, In wanted docPriority ->
          (length (filter (fun d => sameNameIgnoringCase d wanted)
                          (docs (buildAnalysisBundle repo index config)))
           <= 1)%nat).
Proof.
  unfold buildAnalysisBundle. cbv zeta.
  set (cfg := mergeConfig config).
  set (st1 := addAll cfg repo Manifests _ _).
  set (st2 := addPriority cfg repo Docs _ _ _ st1).
  set (st3 := addAll cfg repo Docs _ st2).
  set (st4 := addPriority cfg repo Configs _ _ _ st3).
  set (st5 := addAll cfg repo Entrypoints _ st4).
  set (chosen := selectRepresentativeSamples _ _ _).
  destruct (addAll_bucket (fun _ => True) cfg Manifests Docs
              (List.map path (idxManifests index))
              ltac:(apply Forall_forall; auto)
              {| bundle := emptyBundle; currentSize := 0; currentTokens := 0 |})
    as (l1 & E1 & _ & N1 & _).
  destruct (addPriority_picks cfg Docs sameNameIgnoringCase (idxDocs index)
              docPriority st1) as (picks & F2 & E2).
  destruct (addAll_bucket (fun d => isPriorityDoc d = false) cfg Docs Docs
              (filter (fun doc => negb (isPriorityDoc doc)) (idxDocs index))
              ltac:(apply Forall_forall; intros d Hd; apply filter_In in Hd;
                    destruct Hd as [_ Hd]; now apply negb_true_iff in Hd) st2)
    as (l3 & E3 & Q3 & _ & _).
  destruct (addPriority_bucket (fun _ => True) cfg Configs Docs
              configMatches (idxConfigs index) configPriority
              (fun _ _ _ _ _ => I) st3)
    as (l4 & E4 & _ & N4 & _).
  destruct (addAll_bucket (fun _ => True) cfg Entrypoints Docs
              (idxEntrypoints index) ltac:(apply Forall_forall; auto) st4)
    as (l5 & E5 & _ & N5 & _).
  destruct (addAll_bucket (fun _ => True) cfg Samples Docs
              chosen ltac:(apply Forall_forall; auto) st5)
    as (l6 & E6 & _ & N6 & _).
  rewrite (N1 ltac:(discriminate)) in E1.
  rewrite (N4 ltac:(discriminate)) in E4.
  rewrite (N5 ltac:(discriminate)) in E5.
  rewrite (N6 ltac:(discriminate)) in E6.
  rewrite app_nil_r in E1, E4, E5, E6.
  fold st1 in E1. fold st2 in E2. fold st3 in E3. fold st4 in E4.
  fold st5 in E5. simpl bucket in *.
  assert (D : docs (bundle (addAll cfg repo Samples chosen st5))
              = flat_map picked picks ++ l3).
  { rewrite E6, E5, E4, E3, E2, E1. reflexivity. }
  pose proof (picks_bear_priority_names (idxDocs index) docPriority picks
                (incl_refl _) F2) as P.
  exists (flat_map picked picks), l3, picks.
  split; [exact D|]. split; [reflexivity|]. split; [exact F2|].
  split; [apply P|]. split; [exact Q3|]. split; [apply P|].
  intros wanted Hw. rewrite D, filter_app, length_app.
  assert (O : filter (fun d => sameNameIgnoringCase d wanted) l3 = []).
  { clear - Q3 Hw. induction Q3 as [|d l Hd _ IH]; [reflexivity|].
    cbn [filter]. now rewrite (other_docs_unnamed d wanted Hw Hd). }
  rewrite O. cbn [length].
  pose proof (one_pick_for_a_name wanted (idxDocs index) Hw docPriority picks
                (incl_refl _)
                ltac:(unfold docPriority;
                      repeat constructor; cbn [In]; intros H;
                      repeat destruct H as [H|H]; try discriminate H;
                      try destruct H)
                F2) as C.
  destruct (member wanted docPriority); lia.
Qed.

Lemma geNum_of_nonPositive (n : N) (c : number) :
  nonPositive c = true -> geNum n c = true.
Proof.
  destruct c as [q| | |]; try discriminate; [|reflexivity].
  unfold nonPositive. rewrite geNum_Finite, Qle_bool_iff.
  unfold Qle. simpl. nia.
Qed.

(** X10.  With a file ceiling of zero, or of any number that is not
    positive, the bundle stays empty: no path, no hash and a token estimate
    of zero. *)
Theorem no_files_allowed_empty_bundle (index : RepoIndex)
    (config : PartialConfig) (c : number) :
  optMaxFiles config = Some c -> nonPositive c = true ->
  buildAnalysisBundle repo index config = emptyBundle.
Proof.
  intros Hz Hc.
  destruct (build_invariant (fun st => st = freshBuilder) index config)
    as (st & E & ->); [|reflexivity|exact E].
  intros p ca st ->. unfold addFile.
  destruct (readFile repo p) as [f|]; [|reflexivity].
  destruct (gtNum _ _); [reflexivity|].
  destruct (gtNum _ _); [reflexivity|].
  unfold mergeConfig. cbn [maxFiles]. rewrite Hz. cbn [orDefault].
  now rewrite (geNum_of_nonPositive _ c Hc).
Qed.

End BuilderMore.

Section BuilderWitnesses.

Import ContextBuilder BundleSpec ExtraSpec.

Lemma no_files_allowed_empty_bundle_witness :
  buildAnalysisBundle nodeRepo nodeIndex (onlyCeilings (Some (whole 0)) None)
  = emptyBundle.
Proof.
  apply (no_files_allowed_empty_bundle nodeRepo nodeIndex
           (onlyCeilings (Some (whole 0)) None) (whole 0)).
  - reflexivity.
  - vm_compute. reflexivity.
Defined.

Lemma hexDigit_lower (d : N) : (d < 16)%N -> isLowerHex (Sha256.hexDigit d) = true.
Proof.
  intros H. unfold Sha256.hexDigit, isLowerHex.
  destruct (N.ltb_spec d 10).
  - replace (48 <=? 48 + d)%N with true by (symmetry; apply N.leb_le; lia).
    replace (48 + d <=? 57)%N with true by (symmetry; apply N.leb_le; lia).
    reflexivity.
  - replace (97 <=? 87 + d)%N with true by (symmetry; apply N.leb_le; lia).
    replace (87 + d <=? 102)%N with true by (symmetry; apply N.leb_le; lia).
    now rewrite orb_true_r.
Qed.

Lemma bytesBE_small (n : nat) (x b : N) :
  In b (Sha256.bytesBE n x) -> (b < 256)%N.
Proof.
  revert x. induction n as [|n IH]; intros x; simpl; [intros []|].
  rewrite in_app_iff. intros [H|[<-|[]]]; [now apply (IH _ H)|].
  apply N.mod_lt. discriminate.
Qed.

Lemma hex_lower (bs : list N) :
  (forall b, In b bs -> (b < 256)%N) ->
  forall c, In c (Sha256.hex bs) -> isLowerHex c = true.
Proof.
  intros Hb c Hc. unfold Sha256.hex in Hc. apply in_flat_map in Hc.
  destruct Hc as (b & Hin & [<-|[<-|[]]]); apply hexDigit_lower.
  - specialize (Hb b Hin). rewrite N.shiftr_div_pow2.
    change (2 ^ 4)%N with 16%N.
    apply N.Div0.div_lt_upper_bound. lia.
  - change 15%N with (N.ones 4). rewrite N.land_ones.
    apply N.mod_lt. discriminate.
Qed.

(** X11.  [hashContent], and with it [getBundleHash], gives 16 lower-case
    hexadecimal digits whatever it is given. *)
Theorem hashContent_sixteen_hex_digits (content : jsstring) (b : AnalysisBundle) :
  length (hashContent content) = 16%nat
  /\ forallb isLowerHex (hashContent content) = true
  /\ length (getBundleHash b) = 16%nat
  /\ forallb isLowerHex (getBundleHash b) = true.
Proof.
  assert (G : forall s, length (hashContent s) = 16%nat
                        /\ forallb isLowerHex (hashContent s) = true).
  { intros s. split; [apply hashContent_shape|].
    apply forallb_forall. intros c Hc. unfold hashContent in Hc.
    apply In_substring in Hc. unfold Sha256.sha256hex in Hc.
    revert c Hc. apply hex_lower. intros x Hx. unfold Sha256.digest in Hx.
    apply in_flat_map in Hx. destruct Hx as (w & _ & Hx).
    now apply bytesBE_small in Hx. }
  split; [apply G|]. split; [apply G|]. unfold getBundleHash.
  split; apply G.
Qed.

End BuilderWitnesses.

(** ** Secret scanner: issues, safe files, file names and masking *)

Section ScannerMore.

Import Regex Scanner ScannerSpec Commands ExtraSpec.

Lemma splitOn_length (sep : char) (s : jsstring) :
  length (splitOn sep s) = S (length (filter (fun c => N.eqb c sep) s)).
Proof.
  induction s as [|a s IH]; simpl; [reflexivity|].
  destruct (N.eqb a sep); simpl; [now rewrite IH|].
  destruct (splitOn sep s) as [|l ls]; simpl in *; [discriminate|exact IH].
Qed.

Lemma filter_firstn_le (p : char -> bool) (n : nat) (s : jsstring) :
  (length (filter p (firstn n s)) <= length (filter p s))%nat.
Proof.
  rewrite <- (firstn_skipn n s) at 2. rewrite filter_app, length_app. lia.
Qed.

Lemma filter_skipn_le (p : char -> bool) (n : nat) (s : jsstring) :
  (length (filter p (skipn n s)) <= length (filter p s))%nat.
Proof.
  rewrite <- (firstn_skipn n s) at 2. rewrite filter_app, length_app. lia.
Qed.

Lemma lineNumberAt_bounds (content : jsstring) (index : nat) :
  (1 <= lineNumberAt content index <= length (splitOn 10%N content))%nat.
Proof.
  unfold lineNumberAt. rewrite !splitOn_length. split; [lia|].
  apply le_n_S. unfold substring.
  eapply Nat.le_trans; [apply filter_firstn_le|apply filter_skipn_le].
Qed.

Lemma pattern_types (pt : regex * SecretType) :
  In pt SECRET_PATTERNS -> snd pt <> sensitive_file.
Proof.
  assert (H : forallb (fun pt : regex * SecretType =>
                         match snd pt with sensitive_file => false | _ => true end)
                      SECRET_PATTERNS = true) by (vm_compute; reflexivity).
  intros Hin. apply (proj1 (forallb_forall _ _) H) in Hin.
  intros E. rewrite E in Hin. discriminate.
Qed.

(** Where an issue of [scanContent] comes from. *)
Lemma scanContent_origin (f content : jsstring) (i : SecretIssue) :
  In i (scanContent f content) ->
  isExampleFile f content = false
  /\ exists pt m,
       In pt SECRET_PATTERNS
       /\ isInComment
            (nth (lineNumberAt content (fst m) - 1) (splitOn 10%N content) [])
            (snd m) = false
       /\ i = {| file := f; line := lineNumberAt content (fst m); type := snd pt;
                 snippet :=
                   maskSecret
                     (trim (nth (lineNumberAt content (fst m) - 1)
                                (splitOn 10%N content) [])) |}.
Proof.
  unfold scanContent. destruct (isExampleFile f content); [intros []|].
  intros H. split; [reflexivity|].
  apply in_flat_map in H. destruct H as (pt & Hpt & H).
  apply in_flat_map in H. destruct H as (m & _ & H).
  exists pt, m.
  destruct (isInComment
              (nth (lineNumberAt content (fst m) - 1) (splitOn 10%N content) [])
              (snd m)); [destruct H|].
  destruct (isPlaceholder (snd m)); [destruct H|].
  destruct H as [<-|[]]. auto.
Qed.

(** X12.  What every issue of [scanContent] says: it names the scanned file
    and a pattern's type, its line number is one of the lines of the
    content, its snippet is the masked, trimmed text of that line, and the
    line does not start as a comment; an example file gives no issue. *)
Theorem scanContent_issue_shape (f content : jsstring) (i : SecretIssue) :
  In i (scanContent f content) ->
  file i = f
  /\ type i <> sensitive_file
  /\ (1 <= line i <= length (splitOn 10%N content))%nat
  /\ snippet i = maskSecret (trim (nth (line i - 1) (splitOn 10%N content) []))
  /\ isInComment (nth (line i - 1) (splitOn 10%N content) []) [] = false
  /\ isExampleFile f content = false.
Proof.
  intros H. apply scanContent_origin in H.
  destruct H as (Hex & pt & m & Hpt & C & ->). cbn [file line type snippet].
  split; [reflexivity|].
  split; [now apply pattern_types|].
  split; [apply lineNumberAt_bounds|].
  split; [reflexivity|].
  split; [exact C|exact Hex].
Qed.

Lemma scanContent_issue_shape_witness :
  file {| file := lit "src/config.ts"; line := 2; type := password;
          snippet := passwordLine |} = lit "src/config.ts"
  /\ (1 <= 2 <= length (splitOn 10%N
                 (lit "// settings" ++ nl ++ lit "  " ++ passwordLine ++ nl)))%nat.
Proof.
  assert (H : In {| file := lit "src/config.ts"; line := 2; type := password;
                    snippet := passwordLine |}
                 (scanContent (lit "src/config.ts")
                    (lit "// settings" ++ nl ++ lit "  " ++ passwordLine ++ nl)))
    by (vm_compute; left; reflexivity).
  split.
  - exact (proj1 (scanContent_issue_shape _ _ _ H)).
  - exact (proj1 (proj2 (proj2 (scanContent_issue_shape _ _ _ H)))).
Defined.

Lemma scanFile_issue (repo : Repo) (f : jsstring) (i : SecretIssue) :
  In i (scanFile repo f) ->
  file i = f
  /\ ((isDangerousFile f = true /\ i = sensitiveFileIssue f)
      \/ (isDangerousFile f = false /\ (1 <= line i)%nat
          /\ type i <> sensitive_file)).
Proof.
  unfold scanFile. destruct (isDangerousFile f).
  - intros [<-|[]]. split; [reflexivity|left; auto].
  - destruct (readFile repo f) as [c|]; [|intros []].
    intros H. apply scanContent_origin in H.
    destruct H as (_ & pt & m & Hpt & _ & ->). cbn [file line type].
    split; [reflexivity|]. right. split; [reflexivity|].
    split; [apply lineNumberAt_bounds|now apply pattern_types].
Qed.

Lemma issues_by_file (repo : Repo) (files : list jsstring) :
  issues (scanForSecrets repo files) = flat_map (scanFile repo) files.
Proof.
  unfold scanForSecrets. cbn [issues].
  assert (G : forall acc,
             fold_left (fun acc f => acc ++ scanFile repo f) files acc
             = acc ++ flat_map (scanFile repo) files).
  { induction files as [|f files IH]; intros acc; simpl.
    - now rewrite app_nil_r.
    - now rewrite IH, app_assoc. }
  exact (G []).
Qed.

Lemma safe_iff_no_issue (repo : Repo) (files : list jsstring) :
  safe (scanForSecrets repo files) = true
  <-> issues (scanForSecrets repo files) = [].
Proof.
  unfold scanForSecrets. cbn [safe issues].
  destruct (fold_left _ files []); split; congruence.
Qed.

Lemma flat_map_nil (A B : Type) (g : A -> list B) (l : list A) :
  flat_map g l = [] <-> forall x, In x l -> g x = [].
Proof.
  induction l as [|a l IH]; simpl.
  - split; [intros _ x []|reflexivity].
  - split.
    + intros H. apply app_eq_nil in H. destruct H as [Ha Hl].
      intros x [<-|Hx]; [exact Ha|now apply IH].
    + intros H. rewrite (H a (or_introl eq_refl)).
      apply IH. intros x Hx. apply H. now right.
Qed.


Lemma flagged_iff (repo : Repo) (files : list jsstring) (f : jsstring) :
  In f files ->
  flagged (issues (scanForSecrets repo files)) f = negb (isNil (scanFile repo f)).
Proof.
  intros Hf. rewrite issues_by_file.
  destruct (scanFile repo f) as [|i0 l] eqn:Sc; cbn [isNil negb].
  - destruct (flagged _ f) eqn:Fl; [|reflexivity].
    unfold flagged in Fl. apply existsb_exists in Fl.
    destruct Fl as (i & Hi & E). apply eqb_eq in E.
    apply in_flat_map in Hi. destruct Hi as (f' & _ & Hi).
    pose proof (proj1 (scanFile_issue repo f' i Hi)) as E'.
    assert (f' = f) by congruence. subst f'. rewrite E, Sc in Hi. destruct Hi.
  - unfold flagged. apply existsb_exists. exists i0. split.
    + apply in_flat_map. exists f. split; [exact Hf|]. rewrite Sc. now left.
    + apply eqb_eq. apply (scanFile_issue repo f i0). rewrite Sc. now left.
Qed.

(** X14.  The files that the review command keeps after the scan are the
    files without an issue of their own, in their order; none of them has a
    dangerous name, and scanning them again finds nothing. *)
Theorem safeFiles_are_clean (repo : Repo) (files : list jsstring) :
  safeFiles repo files = filter (fun f => isNil (scanFile repo f)) files
  /\ safe (scanForSecrets repo (safeFiles repo files)) = true
  /\ (forall f, In f (safeFiles repo files) ->
        In f files /\ isDangerousFile f = false).
Proof.
  assert (E : safeFiles repo files
              = filter (fun f => isNil (scanFile repo f)) files).
  { unfold safeFiles. destruct (safe (scanForSecrets repo files)) eqn:Sf.
    - apply safe_iff_no_issue in Sf. rewrite issues_by_file in Sf.
      pose proof (proj1 (flat_map_nil _ _ _ _) Sf) as A.
      clear Sf. induction files as [|f files IH]; [reflexivity|]. simpl.
      rewrite (A f (or_introl eq_refl)). cbn [isNil]. f_equal.
      apply IH. intros x Hx. apply A. now right.
    - apply filter_ext_in. intros f Hf.
      rewrite (flagged_iff repo files f Hf). apply negb_involutive. }
  split; [exact E|]. rewrite E. split.
  - apply safe_iff_no_issue. rewrite issues_by_file. apply flat_map_nil.
    intros f Hf. apply filter_In in Hf. destruct Hf as [_ Hf].
    destruct (scanFile repo f); [reflexivity|discriminate].
  - intros f Hf. apply filter_In in Hf. destruct Hf as [Hin Hf].
    split; [exact Hin|]. unfold scanFile in Hf.
    destruct (isDangerousFile f); [discriminate|reflexivity].
Qed.

Lemma lowerChar_slash (c : char) : isSlash (lowerChar c) = isSlash c.
Proof.
  unfold lowerChar, isSlash.
  destruct (N.leb_spec 65 c); destruct (N.leb_spec c 90); cbn [andb];
    try reflexivity.
  destruct (N.eqb_spec (c + 32) 47); destruct (N.eqb_spec c 47); try lia;
    reflexivity.
Qed.

Lemma takeWhile_all (q : char -> bool) (s t : jsstring) :
  forallb q s = true ->
  (match t with x :: _ => q x = false | [] => True end) ->
  takeWhile q (s ++ t) = s.
Proof.
  intros Hs Ht. induction s as [|a s IH]; simpl in *.
  - destruct t as [|x t]; simpl; [reflexivity|now rewrite Ht].
  - apply andb_true_iff in Hs. destruct Hs as [Ha Hs].
    rewrite Ha. f_equal. now apply IH.
Qed.

Lemma takeWhile_holds (q : char -> bool) (s : jsstring) :
  forallb q (takeWhile q s) = true.
Proof.
  induction s as [|a s IH]; simpl; [reflexivity|].
  destruct (q a) eqn:E; simpl; [now rewrite E|reflexivity].
Qed.

Lemma dropWhile_none (p : char -> bool) (s : jsstring) :
  forallb (fun c => negb (p c)) s = true -> dropWhile p s = s.
Proof.
  destruct s as [|a s]; simpl; [reflexivity|].
  intros H. apply andb_true_iff in H. destruct H as [Ha _].
  apply negb_true_iff in Ha. now rewrite Ha.
Qed.

Lemma forallb_rev (q : char -> bool) (s : jsstring) :
  forallb q (rev s) = forallb q s.
Proof.
  induction s as [|a s IH]; simpl; [reflexivity|].
  rewrite forallb_app, IH. simpl. rewrite andb_true_r. apply andb_comm.
Qed.

Lemma basename_noSlash (p : jsstring) : noSlash (basename p) = true.
Proof.
  unfold noSlash, basename. rewrite forallb_rev. apply takeWhile_holds.
Qed.

Lemma basename_of_name (name : jsstring) :
  noSlash name = true -> basename name = name.
Proof.
  intros H. unfold basename, noSlash in *. rewrite <- forallb_rev in H.
  rewrite (dropWhile_none isSlash _ H).
  rewrite <- (app_nil_r (rev name)).
  rewrite (takeWhile_all _ (rev name) [] H I). apply rev_involutive.
Qed.

Lemma basename_in_directory (dir name : jsstring) :
  noSlash name = true -> name <> [] ->
  basename (dir ++ lit "/" ++ name) = name.
Proof.
  intros H Hn. unfold basename, noSlash in *. rewrite <- forallb_rev in H.
  change (lit "/" ++ name) with (47%N :: name).
  replace (rev (dir ++ 47%N :: name)) with (rev name ++ 47%N :: rev dir)
    by (rewrite rev_app_distr; simpl; now rewrite <- app_assoc).
  rewrite dropWhile_app_keep.
  - rewrite (takeWhile_all _ (rev name) (47%N :: rev dir) H eq_refl).
    apply rev_involutive.
  - intros E. apply (f_equal (@rev char)) in E. rewrite rev_involutive in E.
    now apply Hn.
  - now apply dropWhile_none.
Qed.

Lemma noSlash_toLowerCase (s : jsstring) :
  noSlash (toLowerCase s) = noSlash s.
Proof.
  unfold noSlash, toLowerCase. induction s as [|a s IH]; [reflexivity|].
  cbn [flat_map]. rewrite forallb_app, IH. cbn [forallb]. f_equal.
  unfold lowerUnits.
  destruct (N.eqb_spec a 304) as [->|_]; [reflexivity|].
  destruct (N.eqb_spec a 8490) as [->|_]; [reflexivity|].
  cbn [forallb]. now rewrite lowerChar_slash, andb_true_r.
Qed.

(** X15.  [isDangerousFile] looks at the last segment of the path only: a
    path and its base name are judged alike, whatever the directory; the
    base name never holds a slash, so the entry [config/secrets.yml] of
    [DANGEROUS_FILES] is never what the name equals. *)
Theorem isDangerousFile_by_basename (filePath dir name : jsstring) :
  isDangerousFile filePath = isDangerousFile (basename filePath)
  /\ noSlash (basename filePath) = true
  /\ toLowerCase (basename filePath) <> lit "config/secrets.yml"
  /\ (noSlash name = true -> name <> [] ->
      isDangerousFile (dir ++ lit "/" ++ name) = isDangerousFile name).
Proof.
  split; [|split; [|split]].
  - unfold isDangerousFile.
    now rewrite (basename_of_name _ (basename_noSlash filePath)).
  - apply basename_noSlash.
  - intros E.
    assert (Sl : noSlash (toLowerCase (basename filePath)) = true).
    { rewrite noSlash_toLowerCase. apply basename_noSlash. }
    rewrite E in Sl. vm_compute in Sl. discriminate.
  - intros H Hn. unfold isDangerousFile.
    now rewrite (basename_in_directory dir name H Hn), (basename_of_name name H).
Qed.

Lemma isDangerousFile_by_basename_witness :
  isDangerousFile (lit "config" ++ lit "/" ++ lit "secrets.yml")
  = isDangerousFile (lit "secrets.yml").
Proof.
  assert (H : noSlash (lit "secrets.yml") = true) by (vm_compute; reflexivity).
  assert (Hn : lit "secrets.yml" <> []) by discriminate.
  exact (proj2 (proj2 (proj2
           (isDangerousFile_by_basename [] (lit "config") (lit "secrets.yml"))))
           H Hn).
Defined.

End ScannerMore.

(** ** Secret scanner: what [maskSecret] masks *)

Section MaskFacts.

Import Regex Scanner ScannerSpec ExtraSpec.

Lemma quotedSecret_needs_quote (s : jsstring) :
  headFails quote s -> matchAt quotedSecret s = None.
Proof.
  intros H. unfold matchAt, quotedSecret. cbn [seqOf rmatch].
  destruct s as [|x s]; [reflexivity|]. unfold headFails in H. now rewrite H.
Qed.

Lemma assignedSecret_needs_assign (s : jsstring) :
  headFails (oneOf (lit ":=")) s -> matchAt assignedSecret s = None.
Proof.
  intros H. unfold matchAt, assignedSecret, assign. cbn [seqOf rmatch].
  destruct s as [|x s]; [reflexivity|]. unfold headFails in H. now rewrite H.
Qed.

(** A replacement copies the code units at which no match can start. *)
Lemma replaceLoop_copies (r : regex) (repl : captures -> jsstring)
    (p : char -> bool) :
  (forall s, headFails p s -> matchAt r s = None) ->
  forall pre t fuel,
    forallb (fun x => negb (p x)) pre = true ->
    (length (pre ++ t) < fuel)%nat ->
    replaceLoop fuel r repl (pre ++ t)
    = pre ++ replaceLoop (S (length t)) r repl t.
Proof.
  intros Hr. induction pre as [|x pre IH]; intros t fuel Hp Hf.
  - cbn [app length] in *. apply replaceLoop_fuel; lia.
  - simpl in Hp. apply andb_true_iff in Hp. destruct Hp as [Hx Hp].
    apply negb_true_iff in Hx.
    destruct fuel as [|fuel]; [simpl in Hf; lia|].
    cbn [replaceLoop app]. rewrite (Hr (x :: pre ++ t) Hx).
    f_equal. apply IH; [exact Hp|simpl in Hf; lia].
Qed.

Lemma replaceAll_no_trigger (r : regex) (repl : captures -> jsstring)
    (p : char -> bool) (s : jsstring) :
  (forall s, headFails p s -> matchAt r s = None) ->
  forallb (fun x => negb (p x)) s = true ->
  replaceAll r repl s = s.
Proof.
  intros Hr Hs. unfold replaceAll.
  rewrite <- (app_nil_r s) at 2.
  rewrite (replaceLoop_copies r repl p Hr s [] (S (length s)) Hs)
    by (rewrite length_app; simpl; lia).
  cbn [replaceLoop length]. rewrite (Hr [] I). apply app_nil_r.
Qed.

Lemma no_trigger_split (s : jsstring) :
  forallb (fun c => negb (maskTrigger c)) s = true ->
  forallb (fun c => negb (quote c)) s = true
  /\ forallb (fun c => negb (oneOf (lit ":=") c)) s = true.
Proof.
  intros H.
  assert (A : forall x, In x s -> quote x = false /\ oneOf (lit ":=") x = false).
  { intros x Hx. apply (proj1 (forallb_forall _ _) H) in Hx.
    unfold maskTrigger in Hx. now apply negb_true_iff, orb_false_iff in Hx. }
  split; apply forallb_forall; intros x Hx; apply negb_true_iff; now apply A.
Qed.

(** X16.  [maskSecret] returns a line as it is when the line holds no quote,
    no colon and no equals sign. *)
Theorem maskSecret_needs_trigger (line : jsstring) :
  forallb (fun c => negb (maskTrigger c)) line = true ->
  maskSecret line = line.
Proof.
  intros H. apply no_trigger_split in H. destruct H as [Hq Ha].
  unfold maskSecret.
  rewrite (replaceAll_no_trigger quotedSecret _ quote line
             quotedSecret_needs_quote Hq).
  exact (replaceAll_no_trigger assignedSecret _ (oneOf (lit ":=")) line
           assignedSecret_needs_assign Ha).
Qed.

Lemma maskSecret_needs_trigger_witness :
  maskSecret (lit "Authorization header for the upstream service")
  = lit "Authorization header for the upstream service".
Proof.
  apply (maskSecret_needs_trigger
           (lit "Authorization header for the upstream service")).
  vm_compute. reflexivity.
Defined.

(** A run of a class, matched by [r{n}] and by a greedy [r*]. *)
Lemma rep_class (p : char -> bool) (n : nat) :
  forall a t c k,
    length a = n -> forallb p a = true ->
    rmatch (rep n (Chr p)) (a ++ t) c k = k t c.
Proof.
  induction n as [|n IH]; intros a t c k Hn Hp.
  - destruct a; [reflexivity|discriminate].
  - destruct a as [|x a]; [discriminate|]. simpl in Hp.
    apply andb_true_iff in Hp. destruct Hp as [Hx Hp].
    cbn [rep rmatch app]. rewrite Hx. apply IH; [now injection Hn|exact Hp].
Qed.

Lemma star_class_greedy (p : char -> bool) (k : continuation) :
  forall a t c fuel res,
    forallb p a = true -> headFails p t -> (length a <= fuel)%nat ->
    k t c = Some res ->
    starLoop (rmatch (Chr p)) k fuel (a ++ t) c = Some res.
Proof.
  set (step := rmatch (Chr p)).
  assert (S1 : forall y s c K, step (y :: s) c K = if p y then K s c else None)
    by reflexivity.
  assert (S0 : forall c K, step [] c K = None) by reflexivity.
  clearbody step.
  induction a as [|x a IH]; intros t c fuel res Hp Ht Hf Hk.
  - cbn [app]. destruct fuel as [|fuel]; [exact Hk|].
    cbn [starLoop]. destruct t as [|y t].
    + now rewrite S0.
    + unfold headFails in Ht. now rewrite S1, Ht.
  - simpl in Hp. apply andb_true_iff in Hp. destruct Hp as [Hx Hp].
    destruct fuel as [|fuel]; [simpl in Hf; lia|].
    cbn [starLoop app]. rewrite S1, Hx.
    replace (length (a ++ t) <? length (x :: a ++ t))%nat with true
      by (symmetry; apply Nat.ltb_lt; simpl; lia).
    rewrite (IH t c fuel res Hp Ht ltac:(simpl in Hf; lia) Hk). reflexivity.
Qed.

Lemma maskChars_range (x : char) :
  maskChars x = true -> (43 <= x <= 122)%N.
Proof.
  unfold maskChars, orClass, alnum, orClass, lower, upper, digit, between.
  intros H. repeat (apply orb_true_iff in H; destruct H as [H|H]);
    first [ apply andb_true_iff in H; destruct H as [H1 H2];
            apply N.leb_le in H1, H2; lia
          | apply N.eqb_eq in H; subst x; vm_compute; split; discriminate
          | discriminate ].
Qed.

Lemma range_plain (x : char) :
  (43 <= x <= 122)%N -> isWhiteSpace x = false /\ quote x = false.
Proof.
  intros H.
  assert (A : forallb (fun y => negb (isWhiteSpace y) && negb (quote y))
                      (List.map N.of_nat (seq 43 80)) = true)
    by (vm_compute; reflexivity).
  assert (Hin : In x (List.map N.of_nat (seq 43 80))).
  { apply in_map_iff. exists (N.to_nat x). split; [apply N2Nat.id|].
    apply in_seq. lia. }
  apply (proj1 (forallb_forall _ _) A) in Hin.
  apply andb_true_iff in Hin. destruct Hin as [H1 H2].
  split; now apply negb_true_iff.
Qed.

Lemma space_not_quote (x : char) : isWhiteSpace x = true -> quote x = false.
Proof.
  intros H. destruct (quote x) eqn:Q; [|reflexivity].
  unfold quote, oneOf in Q. apply existsb_exists in Q.
  destruct Q as (y & Hy & E). apply N.eqb_eq in E. subst y.
  destruct Hy as [<-|[<-|[]]]; vm_compute in H; discriminate.
Qed.

Lemma assign_not_quote (x : char) :
  oneOf (lit ":=") x = true -> quote x = false.
Proof.
  intros H. unfold oneOf in H. apply existsb_exists in H.
  destruct H as (y & Hy & E). apply N.eqb_eq in E. subst y.
  vm_compute in Hy. destruct Hy as [<-|[<-|[]]]; reflexivity.
Qed.

Lemma forallb_impl (p q : char -> bool) (s : jsstring) :
  (forall x, p x = true -> q x = true) ->
  forallb p s = true -> forallb q s = true.
Proof.
  intros H Hs. apply forallb_forall. intros x Hx.
  apply H. now apply (proj1 (forallb_forall _ _) Hs).
Qed.

(** The second pattern on an assignment that runs to the end of the line. *)
Lemma assignedSecret_matches (sep : char) (sp v : jsstring) :
  oneOf (lit ":=") sep = true ->
  forallb isWhiteSpace sp = true ->
  forallb maskChars v = true -> (20 <= length v)%nat ->
  matchAt assignedSecret (sep :: sp ++ v) = Some (sep :: sp ++ v, []).
Proof.
  intros Hsep Hsp Hv Hn. unfold matchAt, assignedSecret, assign.
  cbn [seqOf rmatch]. rewrite Hsep.
  assert (K : rmatch (atLeast 20 (Chr maskChars)) v []
                (fun s' c => Some (s', c)) = Some ([], [])).
  { unfold atLeast. cbn [rmatch].
    rewrite <- (firstn_skipn 20 v) at 1.
    rewrite rep_class.
    - cbn [rmatch]. rewrite <- (app_nil_r (skipn 20 v)) at 2.
      apply star_class_greedy; [|exact I| |reflexivity].
      + apply forallb_forall. intros x Hx.
        apply (proj1 (forallb_forall _ _) Hv).
        rewrite <- (firstn_skipn 20 v). apply in_or_app. now right.
      + lia.
    - rewrite length_firstn. lia.
    - apply forallb_forall. intros x Hx.
      apply (proj1 (forallb_forall _ _) Hv).
      rewrite <- (firstn_skipn 20 v). apply in_or_app. now left. }
  unfold ws.
  rewrite (star_class_greedy isWhiteSpace _ sp v [] (length (sp ++ v)) ([], [])
             Hsp).
  - cbv beta iota. change (length (@nil char)) with 0%nat.
    rewrite Nat.sub_0_r. now rewrite firstn_all.
  - destruct v as [|x v]; [exact I|]. simpl in Hv.
    apply andb_true_iff in Hv. destruct Hv as [Hx _].
    apply (range_plain x). now apply maskChars_range.
  - rewrite length_app. lia.
  - exact K.
Qed.

(** X17.  An assignment of a run of 20 or more secret characters that ends
    the line is masked whole: what stands before the colon or equals sign
    stays, the sign, the white space and the run become [: ***MASKED***]. *)
Theorem maskSecret_masks_assignment (pre sp v : jsstring) (sep : char) :
  forallb (fun c => negb (maskTrigger c)) pre = true ->
  oneOf (lit ":=") sep = true ->
  forallb isWhiteSpace sp = true ->
  forallb maskChars v = true -> (20 <= length v)%nat ->
  maskSecret (pre ++ sep :: sp ++ v) = pre ++ lit ": " ++ MASKED.
Proof.
  intros Hpre Hsep Hsp Hv Hn.
  apply no_trigger_split in Hpre. destruct Hpre as [Hq Ha].
  unfold maskSecret.
  rewrite (replaceAll_no_trigger quotedSecret _ quote (pre ++ sep :: sp ++ v)
             quotedSecret_needs_quote).
  - unfold replaceAll.
    rewrite (replaceLoop_copies assignedSecret _ (oneOf (lit ":="))
               assignedSecret_needs_assign pre (sep :: sp ++ v) _ Ha)
      by lia.
    f_equal. cbn [replaceLoop].
    rewrite (assignedSecret_matches sep sp v Hsep Hsp Hv Hn).
    rewrite skipn_all. cbn [length replaceLoop].
    rewrite (assignedSecret_needs_assign [] I). apply app_nil_r.
  - rewrite forallb_app. rewrite Hq. cbn [forallb andb].
    rewrite (assign_not_quote sep Hsep). cbn [negb andb].
    rewrite forallb_app. apply andb_true_iff. split.
    + revert Hsp. apply forallb_impl. intros x Hx.
      now rewrite (space_not_quote x Hx).
    + revert Hv. apply forallb_impl. intros x Hx.
      now rewrite (proj2 (range_plain x (maskChars_range x Hx))).
Qed.

Lemma maskSecret_masks_assignment_witness :
  maskSecret (lit "API_TOKEN" ++ 61%N :: lit " " ++ lit "abcdefghijklmnopqrstuvwxyz")
  = lit "API_TOKEN" ++ lit ": " ++ MASKED.
Proof.
  apply (maskSecret_masks_assignment (lit "API_TOKEN") (lit " ")
           (lit "abcdefghijklmnopqrstuvwxyz") 61%N);
    try (vm_compute; reflexivity).
  vm_compute. lia.
Defined.

End MaskFacts.

(** ** Update command: the sections to refresh *)

Section SectionFacts.

Import ContextBuilder Commands ExtraSpec.

Lemma setAdd_In (x y : jsstring) (s : list jsstring) :
  In y (setAdd x s) <-> y = x \/ In y s.
Proof.
  unfold setAdd. destruct (member x s) eqn:M.
  - apply member_In in M. split; [now right|intros [->|H]; assumption].
  - rewrite in_app_iff. simpl. intuition.
Qed.

Lemma setAdd_NoDup (x : jsstring) (s : list jsstring) :
  NoDup s -> NoDup (setAdd x s).
Proof.
  intros H. unfold setAdd. destruct (member x s) eqn:M; [exact H|].
  apply NoDup_app; [exact H|repeat constructor; intros []|].
  intros y Hy [<-|[]]. apply member_In in Hy. congruence.
Qed.

(** What the loop of [determineSectionsToUpdate] keeps true of its set. *)
Lemma setAdd_keeps (x : jsstring) (s : list jsstring) :
  In x sectionNames -> x <> lit "gotchas" ->
  sectionSet s -> (x <> lit "overview" /\ x <> lit "quickstart"
                   \/ (x = lit "overview" /\ In (lit "quickstart") s)) ->
  sectionSet (setAdd x s).
Proof.
  intros Hx Hg (N0 & I0 & G0 & Q0) Hq. unfold sectionSet.
  split; [now apply setAdd_NoDup|]. split; [|split; [|split]].
  - intros y Hy. apply setAdd_In in Hy. destruct Hy as [->|Hy]; auto.
  - intros H. apply setAdd_In in H. destruct H as [H|H]; auto.
  - intros H. apply setAdd_In in H. apply setAdd_In.
    destruct H as [H|H]; [|right; tauto].
    destruct Hq as [[Ho _]|[_ Hq]]; [congruence|now right].
  - intros H. apply setAdd_In in H. apply setAdd_In.
    destruct H as [H|H]; [|right; tauto].
    destruct Hq as [[_ Hq]|[Ho _]]; [congruence|].
    rewrite Ho in H. vm_compute in H. discriminate.
Qed.

Lemma overview_after_quickstart (s : list jsstring) :
  sectionSet s ->
  sectionSet (setAdd (lit "overview") (setAdd (lit "quickstart") s)).
Proof.
  intros (N0 & I0 & G0 & Q1 & Q2).
  assert (A : forall y, In y (setAdd (lit "overview") (setAdd (lit "quickstart") s))
                        <-> y = lit "overview" \/ y = lit "quickstart" \/ In y s)
    by (intros y; now rewrite !setAdd_In).
  unfold sectionSet. split; [now do 2 apply setAdd_NoDup|].
  split; [|split; [|split]].
  - intros y Hy. apply A in Hy.
    destruct Hy as [->|[->|Hy]]; [vm_compute; tauto|vm_compute; tauto|auto].
  - intros H. apply A in H.
    destruct H as [H|[H|H]]; [vm_compute in H; discriminate
                             |vm_compute in H; discriminate|auto].
  - intros _. apply A. auto.
  - intros _. apply A. auto.
Qed.

Lemma sectionsFor_keeps (changed : jsstring) (s : list jsstring) :
  sectionSet s -> sectionSet (sectionsFor changed s).
Proof.
  intros H. unfold sectionsFor. cbv zeta.
  assert (K : forall (b : bool) x t,
             In x [lit "architecture"; lit "conventions"; lit "testing";
                   lit "deployment"] ->
             sectionSet t -> sectionSet (if b then setAdd x t else t)).
  { intros b x t Hx Ht. destruct b; [|exact Ht].
    apply setAdd_keeps; [| |exact Ht|left];
      simpl in Hx; repeat destruct Hx as [<-|Hx]; try destruct Hx;
      first [ vm_compute; tauto
            | intros E; vm_compute in E; discriminate
            | split; intros E; vm_compute in E; discriminate ]. }
  match goal with
  | |- sectionSet (if ?b then setAdd _ (setAdd _ ?t) else ?t) =>
      assert (T : sectionSet t); [|destruct b; [now apply overview_after_quickstart|exact T]]
  end.
  repeat (apply K; [simpl; tauto|]). exact H.
Qed.

(** X18.  [determineSectionsToUpdate] always ends its answer with [gotchas],
    which it lists once; it names each section at most once, names only the
    seven sections the command knows, and lists [overview] exactly when it
    lists [quickstart]. *)
Theorem determineSectionsToUpdate_shape (changedFiles : list jsstring) :
  let r := determineSectionsToUpdate changedFiles in
  (exists s, r = s ++ [lit "gotchas"] /\ ~ In (lit "gotchas") s)
  /\ NoDup r
  /\ incl r sectionNames
  /\ (In (lit "overview") r <-> In (lit "quickstart") r)
  /\ (length r <= 7)%nat.
Proof.
  intros r. subst r. unfold determineSectionsToUpdate.
  assert (G : forall files s, sectionSet s ->
                sectionSet (fold_left (fun s f => sectionsFor f s) files s)).
  { induction files as [|f files IH]; intros s Hs; simpl; [exact Hs|].
    apply IH. now apply sectionsFor_keeps. }
  assert (E0 : sectionSet []).
  { unfold sectionSet. split; [constructor|]. split; [intros y []|].
    split; [intros []|]. split; intros []. }
  specialize (G changedFiles [] E0). clear E0.
  set (s := fold_left (fun s f => sectionsFor f s) changedFiles []) in *.
  destruct G as (N0 & I0 & G0 & Q1 & Q2).
  assert (N1 : NoDup (setAdd (lit "gotchas") s)) by now apply setAdd_NoDup.
  assert (I1 : incl (setAdd (lit "gotchas") s) sectionNames).
  { intros y Hy. apply setAdd_In in Hy.
    destruct Hy as [->|Hy]; [vm_compute; tauto|auto]. }
  split; [|split; [exact N1|split; [exact I1|split]]].
  - exists s. split; [|exact G0]. unfold setAdd.
    destruct (member (lit "gotchas") s) eqn:M; [|reflexivity].
    apply member_In in M. contradiction.
  - rewrite !setAdd_In. split; intros [H|H];
      try (vm_compute in H; discriminate); right; auto.
  - apply (NoDup_incl_length N1 I1).
Qed.

End SectionFacts.

(** ** Sections of a generated document *)

Section MarkerPair.

(** A pair of markers without a newline, the second of which does not occur
    in the first. *)
Variables sM eM : jsstring.
Hypothesis start_not_empty : sM <> [].
Hypothesis start_one_line : ~ In 10%N sM.
Hypothesis end_not_empty : eM <> [].
Hypothesis end_one_line : ~ In 10%N eM.
Hypothesis end_not_in_start : find sM eM = None.

Lemma find_at_head (s m : jsstring) : startsWith s m = true -> find s m = Some 0%nat.
Proof. intros H. destruct s; simpl in *; now rewrite H. Qed.

(** Where the markers stand in [content + "\n" + start + "\n" + new + "\n" +
    end + tail]. *)
Lemma appended_indices (content new tail : jsstring) :
  find content sM = None -> find content eM = None -> find new eM = None ->
  find ((content ++ nl ++ sM) ++ (nl ++ new ++ nl) ++ eM ++ tail) sM
  = Some (length content + 1)%nat
  /\ find ((content ++ nl ++ sM) ++ (nl ++ new ++ nl) ++ eM ++ tail) eM
     = Some (length (content ++ nl ++ sM) + length (nl ++ new ++ nl))%nat.
Proof.
  intros Hcs Hce Hne.
  set (y3 := eM ++ tail).
  set (y2 := new ++ @cons char 10%N y3).
  set (y1 := sM ++ @cons char 10%N y2).
  assert (R : (content ++ nl ++ sM) ++ (nl ++ new ++ nl) ++ y3
              = content ++ @cons char 10%N y1).
  { unfold y1, y2, nl. rewrite <- !app_assoc. reflexivity. }
  rewrite R. split.
  - pose proof (find_across_separator sM content y1 10%N
                  start_not_empty start_one_line) as F.
    rewrite Hcs in F.
    pose proof (find_at_head y1 sM (startsWith_app sM _)) as F0.
    rewrite F0 in F.
    refine (eq_trans F _). cbn [option_map]. f_equal. lia.
  - pose proof (find_across_separator eM content y1 10%N
                  end_not_empty end_one_line) as F1.
    pose proof (find_across_separator eM sM y2 10%N
                  end_not_empty end_one_line) as F2.
    pose proof (find_across_separator eM new y3 10%N
                  end_not_empty end_one_line) as F3.
    pose proof (find_at_head y3 eM (startsWith_app eM tail)) as F0.
    rewrite Hne, F0 in F3. fold y2 in F3.
    rewrite end_not_in_start, F3 in F2. fold y1 in F2.
    rewrite Hce, F2 in F1. refine (eq_trans F1 _). cbn [option_map]. f_equal.
    rewrite !length_app. change (length nl) with 1%nat. lia.
Qed.

End MarkerPair.

Section SectionsMore.

Import Sections.

Lemma find_too_short (s m : jsstring) :
  (length s < length m)%nat -> find s m = None.
Proof.
  intros H. destruct (find s m) as [i|] eqn:F; [|reflexivity].
  apply find_Some_bound in F. lia.
Qed.

Lemma find_past_foreign (a : char) (m' p r : jsstring) :
  ~ In a p ->
  find (p ++ r) (a :: m')
  = option_map (fun i => (length p + i)%nat) (find r (a :: m')).
Proof.
  intros Hp. induction p as [|b p IH].
  - cbn [app length]. now destruct (find r (a :: m')).
  - assert (Hb : N.eqb a b = false)
      by (apply N.eqb_neq; intros ->; apply Hp; now left).
    change ((b :: p) ++ r) with (b :: (p ++ r)).
    cbn [find startsWith]. rewrite Hb. cbn [andb].
    rewrite IH by (intros H; apply Hp; now right).
    now destruct (find r (a :: m')).
Qed.

Lemma notIn_check (c : char) (l : jsstring) :
  forallb (fun x => negb (N.eqb x c)) l = true -> ~ In c l.
Proof.
  intros H Hin. apply (proj1 (forallb_forall _ _) H) in Hin.
  now rewrite N.eqb_refl in Hin.
Qed.

Lemma markers_one_line (name : jsstring) :
  ~ In 10%N name ->
  ~ In 10%N (startMarker name) /\ ~ In 10%N (endMarker name).
Proof.
  intros H. unfold startMarker, endMarker. rewrite !in_app_iff.
  split; intros [A|[A|A]]; try contradiction; revert A;
    apply notIn_check; vm_compute; reflexivity.
Qed.

(** An end marker never occurs in the start marker of the same section. *)
Lemma endMarker_not_in_startMarker (name : jsstring) :
  find (startMarker name) (endMarker name) = None.
Proof.
  change (startMarker name)
    with (60%N :: (lit "!-- auracoil:section:" ++ (name ++ lit " -->"))).
  change (endMarker name)
    with (60%N :: (lit "!-- auracoil:end:" ++ name ++ lit " -->")).
  set (m' := lit "!-- auracoil:end:" ++ name ++ lit " -->").
  cbn [find].
  assert (E : startsWith
                (60%N :: (lit "!-- auracoil:section:" ++ (name ++ lit " -->")))
                (60%N :: m') = false) by (vm_compute; reflexivity).
  rewrite E.
  rewrite find_past_foreign by (apply notIn_check; vm_compute; reflexivity).
  rewrite find_too_short; [reflexivity|].
  unfold m'. cbn [length]. rewrite !length_app. simpl. lia.
Qed.

Lemma dropWhile_app (p : char -> bool) (a b : jsstring) :
  dropWhile p (a ++ b)
  = match dropWhile p a with
    | [] => dropWhile p b
    | _ :: _ => dropWhile p a ++ b
    end.
Proof.
  induction a as [|x a IH]; cbn [app dropWhile].
  - reflexivity.
  - destruct (p x); [exact IH|reflexivity].
Qed.

Lemma trim_newlines_around (s : jsstring) : trim (nl ++ s ++ nl) = trim s.
Proof.
  unfold trim, trimStart, trimEnd.
  assert (E1 : rev (nl ++ s ++ nl) = 10%N :: (rev s ++ [10%N]))
    by (unfold nl; simpl; rewrite rev_app_distr; reflexivity).
  assert (E2 : dropWhile isWhiteSpace (10%N :: (rev s ++ [10%N]))
               = dropWhile isWhiteSpace (rev s ++ [10%N])) by reflexivity.
  rewrite E1, E2, dropWhile_app.
  destruct (dropWhile isWhiteSpace (rev s)) as [|d D] eqn:E.
  - reflexivity.
  - rewrite rev_app_distr. reflexivity.
Qed.

(** X19.  [replaceSection] on a document that has neither marker of the
    section appends the section; [extractSection] then returns the new
    content trimmed, and a second [replaceSection] overwrites the first as
    if it had not been made. *)
Theorem replaceSection_appends_then_extracts
    (content name newContent second : jsstring) :
  ~ In 10%N name ->
  includes content (startMarker name) = false ->
  includes content (endMarker name) = false ->
  includes newContent (endMarker name) = false ->
  replaceSection content name newContent
  = content ++ nl ++ startMarker name ++ nl ++ newContent ++ nl
    ++ endMarker name ++ nl
  /\ extractSection (replaceSection content name newContent) name
     = Some (trim newContent)
  /\ replaceSection (replaceSection content name newContent) name second
     = replaceSection content name second.
Proof.
  intros Hname Hcs Hce Hne.
  apply includes_false_find in Hcs, Hce, Hne.
  assert (A : forall new, replaceSection content name new
              = (content ++ nl ++ startMarker name) ++ (nl ++ new ++ nl)
                ++ endMarker name ++ nl).
  { intros new. unfold replaceSection, indexOf. rewrite Hcs. cbn [Z.eqb orb].
    rewrite <- !app_assoc. reflexivity. }
  destruct (markers_one_line name Hname) as [Ls Le].
  assert (Ns : startMarker name <> []) by discriminate.
  assert (Ne : endMarker name <> []) by discriminate.
  destruct (appended_indices (startMarker name) (endMarker name) Ns Ls Ne Le
              (endMarker_not_in_startMarker name) content newContent nl
              Hcs Hce Hne) as [Fs Fe].
  rewrite <- (A newContent) in Fs, Fe.
  split; [rewrite A, <- !app_assoc; reflexivity|]. split.
  - unfold extractSection, indexOf. rewrite Fs, Fe.
    destruct (Z.eqb_spec (Z.of_nat (length content + 1)) (-1)); [lia|].
    destruct (Z.eqb_spec
                (Z.of_nat (length (content ++ nl ++ startMarker name)
                           + length (nl ++ newContent ++ nl))) (-1)); [lia|].
    cbn [orb]. f_equal.
    replace (Z.of_nat (length content + 1)
             + Z.of_nat (length (startMarker name)))%Z
      with (Z.of_nat (length (content ++ nl ++ startMarker name) + 0))
      by (rewrite !length_app; change (length nl) with 1%nat; lia).
    rewrite (A newContent) at 1.
    rewrite (substring_past (content ++ nl ++ startMarker name)).
    rewrite substring_prefix by (rewrite !length_app; lia).
    rewrite (app_assoc (nl ++ newContent ++ nl)), <- app_assoc.
    rewrite firstn_exact. apply trim_newlines_around.
  - rewrite (A second). unfold replaceSection at 1, indexOf. rewrite Fs, Fe.
    destruct (Z.eqb_spec (Z.of_nat (length content + 1)) (-1)); [lia|].
    destruct (Z.eqb_spec
                (Z.of_nat (length (content ++ nl ++ startMarker name)
                           + length (nl ++ newContent ++ nl))) (-1)); [lia|].
    cbn [orb].
    replace (Z.of_nat (length content + 1)
             + Z.of_nat (length (startMarker name)))%Z
      with (Z.of_nat (length (content ++ nl ++ startMarker name)))
      by (rewrite !length_app; change (length nl) with 1%nat; lia).
    rewrite (A newContent).
    rewrite substring_prefix by (rewrite !length_app; lia).
    rewrite firstn_exact.
    rewrite substringFrom_suffix by (rewrite !length_app; lia).
    rewrite skipn_past.
    rewrite <- (Nat.add_0_r (length (nl ++ newContent ++ nl))).
    rewrite skipn_past. cbn [skipn]. rewrite <- !app_assoc. reflexivity.
Qed.

Lemma replaceSection_appends_then_extracts_witness :
  extractSection
    (replaceSection (lit "## Some header") (lit "overview")
       (lit " New section content ")) (lit "overview")
  = Some (trim (lit " New section content "))
  /\ replaceSection
       (replaceSection (lit "## Some header") (lit "overview")
          (lit " New section content ")) (lit "overview") (lit "Later")
     = replaceSection (lit "## Some header") (lit "overview") (lit "Later").
Proof.
  assert (H0 : ~ In 10%N (lit "overview"))
    by (apply notIn_check; vm_compute; reflexivity).
  assert (H1 : includes (lit "## Some header") (startMarker (lit "overview")) = false)
    by (vm_compute; reflexivity).
  assert (H2 : includes (lit "## Some header") (endMarker (lit "overview")) = false)
    by (vm_compute; reflexivity).
  assert (H3 : includes (lit " New section content ") (endMarker (lit "overview"))
               = false) by (vm_compute; reflexivity).
  exact (proj2 (replaceSection_appends_then_extracts
                  (lit "## Some header") (lit "overview")
                  (lit " New section content ") (lit "Later") H0 H1 H2 H3)).
Defined.

End SectionsMore.
